(** * asura_db: a file-per-record JSON document store

    Shallow embedding of [main.go] (package [main]) and of the parts of the
    Go standard library the driver calls: [path/filepath] ([Clean], [Join]),
    [os] ([Stat], [MkdirAll], [WriteFile], [Rename], [ReadFile], [ReadDir],
    [RemoveAll]) and [encoding/json] ([MarshalIndent], [Unmarshal]).

    The driver's functions are translated statement by statement.  A Go
    function returning [(T, error)] becomes a function returning a pair
    [T * option error], [None] being the [nil] error; a function that touches
    the disk takes the filesystem state and, when it can change it, returns
    the new one.

    Scope of the model.  Calls are sequential.  [Write] and [Delete] are
    given twice: without their locks, as functions of the filesystem alone,
    and with the lock registry ([getOrCreateMutex], [Write_locked],
    [Delete_locked]); the second form is shown to compute the first whenever
    the collection's mutex is free.  The logger only observes and is left
    out.  The filesystem holds directories and
    regular files, without symbolic links, permissions or resource limits:
    a system call fails exactly when the shape of the tree makes it fail
    (ENOENT, ENOTDIR, EISDIR, ...). *)

From Stdlib Require Import ZArith Ascii DecimalString DecimalPos DecimalFacts.
From Stdlib Require String.
From stdpp Require Import gmap strings list fin_maps sorting.

Set Default Proof Using "Type".

(** ** Bytes that string literals cannot spell *)

Definition DQUOTE : ascii := Ascii.ascii_of_nat 34.
Definition TAB : ascii := Ascii.ascii_of_nat 9.
Definition LF : ascii := Ascii.ascii_of_nat 10.
Definition CR : ascii := Ascii.ascii_of_nat 13.

Definition str (a : ascii) : string := String a EmptyString.

(** ** Errors *)

Inductive Errno := ENOENT | ENOTDIR | EISDIR | EEXIST | EINVAL | EBUSY | ENOTEMPTY.

Global Instance Errno_eq_dec : EqDecision Errno.
Proof. solve_decision. Defined.

(** The Go [error] values the driver can return.  [ErrorString] is what
    [fmt.Errorf] builds from a format without verbs, with its message.
    [PathError] and [LinkError] keep the operation, the path(s) given to the
    failing call, and the errno.  The last four come from [encoding/json]:
    [InvalidNumberLiteral lit] stands for the error with the message
    [json: invalid number literal] followed by [lit] in quotes. *)
Inductive error :=
| ErrorString (msg : string)
| PathError (op path : string) (err : Errno)
| LinkError (op old new : string) (err : Errno)
| SyntaxError
| UnmarshalTypeError (value type : string)
| UnsupportedTypeError (type : string)
| InvalidNumberLiteral (lit : string).

Global Instance error_eq_dec : EqDecision error.
Proof. solve_decision. Defined.

(** ** path/filepath (Unix) *)

Module filepath.

Definition Separator : ascii := "/"%char.

Definition is_sep (a : ascii) : bool := bool_decide (a = Separator).

(** [strings.Split(s, "/")]: the elements between separators; never empty. *)
Fixpoint split (s : string) : list string :=
  match s with
  | EmptyString => [EmptyString]
  | String a s' =>
      if is_sep a then EmptyString :: split s'
      else match split s' with
           | [] => [str a]
           | x :: xs => String a x :: xs
           end
  end.

Definition rooted (path : string) : bool :=
  match path with
  | String a _ => is_sep a
  | EmptyString => false
  end.

(** The state of [Clean]'s loop: [ups] counts the [..] elements written at the
    front of the output (the part below the [dotdot] mark, only for a path
    that is not rooted), [stack] holds the real elements written after them,
    last one first. *)
Definition clean_step (rooted : bool) (st : nat * list string) (elem : string)
  : nat * list string :=
  let '(ups, stack) := st in
  if decide (elem = "") then st                 (* empty path element *)
  else if decide (elem = ".") then st           (* . element *)
  else if decide (elem = "..") then             (* .. element *)
    match stack with
    | _ :: stack' => (ups, stack')              (* can backtrack *)
    | [] => if rooted then st else (S ups, [])  (* cannot backtrack *)
    end
  else (ups, elem :: stack).                    (* real path element *)

Definition render (rooted : bool) (st : nat * list string) : string :=
  let '(ups, stack) := st in
  let elems := replicate ups ".." ++ reverse stack in
  if rooted then "/" +:+ String.concat "/" elems
  else match elems with
       | [] => "."
       | _ => String.concat "/" elems
       end.

Definition clean_state (path : string) : nat * list string :=
  foldl (clean_step (rooted path)) (0, []) (split path).

Definition Clean (path : string) : string :=
  if decide (path = "") then "."
  else render (rooted path) (clean_state path).

(** [Join] skips leading empty elements, joins the rest with the separator
    and cleans the result; all elements empty gives the empty string. *)
Fixpoint Join (elem : list string) : string :=
  match elem with
  | [] => ""
  | e :: rest =>
      if decide (e = "") then Join rest
      else Clean (String.concat "/" (e :: rest))
  end.

End filepath.

(** ** os: the filesystem *)

Module os.

(** A filesystem object: a regular file with its bytes, or a directory with
    its entries by name. *)
#[warning="-register-all"]
Inductive node :=
| File (content : string)
| Dir (entries : gmap string node).

(** The state the calls see: the tree below [/] and the working directory of
    the process, against which relative paths are resolved. *)
Record FS := { cwd : list string; tree : node }.

Definition set_tree (fs : FS) (t : node) : FS := {| cwd := cwd fs; tree := t |}.

(** *** Path resolution

    The kernel walks a path element by element; [acc] is the directory
    reached so far, innermost name first.  Without symbolic links [..] is the
    lexical parent, and the parent of [/] is [/]. *)
Definition walk_step (acc : list string) (elem : string) : list string :=
  if decide (elem = "") then acc
  else if decide (elem = ".") then acc
  else if decide (elem = "..") then tail acc
  else elem :: acc.

Definition resolve (cwd : list string) (path : string) : list string :=
  reverse (foldl walk_step (if filepath.rooted path then [] else reverse cwd)
             (filepath.split path)).

(** *** The tree *)

Fixpoint walk (t : node) (p : list string) : Errno + node :=
  match p with
  | [] => inr t
  | x :: p' =>
      match t with
      | File _ => inl ENOTDIR
      | Dir m =>
          match m !! x with
          | None => inl ENOENT
          | Some t' => walk t' p'
          end
      end
  end.

(** Bind [n] at [p], whose parent must be a directory; whatever was at [p] is
    replaced. *)
Fixpoint put_at (t : node) (p : list string) (n : node) : Errno + node :=
  match p, t with
  | [], _ => inr n
  | _ :: _, File _ => inl ENOTDIR
  | x :: p', Dir m =>
      let sub :=
        match m !! x with
        | Some t' => put_at t' p' n
        | None => match p' with [] => inr n | _ :: _ => inl ENOENT end
        end in
      match sub with
      | inl e => inl e
      | inr t' => inr (Dir (<[x := t']> m))
      end
  end.

(** Unlink [p] with everything below it.  The root has no entry to unlink:
    only its contents go. *)
Fixpoint remove_at (t : node) (p : list string) : node :=
  match p, t with
  | [], Dir _ => Dir ∅
  | [], File _ => t
  | _ :: _, File _ => t
  | x :: p', Dir m =>
      match p' with
      | [] => Dir (delete x m)
      | _ :: _ =>
          match m !! x with
          | Some t' => Dir (<[x := remove_at t' p']> m)
          | None => t
          end
      end
  end.

(** Create [p] and every missing ancestor as directories; fails when a
    regular file is in the way. *)
Fixpoint mkdir_all (t : node) (p : list string) : Errno + node :=
  match t with
  | File _ => inl ENOTDIR
  | Dir m =>
      match p with
      | [] => inr t
      | x :: p' =>
          match mkdir_all (default (Dir ∅) (m !! x)) p' with
          | inl e => inl e
          | inr t' => inr (Dir (<[x := t']> m))
          end
      end
  end.

(** *** File information *)

Inductive FileMode := ModeDir | ModeRegular | ModeIrregular.

Definition IsDir (m : FileMode) : bool :=
  match m with ModeDir => true | _ => false end.
Definition IsRegular (m : FileMode) : bool :=
  match m with ModeRegular => true | _ => false end.

(** The part of [os.FileInfo] the driver reads.  Every object of this model
    is a directory or a regular file; [ModeIrregular] stands for the devices,
    pipes and sockets of a real disk. *)
Record FileInfo := { Mode : FileMode }.

Definition info_of (n : node) : FileInfo :=
  match n with
  | Dir _ => {| Mode := ModeDir |}
  | File _ => {| Mode := ModeRegular |}
  end.

(** [errors.Is(err, fs.ErrNotExist)] through [PathError] and [LinkError]:
    on Unix only ENOENT is "does not exist". *)
Definition underlying (e : error) : option Errno :=
  match e with
  | PathError _ _ n => Some n
  | LinkError _ _ _ n => Some n
  | _ => None
  end.

Definition IsNotExist (err : option error) : bool :=
  match err with
  | Some e => bool_decide (underlying e = Some ENOENT)
  | None => false
  end.

(** *** The calls *)

Definition Stat (fs : FS) (name : string) : option FileInfo * option error :=
  if decide (name = "") then (None, Some (PathError "stat" name ENOENT))
  else
    match walk (tree fs) (resolve (cwd fs) name) with
    | inr n => (Some (info_of n), None)
    | inl e => (None, Some (PathError "stat" name e))
    end.

(** [os.MkdirAll].  When a regular file lies above the path, Go's error names
    that ancestor and its errno has changed between Go releases; the model
    reports [ENOTDIR] on the path it was given, and the statements below use
    only that the call fails there and changes nothing. *)
Definition MkdirAll (fs : FS) (path : string) : FS * option error :=
  if decide (path = "") then (fs, Some (PathError "mkdir" path ENOENT))
  else
    match mkdir_all (tree fs) (resolve (cwd fs) path) with
    | inr t => (set_tree fs t, None)
    | inl e => (fs, Some (PathError "mkdir" path e))
    end.

(** [os.WriteFile]: open with [O_WRONLY|O_CREATE|O_TRUNC], write, close. *)
Definition WriteFile (fs : FS) (name : string) (data : string)
  : FS * option error :=
  if decide (name = "") then (fs, Some (PathError "open" name ENOENT))
  else
    let p := resolve (cwd fs) name in
    match walk (tree fs) p with
    | inr (Dir _) => (fs, Some (PathError "open" name EISDIR))
    | inl ENOTDIR => (fs, Some (PathError "open" name ENOTDIR))
    | _ =>
        match put_at (tree fs) p (File data) with
        | inr t => (set_tree fs t, None)
        | inl e => (fs, Some (PathError "open" name e))
        end
    end.

Definition ReadFile (fs : FS) (name : string) : string * option error :=
  if decide (name = "") then ("", Some (PathError "open" name ENOENT))
  else
    match walk (tree fs) (resolve (cwd fs) name) with
    | inr (File data) => (data, None)
    | inr (Dir _) => ("", Some (PathError "read" name EISDIR))
    | inl e => ("", Some (PathError "open" name e))
    end.

(** [os.ReadDir]: the names of the entries, sorted byte-wise by name. *)
Definition ReadDir (fs : FS) (name : string) : list string * option error :=
  if decide (name = "") then ([], Some (PathError "open" name ENOENT))
  else
    match walk (tree fs) (resolve (cwd fs) name) with
    | inr (Dir m) => (merge_sort String.le (map fst (map_to_list m)), None)
    | inr (File _) => ([], Some (PathError "readdirent" name ENOTDIR))
    | inl e => ([], Some (PathError "open" name e))
    end.

(** The final element of [path] is [.] *)
Definition endsWithDot (path : string) : bool :=
  bool_decide (last (filepath.split path) = Some ".").

(** The errno of [rmdir] on a path whose final element names no entry it
    could unlink: the path ends in [..], or is the root. *)
Definition rmdir_refuses (path : string) (p : list string) : option Errno :=
  if decide (last (filepath.split path) = Some "..") then Some ENOTEMPTY
  else if decide (p = []) then Some EBUSY
  else None.

(** [os.RemoveAll]: nothing to do for an absent path; a path through a
    regular file is an error; otherwise the object goes with all it contains.
    For the root and for a path ending in [..] the contents go and the final
    [rmdir] fails. *)
Definition RemoveAll (fs : FS) (path : string) : FS * option error :=
  if decide (path = "") then (fs, None)
  else if endsWithDot path then (fs, Some (PathError "RemoveAll" path EINVAL))
  else
    let p := resolve (cwd fs) path in
    match walk (tree fs) p with
    | inl ENOENT => (fs, None)
    | inl e => (fs, Some (PathError "unlinkat" path e))
    | inr (File _) => (set_tree fs (remove_at (tree fs) p), None)
    | inr (Dir _) =>
        match rmdir_refuses path p with
        | Some e =>
            match put_at (tree fs) p (Dir ∅) with
            | inr t => (set_tree fs t, Some (PathError "unlinkat" path e))
            | inl _ => (fs, Some (PathError "unlinkat" path e))
            end
        | None => (set_tree fs (remove_at (tree fs) p), None)
        end
    end.

(** The directory that holds the entry [p]: its errno when it is missing or
    is not a directory. *)
Definition parent_dir (t : node) (p : list string) : option Errno :=
  match walk t (removelast p) with
  | inl e => Some e
  | inr (File _) => Some ENOTDIR
  | inr (Dir _) => None
  end.

(** The system call [rename(2)]: both parents are looked up first, then the
    old entry; the object moves with all it contains, replacing a regular
    file or an empty directory of its own kind. *)
Definition sys_rename (fs : FS) (old new : list string) : Errno + FS :=
  match parent_dir (tree fs) old, parent_dir (tree fs) new with
  | Some e, _ => inl e
  | None, Some e => inl e
  | None, None =>
      match walk (tree fs) old with
      | inl e => inl e
      | inr n =>
          let move :=
            match put_at (remove_at (tree fs) old) new n with
            | inr t => inr (set_tree fs t)
            | inl e => inl e
            end in
          if decide (old = new) then inr fs
          else if decide (old `prefix_of` new) then inl EINVAL
          else if decide (old = [] \/ new = []) then inl EBUSY
          else
            match n, walk (tree fs) new with
            | Dir _, inr (File _) => inl ENOTDIR
            | File _, inr (Dir _) => inl EISDIR
            | Dir _, inr (Dir m) =>
                if decide (size m = 0) then move else inl ENOTEMPTY
            | _, _ => move
            end
      end
  end.

(** [os.Rename] first refuses an existing directory as the new name (EEXIST,
    or the error of the old name when that cannot be examined), unless both
    names are the same directory under two spellings; then it makes the
    system call. *)
Definition Rename (fs : FS) (oldpath newpath : string) : FS * option error :=
  let fail e := (fs, Some (LinkError "rename" oldpath newpath e)) in
  let call old new :=
    match sys_rename fs old new with
    | inr fs' => (fs', None)
    | inl e => fail e
    end in
  if decide (oldpath = "" \/ newpath = "") then fail ENOENT
  else
    let old := resolve (cwd fs) oldpath in
    let new := resolve (cwd fs) newpath in
    match walk (tree fs) new with
    | inr (Dir _) =>
        match walk (tree fs) old with
        | inl e => fail e
        | inr _ =>
            if decide (newpath = oldpath \/ old <> new) then fail EEXIST
            else call old new
        end
    | _ => call old new
    end.

End os.

(** ** Go values handed to the encoder

    What an [interface{}] argument can hold, as far as the encoder tells
    values apart: the kinds the store's payloads are made of, [nil], and a
    channel, one of the kinds the encoder refuses.  A struct is its exported
    fields in declaration order. *)
#[warning="-register-all"]
Inductive value :=
| VNil
| VBool (b : bool)
| VInt (n : Z)
| VNumber (lit : string)
| VString (s : string)
| VSlice (elems : list value)
| VStruct (fields : list (string * value))
| VChan.

(** ** encoding/json *)

Module json.

(** A JSON text as the scanner sees it; a number keeps its literal. *)
#[warning="-register-all"]
Inductive tree :=
| JNull
| JBool (b : bool)
| JNumber (lit : string)
| JString (s : string)
| JArray (elems : list tree)
| JObject (members : list (string * tree)).

Definition byte (a : ascii) : N := N_of_ascii a.

Definition between (lo hi : N) (a : ascii) : bool :=
  bool_decide (lo <= byte a <= hi)%N.

(** *** UTF-8 *)

(** The length of the well-formed UTF-8 sequence at the head of [s], if
    there is one ([utf8.DecodeRuneInString] without the rune). *)
Definition utf8_size (s : string) : option nat :=
  match s with
  | EmptyString => None
  | String a r =>
      let second :=
        if bool_decide (byte a = 0xE0)%N then between 0xA0 0xBF
        else if bool_decide (byte a = 0xED)%N then between 0x80 0x9F
        else if bool_decide (byte a = 0xF0)%N then between 0x90 0xBF
        else if bool_decide (byte a = 0xF4)%N then between 0x80 0x8F
        else between 0x80 0xBF in
      let cont := between 0x80 0xBF in
      if between 0 0x7F a then Some 1
      else if between 0xC2 0xDF a then
        match r with
        | String b _ => if second b then Some 2 else None
        | _ => None
        end
      else if between 0xE0 0xEF a then
        match r with
        | String b (String c _) => if second b && cont c then Some 3 else None
        | _ => None
        end
      else if between 0xF0 0xF4 a then
        match r with
        | String b (String c (String d _)) =>
            if second b && cont c && cont d then Some 4 else None
        | _ => None
        end
      else None
  end.

Definition chr (n : N) : ascii := ascii_of_N n.

(** [utf8.EncodeRune] for a code point that is not a surrogate. *)
Definition encode_rune (r : N) : string :=
  if bool_decide (r < 0x80)%N then str (chr r)
  else if bool_decide (r < 0x800)%N then
    String (chr (0xC0 + r / 64)) (str (chr (0x80 + r mod 64)))
  else if bool_decide (r < 0x10000)%N then
    String (chr (0xE0 + r / 4096))
      (String (chr (0x80 + (r / 64) mod 64)) (str (chr (0x80 + r mod 64))))
  else
    String (chr (0xF0 + r / 262144))
      (String (chr (0x80 + (r / 4096) mod 64))
         (String (chr (0x80 + (r / 64) mod 64)) (str (chr (0x80 + r mod 64))))).

Definition RuneError : string := encode_rune 0xFFFD.

(** *** Encoding *)

Definition hex (n : N) : ascii :=
  default "0"%char (String.get (N.to_nat n) "0123456789abcdef").

Definition backslash : ascii := "\"%char.

(** One byte below [utf8.RuneSelf] inside a string literal, with the HTML
    escapes [Marshal] applies. *)
Definition escape_byte (a : ascii) : string :=
  let esc c := String backslash (str c) in
  if bool_decide (a = DQUOTE \/ a = backslash) then esc a
  else if bool_decide (byte a = 8)%N then esc "b"%char
  else if bool_decide (byte a = 12)%N then esc "f"%char
  else if bool_decide (a = LF) then esc "n"%char
  else if bool_decide (a = CR) then esc "r"%char
  else if bool_decide (a = TAB) then esc "t"%char
  else if bool_decide ((byte a < 0x20)%N \/ a = "<"%char \/ a = ">"%char
                       \/ a = "&"%char)
  then "\u00" +:+ String (hex (byte a / 16)) (str (hex (byte a mod 16)))
  else str a.

(** The body of a string literal; [copy] bytes of a multi-byte sequence are
    still to be passed through. *)
Fixpoint escape (copy : nat) (s : string) {struct s} : string :=
  match s with
  | EmptyString => ""
  | String a r =>
      match copy with
      | S k => String a (escape k r)
      | O =>
          if between 0 0x7F a then escape_byte a +:+ escape 0 r
          else
            match utf8_size s with
            | None => "\ufffd" +:+ escape 0 r
            | Some n =>
                match r with
                | String b (String c r') =>
                    if bool_decide (byte a = 0xE2 /\ byte b = 0x80
                                    /\ (byte c = 0xA8 \/ byte c = 0xA9))%N
                    then "\u202" +:+ String (hex (byte c mod 16)) (escape 0 r')
                    else String a (escape (n - 1) r)
                | _ => String a (escape (n - 1) r)
                end
            end
      end
  end.

Definition quote (s : string) : string :=
  String DQUOTE (escape 0 s) +:+ str DQUOTE.

Definition digit (a : ascii) : bool := between 48 57 a.

Fixpoint digits (s : string) : string * string :=
  match s with
  | String a r =>
      if digit a then let '(ds, rest) := digits r in (String a ds, rest)
      else ("", s)
  | EmptyString => ("", "")
  end.

(** The longest prefix of [s] that is a JSON number, with what follows. *)
Definition scan_number (s : string) : option (string * string) :=
  let '(sign, s1) :=
    match s with
    | String "-" r => ("-", r)
    | _ => ("", s)
    end in
  let int :=
    match s1 with
    | String "0" r => Some ("0", r)
    | String a _ => if digit a then Some (digits s1) else None
    | EmptyString => None
    end in
  match int with
  | None => None
  | Some (i, s2) =>
      let frac :=
        match s2 with
        | String "." r =>
            match digits r with
            | ("", _) => None
            | (ds, rest) => Some ("." +:+ ds, rest)
            end
        | _ => Some ("", s2)
        end in
      match frac with
      | None => None
      | Some (f, s3) =>
          let exp :=
            match s3 with
            | String e r =>
                if bool_decide (e = "e"%char \/ e = "E"%char) then
                  let '(sg, r1) :=
                    match r with
                    | String g r0 =>
                        if bool_decide (g = "+"%char \/ g = "-"%char)
                        then (str g, r0) else ("", r)
                    | EmptyString => ("", r)
                    end in
                  match digits r1 with
                  | ("", _) => None
                  | (ds, rest) => Some (str e +:+ sg +:+ ds, rest)
                  end
                else Some ("", s3)
            | EmptyString => Some ("", s3)
            end in
          match exp with
          | None => None
          | Some (e, s4) => Some (sign +:+ i +:+ f +:+ e, s4)
          end
      end
  end.

Definition isValidNumber (s : string) : bool :=
  match scan_number s with
  | Some (_, EmptyString) => true
  | _ => false
  end.

Definition itoa (n : Z) : string := NilZero.string_of_int (Z.to_int n).

(** The reflection walk of [Marshal]: the JSON text a value encodes to, or
    the error that stops the encoder. *)
Fixpoint encode (v : value) : tree + error :=
  match v with
  | VNil => inl JNull
  | VBool b => inl (JBool b)
  | VInt n => inl (JNumber (itoa n))
  | VNumber lit =>
      let numStr := if decide (lit = "") then "0" else lit in
      if isValidNumber numStr then inl (JNumber numStr)
      else inr (InvalidNumberLiteral numStr)
  | VString s => inl (JString s)
  | VSlice elems =>
      let fix all (l : list value) : list tree + error :=
        match l with
        | [] => inl []
        | x :: l' =>
            match encode x with
            | inr e => inr e
            | inl j =>
                match all l' with
                | inr e => inr e
                | inl js => inl (j :: js)
                end
            end
        end in
      match all elems with
      | inr e => inr e
      | inl js => inl (JArray js)
      end
  | VStruct fields =>
      let fix all (l : list (string * value)) : list (string * tree) + error :=
        match l with
        | [] => inl []
        | (k, x) :: l' =>
            match encode x with
            | inr e => inr e
            | inl j =>
                match all l' with
                | inr e => inr e
                | inl js => inl ((k, j) :: js)
                end
            end
        end in
      match all fields with
      | inr e => inr e
      | inl ms => inl (JObject ms)
      end
  | VChan => inr (UnsupportedTypeError "chan int")
  end.

Section Indent.
Variables prefix indent : string.

Definition newline (depth : nat) : string :=
  str LF +:+ prefix +:+ String.concat "" (replicate depth indent).

(** The text [Indent] produces: every element of a non-empty array or object
    on a line of its own, one [indent] deeper than its parent. *)
Fixpoint print (depth : nat) (j : tree) : string :=
  let block (open close : string) (items : list string) :=
    match items with
    | [] => open +:+ close
    | _ =>
        open +:+ newline (S depth)
        +:+ String.concat ("," +:+ newline (S depth)) items
        +:+ newline depth +:+ close
    end in
  match j with
  | JNull => "null"
  | JBool true => "true"
  | JBool false => "false"
  | JNumber lit => lit
  | JString s => quote s
  | JArray elems => block "[" "]" (map (print (S depth)) elems)
  | JObject members =>
      block "{" "}"
        (map (fun m => quote (fst m) +:+ ": " +:+ print (S depth) (snd m))
             members)
  end.

End Indent.

Definition MarshalIndent (v : value) (prefix indent : string)
  : string * option error :=
  match encode v with
  | inl j => (print prefix indent 0 j, None)
  | inr e => ("", Some e)
  end.

(** *** Decoding *)

Definition space (a : ascii) : bool :=
  bool_decide (a = " "%char \/ a = TAB \/ a = CR \/ a = LF).

Fixpoint skip (s : string) : string :=
  match s with
  | String a r => if space a then skip r else s
  | EmptyString => s
  end.

Fixpoint strip (p s : string) : option string :=
  match p, s with
  | EmptyString, _ => Some s
  | String a p', String b s' => if decide (a = b) then strip p' s' else None
  | String _ _, EmptyString => None
  end.

Definition hexval (a : ascii) : option N :=
  if between 48 57 a then Some (byte a - 48)%N
  else if between 97 102 a then Some (byte a - 87)%N
  else if between 65 70 a then Some (byte a - 55)%N
  else None.

Definition getu4 (h1 h2 h3 h4 : ascii) : option N :=
  match hexval h1, hexval h2, hexval h3, hexval h4 with
  | Some a, Some b, Some c, Some d => Some (a * 4096 + b * 256 + c * 16 + d)%N
  | _, _, _, _ => None
  end.

Definition push (pre : string) (r : option (string * string))
  : option (string * string) :=
  match r with
  | Some (body, rest) => Some (pre +:+ body, rest)
  | None => None
  end.

(** The scanner inside a string literal, after the opening quote: the raw
    body up to the closing quote, and what follows it. *)
Fixpoint scan_string (s : string) : option (string * string) :=
  match s with
  | EmptyString => None
  | String a r =>
      if decide (a = DQUOTE) then Some ("", r)
      else if decide (a = backslash) then
        match r with
        | String e r1 =>
            if bool_decide (e = DQUOTE \/ e = backslash \/ e = "/"%char
                            \/ e = "b"%char \/ e = "f"%char \/ e = "n"%char
                            \/ e = "r"%char \/ e = "t"%char)
            then push (String a (str e)) (scan_string r1)
            else if decide (e = "u"%char) then
              match r1 with
              | String h1 (String h2 (String h3 (String h4 r2))) =>
                  match getu4 h1 h2 h3 h4 with
                  | Some _ =>
                      push (String a (String e (String h1 (String h2
                              (String h3 (str h4))))))
                           (scan_string r2)
                  | None => None
                  end
              | _ => None
              end
            else None
        | EmptyString => None
        end
      else if bool_decide (byte a < 0x20)%N then None
      else push (str a) (scan_string r)
  end.

Definition unescape (e : ascii) : ascii :=
  if decide (e = "b"%char) then chr 8
  else if decide (e = "f"%char) then chr 12
  else if decide (e = "n"%char) then LF
  else if decide (e = "r"%char) then CR
  else if decide (e = "t"%char) then TAB
  else e.

(** [utf16.DecodeRune]: the code point of a surrogate pair. *)
Definition surrogate (r : N) : bool := bool_decide (0xD800 <= r < 0xE000)%N.

Definition decode_pair (r1 r2 : N) : option N :=
  if bool_decide (0xD800 <= r1 < 0xDC00 /\ 0xDC00 <= r2 < 0xE000)%N
  then Some ((r1 - 0xD800) * 1024 + (r2 - 0xDC00) + 0x10000)%N
  else None.

(** The bytes a scanned string literal stands for: escapes replaced, and
    anything that is not well-formed UTF-8 replaced by U+FFFD. *)
Fixpoint unquote (copy : nat) (s : string) {struct s} : string :=
  match s with
  | EmptyString => ""
  | String a r =>
      match copy with
      | S k => String a (unquote k r)
      | O =>
          if decide (a = backslash) then
            match r with
            | String e r1 =>
                if decide (e = "u"%char) then
                  match r1 with
                  | String h1 (String h2 (String h3 (String h4 r2))) =>
                      match getu4 h1 h2 h3 h4 with
                      | None => ""
                      | Some rr =>
                          if surrogate rr then
                            let pair :=
                              match r2 with
                              | String b (String u (String l1 (String l2
                                  (String l3 (String l4 r3))))) =>
                                  if bool_decide (b = backslash /\ u = "u"%char)
                                  then
                                    match getu4 l1 l2 l3 l4 with
                                    | Some rr1 =>
                                        match decode_pair rr rr1 with
                                        | Some dec =>
                                            Some (encode_rune dec
                                                  +:+ unquote 0 r3)
                                        | None => None
                                        end
                                    | None => None
                                    end
                                  else None
                              | _ => None
                              end in
                            match pair with
                            | Some out => out
                            | None => RuneError +:+ unquote 0 r2
                            end
                          else encode_rune rr +:+ unquote 0 r2
                      end
                  | _ => ""
                  end
                else String (unescape e) (unquote 0 r1)
            | EmptyString => ""
            end
          else if between 0 0x7F a then String a (unquote 0 r)
          else
            match utf8_size s with
            | None => RuneError +:+ unquote 0 r
            | Some n => String a (unquote (n - 1) r)
            end
      end
  end.

(** The scanner and the decoder in one pass: the value at the head of the
    input and what follows it, [None] on a syntax error.  [fuel] bounds the
    number of nested calls. *)
Fixpoint parse_value (fuel : nat) (s : string) : option (tree * string) :=
  match fuel with
  | O => None
  | S fuel =>
      match skip s with
      | EmptyString => None
      | String a r as s1 =>
          if decide (a = "{"%char) then
            match skip r with
            | String c r' =>
                if decide (c = "}"%char) then Some (JObject [], r')
                else parse_members fuel r []
            | EmptyString => None
            end
          else if decide (a = "["%char) then
            match skip r with
            | String c r' =>
                if decide (c = "]"%char) then Some (JArray [], r')
                else parse_elems fuel r []
            | EmptyString => None
            end
          else if decide (a = DQUOTE) then
            match scan_string r with
            | Some (body, rest) => Some (JString (unquote 0 body), rest)
            | None => None
            end
          else if decide (a = "t"%char) then
            option_map (pair (JBool true)) (strip "true" s1)
          else if decide (a = "f"%char) then
            option_map (pair (JBool false)) (strip "false" s1)
          else if decide (a = "n"%char) then
            option_map (pair JNull) (strip "null" s1)
          else
            match scan_number s1 with
            | Some (lit, rest) => Some (JNumber lit, rest)
            | None => None
            end
      end
  end
with parse_elems (fuel : nat) (s : string) (acc : list tree)
  : option (tree * string) :=
  match fuel with
  | O => None
  | S fuel =>
      match parse_value fuel s with
      | Some (v, rest) =>
          match skip rest with
          | String c r =>
              if decide (c = ","%char) then parse_elems fuel r (v :: acc)
              else if decide (c = "]"%char)
              then Some (JArray (reverse (v :: acc)), r)
              else None
          | EmptyString => None
          end
      | None => None
      end
  end
with parse_members (fuel : nat) (s : string) (acc : list (string * tree))
  : option (tree * string) :=
  match fuel with
  | O => None
  | S fuel =>
      match skip s with
      | String q r =>
          if decide (q = DQUOTE) then
            match scan_string r with
            | Some (key, rest) =>
                match skip rest with
                | String c r1 =>
                    if decide (c = ":"%char) then
                      match parse_value fuel r1 with
                      | Some (v, rest2) =>
                          let acc := (unquote 0 key, v) :: acc in
                          match skip rest2 with
                          | String c2 r2 =>
                              if decide (c2 = ","%char)
                              then parse_members fuel r2 acc
                              else if decide (c2 = "}"%char)
                              then Some (JObject (reverse acc), r2)
                              else None
                          | EmptyString => None
                          end
                      | None => None
                      end
                    else None
                | EmptyString => None
                end
            | None => None
            end
          else None
      | EmptyString => None
      end
  end.

(** [checkValid] and the decoder: the whole input is one JSON value between
    optional white space. *)
Definition parse (data : string) : option tree :=
  match parse_value (2 * String.length data + 2) data with
  | Some (j, rest) =>
      match skip rest with
      | EmptyString => Some j
      | String _ _ => None
      end
  | None => None
  end.

(** [Unmarshal(data, &v)] for [v] of type [string]: the new value of [v] and
    the error.  Only a JSON string is stored; [null] leaves [v] as it is; any
    other JSON value is a type error and leaves [v] as it is. *)
Definition Unmarshal (data : string) (v : string) : string * option error :=
  match parse data with
  | None => (v, Some SyntaxError)
  | Some (JString s) => (s, None)
  | Some JNull => (v, None)
  | Some (JBool _) => (v, Some (UnmarshalTypeError "bool" "string"))
  | Some (JNumber _) => (v, Some (UnmarshalTypeError "number" "string"))
  | Some (JArray _) => (v, Some (UnmarshalTypeError "array" "string"))
  | Some (JObject _) => (v, Some (UnmarshalTypeError "object" "string"))
  end.

End json.

(** ** package main: the driver *)

Definition Version : string := "1.0.1".

(** The [Driver] struct, without its locks and its logger. *)
Record Driver := { dir : string }.

(** [fmt.Errorf] with a format that has no verb. *)
Definition Errorf (msg : string) : error := ErrorString msg.

Definition New (dir : string) (fs : os.FS) : Driver * os.FS * option error :=
  let dir := filepath.Clean dir in
  let driver := {| dir := dir |} in
  match os.Stat fs dir with
  | (_, None) => (driver, fs, None)
  | (_, Some _) =>
      let '(fs', err) := os.MkdirAll fs dir in (driver, fs', err)
  end.

Definition stat (fs : os.FS) (path : string)
  : option os.FileInfo * option error :=
  let '(fi, err) := os.Stat fs path in
  if os.IsNotExist err then os.Stat fs (path +:+ ".json")
  else (fi, err).

(** [Read] gets [v] by value: [json.Unmarshal(b, &v)] fills the function's
    own copy, and the only thing handed back to the caller is the error. *)
Definition Read (d : Driver) (fs : os.FS) (collection resource : string)
  (v : string) : option error :=
  if decide (collection = "") then
    Some (Errorf "Missing collection - no place to save record!")
  else if decide (resource = "") then
    Some (Errorf "Missing resource - unable to save record (no name)!")
  else
    let record := filepath.Join [d.(dir); collection; resource] in
    match stat fs record with
    | (_, Some err) => Some err
    | (_, None) =>
        match os.ReadFile fs (record +:+ ".json") with
        | (_, Some err) => Some err
        | (b, None) => snd (json.Unmarshal b v)
        end
    end.

Definition Delete (d : Driver) (fs : os.FS) (collection resource : string)
  : os.FS * option error :=
  let path := filepath.Join [collection; resource] in
  let dir := filepath.Join [d.(dir); path] in
  match stat fs dir with
  | (None, _) | (_, Some _) =>
      (fs, Some (Errorf ("unable to find file or directory named " +:+ path
                         +:+ str LF)))
  | (Some fi, None) =>
      if os.IsDir (os.Mode fi) then os.RemoveAll fs dir
      else if os.IsRegular (os.Mode fi) then os.RemoveAll fs (dir +:+ ".json")
      else (fs, None)
  end.

Definition Write (d : Driver) (fs : os.FS) (collection resource : string)
  (v : value) : os.FS * option error :=
  if decide (collection = "") then
    (fs, Some (Errorf "Missing collection - no place to save record!"))
  else if decide (resource = "") then
    (fs, Some (Errorf "Missing resource - unable to save record (no name)!"))
  else
    let dir := filepath.Join [d.(dir); collection] in
    let fnlPath := filepath.Join [dir; resource +:+ ".json"] in
    let tmpPath := fnlPath +:+ ".tmp" in
    match os.MkdirAll fs dir with
    | (fs, Some err) => (fs, Some err)
    | (fs, None) =>
        match json.MarshalIndent v "" (str TAB) with
        | (_, Some err) => (fs, Some err)
        | (b, None) =>
            let b := b +:+ str LF in
            match os.WriteFile fs tmpPath b with
            | (fs, Some err) => (fs, Some err)
            | (fs, None) =>
                match os.Rename fs tmpPath fnlPath with
                | (fs, Some err) => (fs, Some err)
                | (fs, None) => (fs, None)
                end
            end
        end
    end.

(** The loop of [ReadAll] over the directory entries. *)
Fixpoint read_records (fs : os.FS) (dir : string) (files : list string)
  (records : list string) : list string * option error :=
  match files with
  | [] => (records, None)
  | file :: files =>
      match os.ReadFile fs (filepath.Join [dir; file]) with
      | (_, Some err) => ([], Some err)
      | (b, None) => read_records fs dir files (records ++ [b])
      end
  end.

Definition ReadAll (d : Driver) (fs : os.FS) (collection : string)
  : list string * option error :=
  if decide (collection = "") then
    ([], Some (Errorf "Missing collection - unable to read"))
  else
    let dir := filepath.Join [d.(dir); collection] in
    match stat fs dir with
    | (_, Some err) => ([], Some err)
    | (_, None) =>
        match os.ReadDir fs dir with
        | (_, Some err) => ([], Some err)
        | (files, None) => read_records fs dir files []
        end
    end.

(** ** sync: mutexes, as one goroutine sees them *)

Module sync.

(** What becomes of a call when no other goroutine runs: it returns, it
    waits for ever, or the runtime stops the program. *)
Inductive outcome (A : Type) :=
| Done (a : A)
| Blocked
| Fatal.
Global Arguments Done {A} a.
Global Arguments Blocked {A}.
Global Arguments Fatal {A}.

Global Instance outcome_ret : MRet outcome := @Done.
Global Instance outcome_bind : MBind outcome := fun A B f o =>
  match o with
  | Done a => f a
  | Blocked => Blocked
  | Fatal => Fatal
  end.

(** A [sync.Mutex] is locked or not; the zero value is unlocked. *)
Inductive Mutex := Unlocked | Locked.

Definition Lock (m : Mutex) : outcome Mutex :=
  match m with
  | Unlocked => Done Locked
  | Locked => Blocked
  end.

(** Unlocking an unlocked mutex is a fatal error of the runtime. *)
Definition Unlock (m : Mutex) : outcome Mutex :=
  match m with
  | Locked => Done Unlocked
  | Unlocked => Fatal
  end.

End sync.

(** ** package main: the locks

    The lock fields of the [Driver] struct: [mutex] guards the map
    [mutexes], which holds one [*sync.Mutex] per collection name.  A pointer
    is an address in [heap], the mutexes allocated so far. *)
Record Locks := {
  mutex : sync.Mutex;
  mutexes : gmap string nat;
  heap : list sync.Mutex }.

(** The lock fields of the driver [New] builds. *)
Definition New_locks : Locks :=
  {| mutex := sync.Unlocked; mutexes := ∅; heap := [] |}.

Definition set_mutex (l : Locks) (mu : sync.Mutex) : Locks :=
  {| mutex := mu; mutexes := mutexes l; heap := heap l |}.

(** [m.Lock()] and [m.Unlock()] through a pointer [m]. *)
Definition lock (l : Locks) (m : nat) : sync.outcome Locks :=
  match heap l !! m with
  | Some mu =>
      mu' ← sync.Lock mu;
      mret {| mutex := mutex l; mutexes := mutexes l; heap := <[m := mu']> (heap l) |}
  | None => sync.Fatal
  end.

Definition unlock (l : Locks) (m : nat) : sync.outcome Locks :=
  match heap l !! m with
  | Some mu =>
      mu' ← sync.Unlock mu;
      mret {| mutex := mutex l; mutexes := mutexes l; heap := <[m := mu']> (heap l) |}
  | None => sync.Fatal
  end.

Definition getOrCreateMutex (l : Locks) (collection : string)
  : sync.outcome (nat * Locks) :=
  mu ← sync.Lock (mutex l);
  let l := set_mutex l mu in
  let '(m, l) :=
    match mutexes l !! collection with
    | Some m => (m, l)
    | None =>
        let m := length (heap l) in                  (* &sync.Mutex{} *)
        (m, {| mutex := mutex l;
               mutexes := <[collection := m]> (mutexes l);
               heap := heap l ++ [sync.Unlocked] |})
    end in
  mu ← sync.Unlock (mutex l);                         (* deferred *)
  mret (m, set_mutex l mu).

(** [Write] after its validation and [Delete] after it has joined the
    names: the statements that run while the collection's mutex is held. *)
Definition Write_held (d : Driver) (fs : os.FS) (collection resource : string)
  (v : value) : os.FS * option error :=
  let dir := filepath.Join [d.(dir); collection] in
  let fnlPath := filepath.Join [dir; resource +:+ ".json"] in
  let tmpPath := fnlPath +:+ ".tmp" in
  match os.MkdirAll fs dir with
  | (fs, Some err) => (fs, Some err)
  | (fs, None) =>
      match json.MarshalIndent v "" (str TAB) with
      | (_, Some err) => (fs, Some err)
      | (b, None) =>
          let b := b +:+ str LF in
          match os.WriteFile fs tmpPath b with
          | (fs, Some err) => (fs, Some err)
          | (fs, None) =>
              match os.Rename fs tmpPath fnlPath with
              | (fs, Some err) => (fs, Some err)
              | (fs, None) => (fs, None)
              end
          end
      end
  end.

Definition Delete_held (d : Driver) (fs : os.FS) (path : string)
  : os.FS * option error :=
  let dir := filepath.Join [d.(dir); path] in
  match stat fs dir with
  | (None, _) | (_, Some _) =>
      (fs, Some (Errorf ("unable to find file or directory named " +:+ path
                         +:+ str LF)))
  | (Some fi, None) =>
      if os.IsDir (os.Mode fi) then os.RemoveAll fs dir
      else if os.IsRegular (os.Mode fi) then os.RemoveAll fs (dir +:+ ".json")
      else (fs, None)
  end.

(** [Write] and [Delete] with their locks. *)
Definition Write_locked (d : Driver) (l : Locks) (fs : os.FS)
  (collection resource : string) (v : value)
  : sync.outcome (Locks * (os.FS * option error)) :=
  if decide (collection = "") then
    mret (l, (fs, Some (Errorf "Missing collection - no place to save record!")))
  else if decide (resource = "") then
    mret (l, (fs, Some (Errorf "Missing resource - unable to save record (no name)!")))
  else
    '(m, l) ← getOrCreateMutex l collection;
    l ← lock l m;
    let result := Write_held d fs collection resource v in
    l ← unlock l m;                                   (* deferred *)
    mret (l, result).

Definition Delete_locked (d : Driver) (l : Locks) (fs : os.FS)
  (collection resource : string)
  : sync.outcome (Locks * (os.FS * option error)) :=
  let path := filepath.Join [collection; resource] in
  '(m, l) ← getOrCreateMutex l collection;
  l ← lock l m;
  let result := Delete_held d fs path in
  l ← unlock l m;                                     (* deferred *)
  mret (l, result).

(** ** The error classes of the specification

    The driver has no error types of its own.  An argument error is one of
    the three messages of its validation; "not found" is what the driver
    itself tests with [os.IsNotExist], or the message of [Delete]. *)

Definition InvalidArgument (e : error) : Prop :=
  e = Errorf "Missing collection - no place to save record!"
  \/ e = Errorf "Missing resource - unable to save record (no name)!"
  \/ e = Errorf "Missing collection - unable to read".

Definition NotFound (e : error) : Prop :=
  os.IsNotExist (Some e) = true
  \/ exists path,
      e = Errorf ("unable to find file or directory named " +:+ path
                  +:+ str LF).

(** ** Example states *)

Definition empty_fs : os.FS := {| os.cwd := []; os.tree := os.Dir ∅ |}.

Definition Address (City State Country Pincode : string) : value :=
  VStruct [("City", VString City); ("State", VString State);
           ("Country", VString Country); ("Pincode", VString Pincode)].

Definition User (Name Age Contact Company : string) (Addr : value) : value :=
  VStruct [("Name", VString Name); ("Age", VNumber Age);
           ("Contact", VString Contact); ("Company", VString Company);
           ("Address", Addr)].

Definition zoro : value :=
  User "Zoro" "23" "9234923492" "Asura Tech"
       (Address "Shimotsuki Village" "East Blue" "Mars" "008").

Definition sabo : value :=
  User "Sabo" "23" "9234923492" "Agni Tech"
       (Address "Baltigo" "Grand Line" "Equador" "008").

(** A driver on the directory [db] of the working directory, and the empty
    database: what [New "./db"] gives on an empty disk. *)
Definition db : Driver := {| dir := "db" |}.

Definition fs_db : os.FS :=
  {| os.cwd := []; os.tree := os.Dir {[ "db" := os.Dir ∅ ]} |}.

(** The database after one record has been written. *)
Definition fs_zoro : os.FS := (Write db fs_db "users" "Zoro" zoro).1.

(** The database holding one record that is a JSON string. *)
Definition fs_hi : os.FS := (Write db fs_db "users" "s" (VString "hi")).1.

(** A collection [users/s] beside the record [s] of the collection
    [users]: the directory [db/users/s] and the file [db/users/s.json]. *)
Definition fs_shadow : os.FS :=
  (Write db (Write db fs_db "users/s" "x" zoro).1 "users" "s"
         (VString "hi")).1.

(** A collection [users/archive] inside the collection [users]. *)
Definition fs_nested : os.FS :=
  (Write db fs_zoro "users/archive" "Kuma" zoro).1.

(** A collection of two small files. *)
Definition two_files : gmap string os.node :=
  {[ "a.json" := os.File "1"; "b.json" := os.File "2" ]}.

Definition fs_two : os.FS :=
  {| os.cwd := [];
     os.tree := os.Dir {[ "db" := os.Dir {[ "users" := os.Dir two_files ]} ]} |}.

(** A file [s.json] in the database directory and one beside that
    directory. *)
Definition fs_split : os.FS :=
  {| os.cwd := [];
     os.tree :=
       os.Dir {[ "db" := os.Dir {[ "s.json" := os.File "1" ]};
                 "s.json" := os.File (json.quote "hi") ]} |}.

(** The demonstration of [main]: the store opened on ["./"], the directory
    that holds the program's own source file. *)
Definition repo : Driver := {| dir := "." |}.

Definition fs_repo : os.FS :=
  {| os.cwd := ["repo"];
     os.tree :=
       os.Dir {[ "repo" := os.Dir {[ "main.go" := os.File "package main" ]} ]} |}.

(** A name a directory entry can have: one path element that [Clean] and the
    kernel take as it is. *)
Definition valid_name (x : string) : Prop :=
  filepath.split x = [x] /\ x <> "" /\ x <> "." /\ x <> "..".

Global Instance valid_name_dec x : Decision (valid_name x).
Proof. unfold valid_name. apply _. Defined.

(** The content of the regular file at [p], if there is one. *)
Definition file_at (t : os.node) (p : list string) : option string :=
  match os.walk t p with
  | inr (os.File data) => Some data
  | _ => None
  end.

(** Where the kernel starts walking a path: [/] for a rooted path, the
    working directory otherwise (innermost name first). *)
Definition start (cwd : list string) (r : bool) : list string :=
  if r then [] else reverse cwd.

(** What [Clean]'s loop keeps true: the elements kept are names, and a
    rooted path keeps no leading [..]. *)
Definition clean_inv (r : bool) (st : nat * list string) : Prop :=
  Forall valid_name st.2 /\ (r = true -> st.1 = 0).

(** The three paths of [Write]. *)
Definition dirPath (d : Driver) (collection : string) : string :=
  filepath.Join [d.(dir); collection].
Definition fnlPath (d : Driver) (collection resource : string) : string :=
  filepath.Join [dirPath d collection; resource +:+ ".json"].
Definition tmpPath (d : Driver) (collection resource : string) : string :=
  fnlPath d collection resource +:+ ".tmp".

(** The path [Read] looks up. *)
Definition recordPath (d : Driver) (collection resource : string) : string :=
  filepath.Join [d.(dir); collection; resource].

(** ** Directories as maps

    The entries of the directory at [path]; none when there is no directory
    at that path. *)
Definition entries (fs : os.FS) (path : string) : gmap string os.node :=
  match os.walk (os.tree fs) (os.resolve (os.cwd fs) path) with
  | inr (os.Dir m) => m
  | _ => ∅
  end.

(** The entries of the collection [c] in a database directory with the
    entries [R]; none when the collection has no directory yet. *)
Definition collection_of (R : gmap string os.node) (c : string)
  : gmap string os.node :=
  match R !! c with
  | Some (os.Dir m) => m
  | _ => ∅
  end.

(** A collection directory [m] after the record [r] has been stored with the
    bytes [data]: the record file is bound, the temporary name is free. *)
Definition stored (m : gmap string os.node) (r data : string)
  : gmap string os.node :=
  <[r +:+ ".json" := os.File data]> (delete ((r +:+ ".json") +:+ ".tmp") m).

(** A database directory [R] after the record [r] of the collection [c] has
    been stored. *)
Definition written (R : gmap string os.node) (c r data : string)
  : gmap string os.node :=
  <[c := os.Dir (stored (collection_of R c) r data)]> R.

(** Nothing in the database directory [R] stands in the way of storing the
    record [r] of the collection [c]: no regular file has the collection's
    name, no directory has the record's final or temporary name. *)
Definition writable (R : gmap string os.node) (c r : string) : Prop :=
  (forall data, R !! c <> Some (os.File data))
  /\ (forall m', collection_of R c !! (r +:+ ".json") <> Some (os.Dir m'))
  /\ (forall m', collection_of R c !! ((r +:+ ".json") +:+ ".tmp")
                 <> Some (os.Dir m')).

(** What the lock registry keeps true: every pointer in the map is the
    address of a mutex, and no two names share one. *)
Definition registry_ok (l : Locks) : Prop :=
  (forall c m, mutexes l !! c = Some m -> m < length (heap l))
  /\ (forall c1 c2 m, mutexes l !! c1 = Some m -> mutexes l !! c2 = Some m ->
                      c1 = c2).

(** ** More example states *)

(** A regular file where the database directory should be. *)
Definition fs_file : os.FS :=
  {| os.cwd := []; os.tree := os.Dir {[ "db" := os.File "not a directory" ]} |}.

(** A directory that has the name of a record file. *)
Definition fs_dir_json : os.FS :=
  {| os.cwd := [];
     os.tree :=
       os.Dir {[ "db" := os.Dir {[ "users" := os.Dir {[ "x.json" := os.Dir ∅ ]} ]} ]} |}.

(** The registry after the first operation on the collection [users], with
    that collection's mutex free and held. *)
Definition locks_users : Locks :=
  {| mutex := sync.Unlocked; mutexes := {[ "users" := 0 ]};
     heap := [sync.Unlocked] |}.


(** ** The record text, as the decoder reads it

    What the statements about the text of a stored record are made of: the
    tree the decoder gives back, the trees the encoder can produce, and the
    stages of the number scanner. *)

(** The string with every byte that is not part of a well-formed UTF-8
    sequence replaced by U+FFFD. *)
Fixpoint coerce (copy : nat) (s : string) {struct s} : string :=
  match s with
  | EmptyString => ""
  | String a r =>
      match copy with
      | S k => String a (coerce k r)
      | O =>
          if json.between 0 0x7F a then String a (coerce 0 r)
          else
            match json.utf8_size s with
            | None => json.RuneError +:+ coerce 0 r
            | Some n => String a (coerce (n - 1) r)
            end
      end
  end.

(** The first [copy] bytes of [s] are not ASCII. *)
Fixpoint raw_ok (copy : nat) (s : string) : Prop :=
  match copy, s with
  | S k, String a r => json.between 0 0x7F a = false /\ raw_ok k r
  | _, _ => True
  end.

Section text.
Import json.

(** The second byte of a multi-byte sequence led by [a]. *)
Definition second_of (a : ascii) : ascii -> bool :=
  if bool_decide (byte a = 0xE0)%N then between 0xA0 0xBF
  else if bool_decide (byte a = 0xED)%N then between 0x80 0x9F
  else if bool_decide (byte a = 0xF0)%N then between 0x90 0xBF
  else if bool_decide (byte a = 0xF4)%N then between 0x80 0x8F
  else between 0x80 0xBF.

(** The stages of [scan_number]. *)
Definition scan_sign (s : string) : string * string :=
  match s with
  | String a r => if decide (a = "-"%char) then ("-", r) else ("", s)
  | EmptyString => ("", s)
  end.

Definition scan_int (s1 : string) : option (string * string) :=
  match s1 with
  | String a r =>
      if decide (a = "0"%char) then Some ("0", r)
      else if digit a then Some (digits s1) else None
  | EmptyString => None
  end.

Definition scan_frac (s2 : string) : option (string * string) :=
  match s2 with
  | String a r =>
      if decide (a = "."%char) then
        match digits r with
        | ("", _) => None
        | (ds, rest) => Some ("." +:+ ds, rest)
        end
      else Some ("", s2)
  | EmptyString => Some ("", s2)
  end.

Definition scan_exp (s3 : string) : option (string * string) :=
  match s3 with
  | String e r =>
      if bool_decide (e = "e"%char \/ e = "E"%char) then
        let '(sg, r1) :=
          match r with
          | String g r0 =>
              if bool_decide (g = "+"%char \/ g = "-"%char)
              then (str g, r0) else ("", r)
          | EmptyString => ("", r)
          end in
        match digits r1 with
        | ("", _) => None
        | (ds, rest) => Some (str e +:+ sg +:+ ds, rest)
        end
      else Some ("", s3)
  | EmptyString => Some ("", s3)
  end.

End text.

(** What can follow a value in the encoder's output: the end of the text, a
    comma, or a line feed. *)
Definition ends_value (rest : string) : Prop :=
  match rest with
  | EmptyString => True
  | String a _ => a = ","%char \/ a = LF
  end.

(** The tree the decoder reads back from the encoder's text: every string
    coerced to valid UTF-8. *)
Fixpoint reread (j : json.tree) : json.tree :=
  match j with
  | json.JString s => json.JString (coerce 0 s)
  | json.JArray elems => json.JArray (map reread elems)
  | json.JObject members =>
      json.JObject (map (fun m => (coerce 0 (fst m), reread (snd m))) members)
  | _ => j
  end.

(** Every number of the tree is a JSON number literal. *)
Fixpoint numbers_valid (j : json.tree) : bool :=
  match j with
  | json.JNumber lit => json.isValidNumber lit
  | json.JArray elems => forallb numbers_valid elems
  | json.JObject members => forallb (fun m => numbers_valid (snd m)) members
  | _ => true
  end.

(** The calls the decoder needs for a tree. *)
Fixpoint weight (j : json.tree) : nat :=
  match j with
  | json.JArray elems => S (list_sum (map (fun e => S (weight e)) elems))
  | json.JObject members =>
      S (list_sum (map (fun m => S (weight (snd m))) members))
  | _ => 1
  end.

(** Strings of ASCII bytes only, and trees of such strings. *)
Fixpoint ascii_string (s : string) : bool :=
  match s with
  | EmptyString => true
  | String a r => json.between 0 0x7F a && ascii_string r
  end.

Fixpoint ascii_tree (j : json.tree) : bool :=
  match j with
  | json.JString s => ascii_string s
  | json.JArray elems => forallb ascii_tree elems
  | json.JObject members =>
      forallb (fun m => ascii_string (fst m) && ascii_tree (snd m)) members
  | _ => true
  end.

Section fuel.
Import json.

(** The decoder reads the text of [j] back, at any depth of indentation and
    whatever follows it, given the calls the tree needs. *)
Definition parses (j : tree) : Prop :=
  forall d fuel rest,
    weight j <= fuel -> ends_value rest ->
    parse_value fuel (print "" (str TAB) d j +:+ rest) = Some (reread j, rest).

End fuel.

(** * Paths *)

Section split.
Import filepath.

Lemma split_not_nil s : split s <> [].
Proof.
  destruct s as [|a s]; simpl; [done|].
  destruct (is_sep a); [done|]. by destruct (split s).
Qed.

Lemma split_snoc s : exists l x, split s = l ++ [x].
Proof.
  destruct (split s) as [|y l] eqn:E using rev_ind.
  - by apply split_not_nil in E.
  - eauto.
Qed.

(** Splitting at a separator splits the list of elements. *)
Lemma split_app_sep a b : split (a +:+ String Separator b) = split a ++ split b.
Proof.
  induction a as [|c a IH]; simpl; [done|].
  destruct (is_sep c); [by rewrite IH|].
  rewrite IH. destruct (split a) eqn:E; [by apply split_not_nil in E|done].
Qed.

(** Appending text without a separator extends the last element. *)
Lemma split_app_free a b l x :
  split b = [b] -> split a = l ++ [x] -> split (a +:+ b) = l ++ [x +:+ b].
Proof.
  intros Hb. revert l x. induction a as [|c a IH]; intros l x; simpl.
  - intros E. destruct l as [|? [|]]; simplify_eq/=. done.
  - destruct (is_sep c).
    + destruct l as [|y l]; simpl; intros E.
      * injection E as _ E. by apply split_not_nil in E.
      * injection E as <- E. by rewrite (IH _ _ E).
    + destruct (split_snoc a) as (l' & x' & E'). rewrite E', (IH _ _ E').
      destruct l' as [|y' l']; simpl; intros E.
      * destruct l as [|? [|]]; simplify_eq/=. done.
      * destruct l as [|y l]; simpl in *.
        { destruct l'; simplify_eq/=. }
        injection E as <- E. apply app_inj_tail in E as [-> ->]. done.
  Qed.

Lemma split_free_no_sep a s : split (String a s) = [String a s] -> is_sep a = false.
Proof.
  simpl. destruct (is_sep a); [|done].
  intros E. injection E as E. discriminate.
Qed.

Lemma split_free_tail a s : split (String a s) = [String a s] -> split s = [s].
Proof.
  simpl. destruct (is_sep a); [intros E; injection E as E; discriminate|].
  destruct (split s) as [|x [|]] eqn:E; intros E'.
  - by apply split_not_nil in E.
  - by simplify_eq/=.
  - simplify_eq/=.
Qed.

Lemma split_free_app a b : split a = [a] -> split b = [b] -> split (a +:+ b) = [a +:+ b].
Proof. intros Ha Hb. by rewrite (split_app_free a b [] a). Qed.

(** The elements of a path hold no separator. *)
Lemma split_elems_free s : Forall (fun x => split x = [x]) (split s).
Proof.
  induction s as [|a s IH]; simpl.
  - by constructor.
  - destruct (is_sep a) eqn:Ea.
    + by constructor.
    + destruct (split s) as [|x l].
      { constructor; [|done]. simpl. by rewrite Ea. }
      inversion_clear IH as [|?? Hx Hl]. constructor; [|done].
      simpl. by rewrite Ea, Hx.
Qed.

Lemma split_concat l :
  l <> [] -> Forall (fun x => split x = [x]) l -> split (String.concat "/" l) = l.
Proof.
  induction l as [|x [|y l] IH]; intros Hnil Hl; [done| |].
  - simpl. by inversion_clear Hl.
  - inversion_clear Hl as [|?? Hx Hl'].
    change (String.concat "/" (x :: y :: l))
      with (x +:+ String Separator (String.concat "/" (y :: l))).
    rewrite split_app_sep, Hx, IH; done.
Qed.

(** The elements of the text [Join] hands to [Clean]. *)
Lemma split_concat_elems a l :
  split (String.concat "/" (a :: l)) = split a ++ flat_map split l.
Proof.
  revert a. induction l as [|b l IH]; intros a.
  - simpl. by rewrite app_nil_r.
  - change (String.concat "/" (a :: b :: l))
      with (a +:+ String Separator (String.concat "/" (b :: l))).
    by rewrite split_app_sep, IH.
Qed.

Lemma rooted_app a b : a <> "" -> rooted (a +:+ b) = rooted a.
Proof. by destruct a. Qed.

Lemma rooted_concat a l : a <> "" -> rooted (String.concat "/" (a :: l)) = rooted a.
Proof. intros Ha. destruct l; [done|]. by apply rooted_app. Qed.

Lemma rooted_free x : split x = [x] -> rooted x = false.
Proof. destruct x as [|a x]; [done|]. apply split_free_no_sep. Qed.

End split.

Section clean.
Import filepath os.

Lemma valid_name_free x : valid_name x -> split x = [x].
Proof. by intros [? _]. Qed.

Lemma walk_step_valid acc x : valid_name x -> walk_step acc x = x :: acc.
Proof.
  intros (_ & ? & ? & ?). unfold walk_step. by repeat case_decide.
Qed.

Lemma foldl_walk_valid acc l :
  Forall valid_name l -> foldl walk_step acc l = reverse l ++ acc.
Proof.
  revert acc. induction l as [|x l IH]; intros acc Hl; [done|].
  inversion_clear Hl. simpl. rewrite walk_step_valid, IH by done.
  by rewrite reverse_cons, <- app_assoc.
Qed.

Lemma tail_drop {A} n (l : list A) : tail (drop n l) = drop (S n) l.
Proof.
  revert l. induction n as [|n IH]; intros [|x l]; simpl; done.
Qed.

Lemma foldl_walk_ups acc n : foldl walk_step acc (replicate n "..") = drop n acc.
Proof.
  revert acc. induction n as [|n IH]; intros acc; simpl; [done|].
  rewrite IH. change (walk_step acc "..") with (tail acc).
  by destruct acc; simpl; rewrite ?drop_nil.
Qed.

Lemma clean_step_inv r st x :
  split x = [x] -> clean_inv r st -> clean_inv r (clean_step r st x).
Proof.
  destruct st as [ups stack]. intros Hx [Hst Hr]. unfold clean_step.
  repeat case_decide; try done.
  - destruct stack as [|y stack]; [destruct r|]; simpl in *.
    + done.
    + split; [done|]. done.
    + split; [by inversion_clear Hst|done].
  - split; [|done]. simpl. by constructor.
Qed.

Lemma clean_fold_inv r st l :
  Forall (fun x => split x = [x]) l -> clean_inv r st ->
  clean_inv r (foldl (clean_step r) st l).
Proof.
  revert st. induction l as [|x l IH]; intros st Hl Hst; [done|].
  inversion_clear Hl. simpl. apply IH; [done|]. by apply clean_step_inv.
Qed.

Lemma clean_state_inv s : clean_inv (rooted s) (clean_state s).
Proof.
  apply clean_fold_inv; [apply split_elems_free|]. by split.
Qed.

(** [Clean]'s loop and the kernel's walk agree element by element. *)
Lemma clean_walk cwd r st l :
  (r = true -> st.1 = 0) ->
  foldl walk_step (st.2 ++ drop st.1 (start cwd r)) l
  = (foldl (clean_step r) st l).2
    ++ drop (foldl (clean_step r) st l).1 (start cwd r).
Proof.
  revert st. induction l as [|x l IH]; intros [ups stack] Hr; [done|].
  simpl foldl. rewrite <- IH.
  2:{ unfold clean_step. repeat case_decide; try done.
      destruct stack; [destruct r|]; simpl in *; done. }
  f_equal. unfold walk_step, clean_step. simpl in Hr.
  repeat case_decide; try done.
  destruct stack as [|y stack]; simpl; [|done].
  destruct r; simpl.
  - by rewrite drop_nil.
  - by rewrite tail_drop.
Qed.

Lemma elems_head ups stack e es :
  Forall valid_name stack -> replicate ups ".." ++ reverse stack = e :: es ->
  split e = [e] /\ e <> "".
Proof.
  intros Hst E. destruct ups as [|ups]; simpl in E.
  - assert (e ∈ stack) as Hin.
    { apply elem_of_reverse. rewrite E. by left. }
    rewrite Forall_forall in Hst. by destruct (Hst _ Hin) as (? & ? & _).
  - by simplify_eq/=.
Qed.

Lemma render_rooted r ups stack :
  Forall valid_name stack -> rooted (render r (ups, stack)) = r.
Proof.
  intros Hst. unfold render. destruct r; [done|].
  destruct (replicate ups ".." ++ reverse stack) as [|e es] eqn:E; [done|].
  destruct (elems_head _ _ _ _ Hst E) as [He ?].
  rewrite rooted_concat by done. by apply rooted_free.
Qed.

(** The kernel resolves what [Clean] writes to the place its state says. *)
Lemma resolve_render cwd r ups stack :
  Forall valid_name stack -> (r = true -> ups = 0) ->
  resolve cwd (render r (ups, stack))
  = reverse (stack ++ drop ups (start cwd r)).
Proof.
  intros Hst Hr. unfold resolve. rewrite render_rooted by done. f_equal.
  fold (start cwd r). unfold render.
  set (elems := replicate ups ".." ++ reverse stack).
  assert (Forall (fun x => split x = [x]) elems) as Hfree.
  { apply Forall_app. split.
    - by apply Forall_replicate.
    - apply Forall_reverse. eapply Forall_impl; [done|]. apply valid_name_free. }
  assert (foldl walk_step (start cwd r) elems
          = stack ++ drop ups (start cwd r)) as Hwalk.
  { unfold elems. rewrite foldl_app, foldl_walk_ups.
    rewrite foldl_walk_valid by by apply Forall_reverse.
    by rewrite reverse_involutive. }
  destruct r.
  - change ("/" +:+ String.concat "/" elems)
      with ("" +:+ String Separator (String.concat "/" elems)).
    rewrite split_app_sep. simpl split at 1. simpl foldl.
    change (walk_step (start cwd true) "") with (start cwd true).
    destruct elems as [|e es] eqn:E.
    + rewrite <- Hwalk. done.
    + by rewrite split_concat.
  - destruct elems as [|e es] eqn:E.
    + rewrite <- Hwalk. done.
    + rewrite split_concat by done. done.
Qed.

Lemma resolve_walk cwd s :
  resolve cwd s
  = reverse ((clean_state s).2 ++ drop (clean_state s).1 (start cwd (rooted s))).
Proof.
  unfold resolve, clean_state. fold (start cwd (rooted s)). f_equal.
  by rewrite <- (clean_walk cwd (rooted s) (0, [])).
Qed.

Lemma Clean_render s : s <> "" -> Clean s = render (rooted s) (clean_state s).
Proof. intros. unfold Clean. by case_decide. Qed.

(** Cleaning a path does not change the place it names. *)
Lemma resolve_Clean cwd s : resolve cwd (Clean s) = resolve cwd s.
Proof.
  destruct (decide (s = "")) as [->|Hs]; [done|].
  rewrite Clean_render by done.
  destruct (clean_state s) as [ups stack] eqn:E.
  pose proof (clean_state_inv s) as [Hst Hr]. rewrite E in Hst, Hr.
  rewrite resolve_render by done. by rewrite resolve_walk, E.
Qed.

Lemma app_cons_s x (a b : string) : String x a +:+ b = String x (a +:+ b).
Proof. reflexivity. Qed.

Lemma app_assoc_s (a b c : string) : (a +:+ b) +:+ c = a +:+ (b +:+ c).
Proof. induction a as [|x a IH]; [done|]. by rewrite !app_cons_s, IH. Qed.

Lemma Clean_not_empty s : Clean s <> "".
Proof.
  unfold Clean. case_decide; [done|].
  pose proof (clean_state_inv s) as [Hst _].
  destruct (clean_state s) as [ups stack]. unfold render.
  destruct (rooted s); [done|].
  destruct (replicate ups ".." ++ reverse stack) as [|e es] eqn:E; [done|].
  destruct (elems_head _ _ _ _ Hst E) as [_ He].
  destruct es; [done|]. by destruct e.
Qed.

Lemma concat_snoc_ext l x ext :
  String.concat "/" (l ++ [x]) +:+ ext = String.concat "/" (l ++ [x +:+ ext]).
Proof.
  induction l as [|y l IH]; [done|].
  destruct l as [|z l].
  - simpl. by rewrite !app_assoc_s.
  - change (String.concat "/" ((y :: z :: l) ++ [x]))
      with (y +:+ "/" +:+ String.concat "/" ((z :: l) ++ [x])).
    change (String.concat "/" ((y :: z :: l) ++ [x +:+ ext]))
      with (y +:+ "/" +:+ String.concat "/" ((z :: l) ++ [x +:+ ext])).
    by rewrite <- IH, !app_assoc_s.
Qed.

(** Appending to a path that ends in a name appends to that name. *)
Lemma render_ext r ups x stack ext :
  render r (ups, x :: stack) +:+ ext = render r (ups, (x +:+ ext) :: stack).
Proof.
  unfold render. rewrite !reverse_cons, !(assoc_L (++)).
  set (l := replicate ups ".." ++ reverse stack).
  destruct r.
  - by rewrite app_assoc_s, concat_snoc_ext.
  - rewrite <- concat_snoc_ext. by destruct l.
Qed.

Lemma valid_name_ext x ext :
  valid_name x -> split ext = [ext] -> ext <> "" -> valid_name (x +:+ ext).
Proof.
  intros (Hx & Hne & Hd & Hdd) He Hext. split; [by apply split_free_app|].
  destruct x as [|a [|b x]]; [done| |].
  - destruct ext as [|c [|d ext]]; [done| |];
      repeat split; intros E; rewrite ?app_cons_s in E; by simplify_eq/=.
  - repeat split; intros E; rewrite ?app_cons_s in E; simplify_eq/=.
    by destruct x.
Qed.

(** [Clean s +:+ ext], the path the driver builds for the stored form of a
    name: when [Clean s] ends in a name, the same place with [ext] added to
    that name. *)
Lemma resolve_Clean_ext cwd s ext ups x stack :
  s <> "" -> split ext = [ext] -> ext <> "" ->
  clean_state s = (ups, x :: stack) ->
  let parent := reverse (stack ++ drop ups (start cwd (rooted s))) in
  valid_name x
  /\ resolve cwd (Clean s) = parent ++ [x]
  /\ resolve cwd (Clean s +:+ ext) = parent ++ [x +:+ ext].
Proof.
  intros Hs He Hext E parent.
  pose proof (clean_state_inv s) as [Hst Hr]. rewrite E in Hst, Hr.
  simpl in Hst, Hr. inversion Hst as [|?? Hx Hst']; subst.
  rewrite Clean_render, E by done. split; [done|].
  rewrite render_ext, !resolve_render; try done.
  - unfold parent. by rewrite !reverse_app, !reverse_cons, !(assoc_L (++)).
  - constructor; [|done]. by apply valid_name_ext.
Qed.

Lemma valid_name_dot_ext ext : valid_name ext -> valid_name ("." +:+ ext).
Proof.
  intros (He & Hne & Hd & Hdd). split; [by apply split_free_app|].
  rewrite app_cons_s. repeat split; intros E; simplify_eq/=.
Qed.

Lemma valid_name_dotdot_ext ext : valid_name ext -> valid_name (".." +:+ ext).
Proof.
  intros (He & Hne & Hd & Hdd). split; [by apply split_free_app|].
  rewrite !app_cons_s. repeat split; intros E; simplify_eq/=.
Qed.

(** When [Clean s] ends in no name (it is [/], [.] or a row of [..]), the
    text [Clean s +:+ ext] names something below the place of [Clean s]. *)
Lemma resolve_Clean_ext_nil cwd s ext ups :
  s <> "" -> valid_name ext -> clean_state s = (ups, []) ->
  exists l, l <> [] /\ resolve cwd (Clean s +:+ ext) = resolve cwd (Clean s) ++ l.
Proof.
  intros Hs Hext E.
  pose proof (clean_state_inv s) as [_ Hr]. rewrite E in Hr. simpl in Hr.
  rewrite Clean_render, E by done.
  destruct (rooted s) eqn:Er.
  - rewrite Hr by done. exists [ext]. split; [done|].
    change (render true (0, []) +:+ ext) with (render true (0, [ext])).
    rewrite !resolve_render; try done. by constructor.
  - destruct ups as [|k].
    + exists ["." +:+ ext]. split; [done|].
      change (render false (0, []) +:+ ext)
        with (render false (0, ["." +:+ ext])).
      rewrite !resolve_render; try done.
      * cbn [app]. by rewrite reverse_cons.
      * constructor; [|done]. by apply valid_name_dot_ext.
    + assert (render false (S k, []) +:+ ext
              = render false (k, [".." +:+ ext])) as ->.
      { unfold render. rewrite app_nil_r. change (reverse [".." +:+ ext])
          with [".." +:+ ext]. rewrite <- concat_snoc_ext.
        rewrite replicate_S_end. by destruct (replicate k ".."). }
      rewrite !resolve_render; try done.
      2:{ constructor; [|done]. by apply valid_name_dotdot_ext. }
      cbn [app]. rewrite <- tail_drop.
      destruct (drop k (start cwd false)) as [|y D].
      * by exists [".." +:+ ext].
      * exists [y; ".." +:+ ext]. split; [done|]. simpl tail.
        by rewrite !reverse_cons, <- !(assoc_L (++)).
Qed.

Lemma resolve_ext_cases cwd s ext :
  s <> "" -> valid_name ext ->
  (exists parent x, valid_name x
     /\ resolve cwd (Clean s) = parent ++ [x]
     /\ resolve cwd (Clean s +:+ ext) = parent ++ [x +:+ ext])
  \/ (exists l, l <> []
     /\ resolve cwd (Clean s +:+ ext) = resolve cwd (Clean s) ++ l).
Proof.
  intros Hs Hext. destruct (clean_state s) as [ups [|x stack]] eqn:E.
  - right. by eapply resolve_Clean_ext_nil.
  - left. destruct Hext as (? & ? & _).
    destruct (resolve_Clean_ext cwd s ext ups x stack) as (? & ? & ?); eauto.
Qed.

Lemma length_app_s (a b : string) :
  String.length (a +:+ b) = String.length a + String.length b.
Proof.
  induction a as [|x a IH]; [done|]. rewrite app_cons_s. simpl. by rewrite IH.
Qed.

Lemma concat_not_empty a l : a <> "" -> String.concat "/" (a :: l) <> "".
Proof. destruct a; [done|]. by destruct l. Qed.

Lemma Join_cons a l :
  a <> "" -> Join (a :: l) = Clean (String.concat "/" (a :: l)).
Proof. intros. simpl. by case_decide. Qed.

(** With one element that is not empty, [Join] is [Clean] of a text that is
    not empty. *)
Lemma Join_is_Clean elems :
  Exists (fun e => e <> "") elems -> exists s, s <> "" /\ Join elems = Clean s.
Proof.
  induction elems as [|e rest IH]; intros Hex; [by inversion Hex|].
  destruct (decide (e = "")) as [->|He].
  - inversion_clear Hex; [done|]. simpl. by apply IH.
  - exists (String.concat "/" (e :: rest)).
    split; [by apply concat_not_empty|by apply Join_cons].
Qed.

Lemma Join_not_empty elems : Exists (fun e => e <> "") elems -> Join elems <> "".
Proof.
  intros (s & _ & ->)%Join_is_Clean. apply Clean_not_empty.
Qed.

Lemma flat_map_split_valid l : Forall valid_name l -> flat_map split l = l.
Proof.
  induction 1 as [|x l [Hx _] _ IH]; [done|]. simpl. by rewrite Hx, IH.
Qed.

Lemma resolve_empty cwd : resolve cwd "" = cwd.
Proof. unfold resolve. simpl. apply reverse_involutive. Qed.

(** Joining names to a path walks down from the place of that path. *)
Lemma resolve_Join_valid cwd a l :
  Forall valid_name l -> resolve cwd (Join (a :: l)) = resolve cwd a ++ l.
Proof.
  intros Hl. destruct (decide (a = "")) as [->|Ha].
  - rewrite resolve_empty. destruct Hl as [|x l Hx Hl].
    { simpl. by rewrite resolve_empty, app_nil_r. }
    assert (x <> "") by by destruct Hx as (_ & ? & _).
    change (Join ("" :: x :: l)) with (Join (x :: l)).
    rewrite Join_cons, resolve_Clean by done. unfold resolve.
    rewrite rooted_concat, (rooted_free x) by (done || by destruct Hx).
    rewrite split_concat; [|done|].
    2:{ eapply Forall_impl; [by constructor|]. apply valid_name_free. }
    rewrite foldl_walk_valid by by constructor.
    by rewrite reverse_app, !reverse_involutive.
  - rewrite Join_cons, resolve_Clean by done. unfold resolve.
    rewrite rooted_concat, split_concat_elems by done.
    rewrite flat_map_split_valid, foldl_app, foldl_walk_valid by done.
    by rewrite reverse_app, reverse_involutive.
Qed.

(** [Join] of a collection name and a resource name, as [Delete] builds it. *)
Lemma Join_valid_empty c : valid_name c -> Join [c; ""] = c.
Proof.
  intros (Hc & Hne & Hd & Hdd). rewrite Join_cons by done. unfold Clean.
  case_decide as E; [by apply concat_not_empty in E|].
  unfold clean_state. rewrite rooted_concat, (rooted_free c) by done.
  rewrite split_concat_elems, Hc. simpl.
  unfold clean_step. by repeat case_decide.
Qed.

Lemma Join_valid_pair c r :
  valid_name c -> valid_name r -> Join [c; r] = c +:+ "/" +:+ r.
Proof.
  intros (Hc & Hne & Hd & Hdd) (Hr & Hrne & Hrd & Hrdd).
  rewrite Join_cons by done. unfold Clean.
  case_decide as E; [by apply concat_not_empty in E|].
  unfold clean_state. rewrite rooted_concat, (rooted_free c) by done.
  rewrite split_concat_elems, Hc. simpl. rewrite Hr. simpl.
  unfold clean_step. by repeat case_decide.
Qed.

Lemma Join_nested d c r :
  valid_name c -> valid_name r -> Join [d; Join [c; r]] = Join [d; c; r].
Proof.
  intros Hc Hr. rewrite (Join_valid_pair c r) by assumption.
  destruct Hc as (_ & Hc & _). simpl.
  destruct (decide (d = "")); [|done].
  destruct (decide (c = "")); [done|].
  destruct (decide (c +:+ "/" +:+ r = "")) as [E|]; [|done].
  by destruct c.
Qed.

(** The final path of [Write] ends in a name, and the temporary path is that
    name with [.tmp] added, in the same directory. *)
Lemma clean_state_final a r ext :
  a <> "" -> split ext = [ext] -> 2 < String.length ext ->
  exists ups stack x,
    clean_state (String.concat "/" [a; r +:+ ext]) = (ups, (x +:+ ext) :: stack).
Proof.
  intros Ha He Hlen. unfold clean_state.
  rewrite rooted_concat, split_concat_elems by done. simpl flat_map.
  rewrite app_nil_r. destruct (split_snoc r) as (l & x & Er).
  rewrite (split_app_free r ext l x), !(assoc_L (++)), foldl_app by done.
  destruct (foldl _ _ (split a ++ l)) as [ups stack]. exists ups, stack, x.
  simpl. unfold clean_step.
  assert (2 < String.length (x +:+ ext)) by (rewrite length_app_s; lia).
  repeat case_decide; try done; exfalso;
    match goal with E : x +:+ ext = _ |- _ => rewrite E in * end;
    simpl in *; lia.
Qed.

End clean.

(** * The tree *)

Section tree.
Import os.
Implicit Types (t n : node) (p q : list string).

Lemma walk_app t p q :
  walk t (p ++ q)
  = match walk t p with inr t' => walk t' q | inl e => inl e end.
Proof.
  revert t. induction p as [|x p IH]; intros t; [done|].
  simpl. destruct t as [|m]; [done|]. destruct (m !! x); [apply IH|done].
Qed.

(** The two ways a lookup fails. *)
Lemma walk_errno t p e : walk t p = inl e -> e = ENOENT \/ e = ENOTDIR.
Proof.
  revert t. induction p as [|x p IH]; intros t E; [done|].
  simpl in E. destruct t as [|m]; [simplify_eq; eauto|].
  destruct (m !! x); [eauto|simplify_eq; eauto].
Qed.

Lemma walk_File_cons data x p : walk (File data) (x :: p) = inl ENOTDIR.
Proof. done. Qed.

Lemma walk_empty_cons x p : walk (Dir ∅) (x :: p) = inl ENOENT.
Proof. simpl. by rewrite lookup_empty. Qed.

Lemma file_at_app t p q n : walk t p = inr n -> file_at t (p ++ q) = file_at n q.
Proof. intros E. unfold file_at. by rewrite walk_app, E. Qed.

(** *** [put_at] *)

Lemma walk_put_at t p n t' : put_at t p n = inr t' -> walk t' p = inr n.
Proof.
  revert t t'. induction p as [|x p IH]; intros t t' E; simpl in *.
  - by simplify_eq.
  - destruct t as [|m]; [done|].
    destruct (m !! x) as [t0|] eqn:Ex.
    + destruct (put_at t0 p n) as [|t1] eqn:E1; simplify_eq.
      rewrite lookup_insert_eq. by eapply IH.
    + destruct p; simplify_eq. by rewrite lookup_insert_eq.
Qed.

Lemma walk_put_at_other t p n t' q :
  put_at t p n = inr t' -> ~ p `prefix_of` q -> ~ q `prefix_of` p ->
  walk t' q = walk t q.
Proof.
  revert t t' q. induction p as [|x p IH]; intros t t' q E Hpq Hqp.
  { destruct Hpq. apply prefix_nil. }
  destruct q as [|y q]; [destruct Hqp; apply prefix_nil|].
  simpl in E. destruct t as [|m]; [done|].
  destruct (decide (x = y)) as [<-|Hxy].
  - assert (~ p `prefix_of` q) by (intros ?; by apply Hpq, prefix_cons).
    assert (~ q `prefix_of` p) by (intros ?; by apply Hqp, prefix_cons).
    destruct (m !! x) as [t0|] eqn:Ex.
    + destruct (put_at t0 p n) as [|t1] eqn:E1; simplify_eq.
      simpl. rewrite lookup_insert_eq, Ex. by eapply IH.
    + destruct p; simplify_eq. destruct Hpq. apply prefix_cons, prefix_nil.
  - assert (exists t1, t' = Dir (<[x:=t1]> m)) as [t1 ->].
    { destruct (m !! x); [destruct (put_at _ p n)|destruct p];
        simplify_eq; eauto. }
    simpl. by rewrite lookup_insert_ne.
Qed.

(** A successful [put_at] went through directories, and leaves them
    directories. *)
Lemma put_at_through t p q n t' :
  put_at t (p ++ q) n = inr t' -> q <> [] ->
  (exists m, walk t p = inr (Dir m)) /\ (exists m, walk t' p = inr (Dir m)).
Proof.
  revert t t'. induction p as [|x p IH]; intros t t' E Hq.
  - destruct q as [|y q]; [done|]. simpl in E. destruct t as [|m]; [done|].
    destruct (m !! y); [destruct (put_at _ q n)|destruct q];
      simplify_eq; eauto.
  - simpl in E. destruct t as [|m]; [done|]. simpl.
    destruct (m !! x) as [t0|] eqn:Ex.
    + destruct (put_at t0 (p ++ q) n) as [|t1] eqn:E1; simplify_eq.
      rewrite lookup_insert_eq. by eapply IH.
    + destruct p, q; simplify_eq.
Qed.

(** Writing a regular file where no directory was: every other place keeps
    the file it had, or keeps having none. *)
Lemma file_at_put_at t p data t' q :
  put_at t p (File data) = inr t' -> (forall m, walk t p <> inr (Dir m)) ->
  q <> p -> file_at t' q = file_at t q.
Proof.
  intros E Hp Hq.
  destruct (decide (p `prefix_of` q)) as [[r ->]|Hpq].
  { destruct r as [|y r]; [by rewrite app_nil_r in Hq|].
    unfold file_at. rewrite !walk_app, (walk_put_at _ _ _ _ E). simpl.
    destruct (walk t p) as [|[|m]] eqn:Ep; [done|done|by destruct (Hp m)]. }
  destruct (decide (q `prefix_of` p)) as [[r ->]|Hqp].
  { destruct r as [|y r]; [by rewrite app_nil_r in Hq|].
    destruct (put_at_through _ _ _ _ _ E) as [[m1 E1] [m2 E2]]; [done|].
    unfold file_at. by rewrite E1, E2. }
  unfold file_at. by rewrite (walk_put_at_other _ _ _ _ _ E).
Qed.

(** *** [mkdir_all] *)

Lemma file_at_mkdir_all t p t' q :
  mkdir_all t p = inr t' -> file_at t' q = file_at t q.
Proof.
  revert t t' q. induction p as [|x p IH]; intros t t' q E.
  { destruct t; by simplify_eq/=. }
  simpl in E. destruct t as [|m]; [done|].
  destruct (mkdir_all _ p) as [|t1] eqn:E1; simplify_eq.
  destruct q as [|y q]; [done|]. unfold file_at. simpl.
  destruct (decide (x = y)) as [<-|Hxy]; [|by rewrite lookup_insert_ne].
  rewrite lookup_insert_eq. specialize (IH _ _ q E1). unfold file_at in IH.
  rewrite IH. destruct (m !! x); simpl; [done|].
  destruct q; [done|]. by rewrite walk_empty_cons.
Qed.

Lemma walk_mkdir_all_other t p t' q :
  mkdir_all t p = inr t' -> ~ q `prefix_of` p -> walk t' q = walk t q.
Proof.
  revert t t' q. induction p as [|x p IH]; intros t t' q E Hqp.
  { destruct t; by simplify_eq/=. }
  simpl in E. destruct t as [|m]; [done|].
  destruct (mkdir_all _ p) as [|t1] eqn:E1; simplify_eq.
  destruct q as [|y q]; [destruct Hqp; apply prefix_nil|]. simpl.
  destruct (decide (x = y)) as [<-|Hxy]; [|by rewrite lookup_insert_ne].
  assert (~ q `prefix_of` p) by (intros ?; by apply Hqp, prefix_cons).
  rewrite lookup_insert_eq, (IH _ _ q E1) by done.
  destruct (m !! x); simpl; [done|].
  destruct q as [|z q]; [by destruct Hqp; apply prefix_cons, prefix_nil|].
  by rewrite walk_empty_cons.
Qed.

Lemma walk_mkdir_all t p t' :
  mkdir_all t p = inr t' -> exists m, walk t' p = inr (Dir m).
Proof.
  revert t t'. induction p as [|x p IH]; intros t t' E.
  { destruct t; simplify_eq/=. eauto. }
  simpl in E. destruct t as [|m]; [done|].
  destruct (mkdir_all _ p) as [|t1] eqn:E1; simplify_eq.
  simpl. rewrite lookup_insert_eq. by eapply IH.
Qed.

(** *** [remove_at] *)

Lemma walk_remove_at_other t p q :
  ~ p `prefix_of` q -> ~ q `prefix_of` p -> walk (remove_at t p) q = walk t q.
Proof.
  revert t q. induction p as [|x p IH]; intros t q Hpq Hqp.
  { destruct Hpq. apply prefix_nil. }
  destruct q as [|y q]; [destruct Hqp; apply prefix_nil|].
  destruct t as [|m]; [done|]. simpl.
  destruct p as [|x' p].
  - simpl. rewrite lookup_delete_ne; [done|].
    intros ->. apply Hpq, prefix_cons, prefix_nil.
  - destruct (m !! x) as [t0|] eqn:Ex; [|done]. simpl.
    destruct (decide (x = y)) as [<-|Hxy]; [|by rewrite lookup_insert_ne].
    rewrite lookup_insert_eq, Ex. apply IH.
    + intros ?. by apply Hpq, prefix_cons.
    + intros ?. by apply Hqp, prefix_cons.
Qed.

(** What is unlinked is gone, with all that was below it. *)
Lemma walk_remove_at t p q n :
  p <> [] -> walk t p = inr n -> walk (remove_at t p) (p ++ q) = inl ENOENT.
Proof.
  revert t. induction p as [|x p IH]; intros t Hp E; [done|].
  simpl in E. destruct t as [|m]; [done|].
  destruct (m !! x) as [t0|] eqn:Ex; [|done].
  destruct p as [|x' p]; simpl.
  - by rewrite lookup_delete_eq.
  - rewrite Ex. simpl. rewrite lookup_insert_eq. by apply IH.
Qed.

Lemma remove_at_cons2 m x y p :
  remove_at (Dir m) (x :: y :: p)
  = match m !! x with
    | Some t' => Dir (<[x := remove_at t' (y :: p)]> m)
    | None => Dir m
    end.
Proof. done. Qed.

(** The directories above it stay. *)
Lemma walk_remove_at_above t p q m :
  q <> [] -> walk t p = inr (Dir m) ->
  exists m', walk (remove_at t (p ++ q)) p = inr (Dir m').
Proof.
  revert t. induction p as [|x p IH]; intros t Hq E.
  - simpl in *. simplify_eq. destruct q as [|y [|y' q]]; [done|simpl; eauto|].
    rewrite remove_at_cons2. destruct (m !! y); eauto.
  - simpl in E. destruct t as [|m0]; [done|].
    destruct (m0 !! x) as [t0|] eqn:Ex; [|done].
    change ((x :: p) ++ q) with (x :: (p ++ q)).
    destruct (p ++ q) as [|z l] eqn:El; [by destruct p, q|].
    rewrite remove_at_cons2, Ex. cbn [walk].
    rewrite lookup_insert_eq. by apply IH.
Qed.

Lemma walk_found_through t p q n :
  walk t (p ++ q) = inr n -> q <> [] -> exists m, walk t p = inr (Dir m).
Proof.
  rewrite walk_app. destruct (walk t p) as [|[|m]]; [done| |by eauto].
  by destruct q.
Qed.

Lemma file_at_remove_at t p data q :
  walk t p = inr (File data) -> q <> p ->
  file_at (remove_at t p) q = file_at t q.
Proof.
  intros E Hq.
  destruct (decide (p = [])) as [->|Hp].
  { by simplify_eq/=. }
  destruct (decide (p `prefix_of` q)) as [[r ->]|Hpq].
  { destruct r as [|y r]; [by rewrite app_nil_r in Hq|].
    unfold file_at. rewrite (walk_remove_at _ _ _ _ Hp E).
    by rewrite walk_app, E. }
  destruct (decide (q `prefix_of` p)) as [[r ->]|Hqp].
  { destruct r as [|y r]; [by rewrite app_nil_r in Hq|].
    destruct (walk_found_through _ _ _ _ E) as [m Em]; [done|].
    destruct (walk_remove_at_above t q (y :: r) m) as [m' Em']; [done..|].
    unfold file_at. by rewrite Em, Em'. }
  unfold file_at. by rewrite walk_remove_at_other.
Qed.

End tree.

(** * The calls *)

Section calls.
Import os.
Implicit Types (fs : FS) (t n : node) (p q : list string).

Lemma set_tree_id fs : set_tree fs (tree fs) = fs.
Proof. by destruct fs. Qed.

Lemma MkdirAll_inv fs path fs' err :
  MkdirAll fs path = (fs', err) ->
  (err = None /\ path <> "" /\ cwd fs' = cwd fs
   /\ mkdir_all (tree fs) (resolve (cwd fs) path) = inr (tree fs'))
  \/ (exists e, err = Some e /\ fs' = fs).
Proof.
  unfold MkdirAll. case_decide; [intros; simplify_eq; eauto|].
  destruct (mkdir_all _ _) eqn:E; intros; simplify_eq; eauto.
Qed.

Lemma WriteFile_inv fs name data fs' err :
  WriteFile fs name data = (fs', err) ->
  (err = None /\ name <> "" /\ cwd fs' = cwd fs
   /\ put_at (tree fs) (resolve (cwd fs) name) (File data) = inr (tree fs')
   /\ forall m, walk (tree fs) (resolve (cwd fs) name) <> inr (Dir m))
  \/ (exists e, err = Some e /\ fs' = fs).
Proof.
  unfold WriteFile. case_decide; [intros; simplify_eq; eauto|].
  destruct (walk _ _) as [[]|[]] eqn:Ew;
    try (destruct (put_at _ _ _) eqn:Ep); intros; simplify_eq; eauto;
    left; by repeat split.
Qed.

Lemma Rename_inv fs oldpath newpath fs' err :
  Rename fs oldpath newpath = (fs', err) ->
  (err = None /\ oldpath <> "" /\ newpath <> ""
   /\ sys_rename fs (resolve (cwd fs) oldpath) (resolve (cwd fs) newpath)
      = inr fs')
  \/ (exists e, err = Some e /\ fs' = fs).
Proof.
  unfold Rename. case_decide as Hp; [intros; simplify_eq; eauto|].
  assert (oldpath <> "" /\ newpath <> "") as [??] by (split; intros ->; tauto).
  destruct (walk (tree fs) (resolve (cwd fs) newpath)) as [|[]];
    try destruct (walk (tree fs) (resolve (cwd fs) oldpath));
    try case_decide;
    try destruct (sys_rename _ _ _) eqn:Es;
    intros; simplify_eq; eauto 10.
Qed.

(** Moving a regular file: it is at the new place, gone from the old one,
    and no other file has changed. *)
Lemma sys_rename_file fs old new fs' data :
  walk (tree fs) old = inr (File data) -> sys_rename fs old new = inr fs' ->
  cwd fs' = cwd fs
  /\ walk (tree fs') new = inr (File data)
  /\ (forall q, q <> old -> q <> new ->
        file_at (tree fs') q = file_at (tree fs) q)
  /\ (old <> new -> walk (tree fs') old = inl ENOENT).
Proof.
  intros Eold. unfold sys_rename. rewrite Eold.
  destruct (parent_dir _ old); [done|]. destruct (parent_dir _ new); [done|].
  case_decide as Hon; [intros; simplify_eq; by repeat split|].
  case_decide as Hpre; [done|]. case_decide as Hnil; [done|].
  assert (old <> []) as Hold by tauto.
  assert ((forall m, walk (tree fs) new <> inr (Dir m))
          -> ~ new `prefix_of` old) as Hnp.
  { intros Hm [r ->]. destruct r as [|y r]; [by rewrite app_nil_r in Hon|].
    destruct (walk_found_through _ _ _ _ Eold) as [m Em]; [done|].
    by destruct (Hm m). }
  intros E.
  assert (exists t, put_at (remove_at (tree fs) old) new (File data) = inr t
          /\ fs' = set_tree fs t
          /\ forall m, walk (tree fs) new <> inr (Dir m)) as (t & Ep & -> & Hm).
  { destruct (walk (tree fs) new) as [|[]] eqn:En; [| |done];
      destruct (put_at _ _ _) eqn:Ep; simplify_eq; eauto. }
  clear E. specialize (Hnp Hm). simpl.
  assert (walk (remove_at (tree fs) old) new = walk (tree fs) new) as Enew
    by by apply walk_remove_at_other.
  repeat split.
  - by eapply walk_put_at.
  - intros q Hqo Hqn. rewrite (file_at_put_at _ _ _ _ _ Ep); [| |done].
    + by eapply file_at_remove_at.
    + intros m. rewrite Enew. apply Hm.
  - intros _. rewrite (walk_put_at_other _ _ _ _ _ Ep) by done.
    rewrite <- (app_nil_r old) at 2. by eapply walk_remove_at.
Qed.

End calls.

(** * Write *)

Section write.
Import os.
Implicit Types (fs : FS) (t n : node) (p q : list string) (d : Driver).

Lemma dirPath_not_empty d c : c <> "" -> dirPath d c <> "".
Proof.
  intros Hc. apply Join_not_empty.
  apply Exists_cons_tl, Exists_cons_hd. done.
Qed.

(** The final path ends in a name with the suffix [.json]; the temporary
    path is its neighbour with [.tmp] added to that name. *)
Lemma Write_paths cwd d c r :
  c <> "" ->
  exists parent y,
    valid_name (y +:+ ".json")
    /\ resolve cwd (fnlPath d c r) = parent ++ [y +:+ ".json"]
    /\ resolve cwd (tmpPath d c r) = parent ++ [(y +:+ ".json") +:+ ".tmp"].
Proof.
  intros Hc. unfold tmpPath, fnlPath.
  pose proof (dirPath_not_empty d c Hc) as Hd.
  rewrite Join_cons by done.
  destruct (clean_state_final (dirPath d c) r ".json")
    as (ups & stack & y & E); [done..|simpl; lia|].
  destruct (resolve_Clean_ext cwd _ ".tmp" _ _ _
              (concat_not_empty _ _ Hd) eq_refl ltac:(done) E)
    as (Hy & E1 & E2).
  eauto.
Qed.

Lemma app_inj_length (a b s s' : string) :
  a +:+ s = b +:+ s' -> String.length s = String.length s' -> s = s'.
Proof.
  revert b. induction a as [|x a IH]; intros [|y b] E Hlen.
  - done.
  - change (s = String y (b +:+ s')) in E. subst s. simpl in Hlen.
    rewrite length_app_s in Hlen. lia.
  - change (String x (a +:+ s) = s') in E. subst s'. simpl in Hlen.
    rewrite length_app_s in Hlen. lia.
  - rewrite !app_cons_s in E. injection E as _ E. by eapply IH.
Qed.

Lemma json_name_not_tmp (y z : string) :
  y +:+ ".json" <> (z +:+ ".json") +:+ ".tmp".
Proof.
  intros E.
  assert (y +:+ ".json" = (y +:+ ".") +:+ "json") as E'
    by (by rewrite app_assoc_s).
  rewrite E' in E. by apply app_inj_length in E.
Qed.

Lemma name_not_ext (x ext : string) : ext <> "" -> x <> x +:+ ext.
Proof.
  intros Hext E. apply (f_equal String.length) in E.
  rewrite length_app_s in E. destruct ext; simpl in *; [done|lia].
Qed.

Lemma snoc_not_prefix {A} (l : list A) x y : x <> y -> ~ (l ++ [x]) `prefix_of` (l ++ [y]).
Proof.
  intros Hxy [k E]. rewrite <- (assoc_L (++)) in E.
  apply app_inv_head in E. destruct k; simplify_eq/=.
Qed.

Lemma Write_ok_inv d fs c r v fs' :
  Write d fs c r v = (fs', None) ->
  c <> "" /\ r <> "" /\
  exists fs1 b fs2,
    MkdirAll fs (dirPath d c) = (fs1, None)
    /\ json.MarshalIndent v "" (str TAB) = (b, None)
    /\ WriteFile fs1 (tmpPath d c r) (b +:+ str LF) = (fs2, None)
    /\ Rename fs2 (tmpPath d c r) (fnlPath d c r) = (fs', None).
Proof.
  unfold Write. fold (dirPath d c). fold (fnlPath d c r). fold (tmpPath d c r).
  do 2 (case_decide; [done|]).
  destruct (MkdirAll _ _) as [fs1 [|]] eqn:E1; [done|].
  destruct (json.MarshalIndent _ _ _) as [b [|]] eqn:Eb; [done|].
  destruct (WriteFile _ _ _) as [fs2 [|]] eqn:E2; [done|].
  destruct (Rename _ _ _) as [fs3 [|]] eqn:E3; [done|].
  intros; simplify_eq. eauto 10.
Qed.

Lemma Write_err_inv d fs c r v fs' e :
  Write d fs c r v = (fs', Some e) ->
  ((c = "" \/ r = "") /\ fs' = fs /\ InvalidArgument e)
  \/ (c <> "" /\ r <> "" /\
      (fs' = fs
       \/ exists fs1, MkdirAll fs (dirPath d c) = (fs1, None)
          /\ (fs' = fs1
              \/ exists b fs2,
                   WriteFile fs1 (tmpPath d c r) b = (fs2, None)
                   /\ fs' = fs2))).
Proof.
  unfold Write. fold (dirPath d c). fold (fnlPath d c r). fold (tmpPath d c r).
  case_decide.
  { intros; simplify_eq. left. repeat split; [by left|]. by left. }
  case_decide.
  { intros; simplify_eq. left. repeat split; [by right|]. by right; left. }
  intros E. right. do 2 (split; [done|]).
  destruct (MkdirAll _ _) as [fs1 [|]] eqn:E1.
  { apply MkdirAll_inv in E1 as [(? & _)|(? & _ & ->)]; simplify_eq. eauto. }
  right. exists fs1. split; [done|].
  destruct (json.MarshalIndent _ _ _) as [b [|]] eqn:Eb; [simplify_eq; eauto|].
  destruct (WriteFile _ _ _) as [fs2 [|]] eqn:E2.
  { apply WriteFile_inv in E2 as [(? & _)|(? & _ & ->)]; simplify_eq. eauto. }
  destruct (Rename _ _ _) as [fs3 [|]] eqn:E3; [|done].
  apply Rename_inv in E3 as [(? & _)|(? & _ & ->)]; simplify_eq. eauto 10.
Qed.

(** What a successful [Write] leaves on disk. *)
Lemma Write_ok_effect d fs c r v fs' :
  Write d fs c r v = (fs', None) ->
  exists b,
    json.MarshalIndent v "" (str TAB) = (b, None)
    /\ cwd fs' = cwd fs
    /\ fnlPath d c r <> ""
    /\ walk (tree fs') (resolve (cwd fs) (fnlPath d c r))
       = inr (File (b +:+ str LF))
    /\ walk (tree fs') (resolve (cwd fs) (tmpPath d c r)) = inl ENOENT
    /\ forall q, q <> resolve (cwd fs) (fnlPath d c r) ->
                 q <> resolve (cwd fs) (tmpPath d c r) ->
                 file_at (tree fs') q = file_at (tree fs) q.
Proof.
  intros (Hc & Hr & fs1 & b & fs2 & E1 & Eb & E2 & E3)%Write_ok_inv.
  exists b. split; [done|].
  apply MkdirAll_inv in E1 as [(_ & _ & Hc1 & Em)|(? & ? & _)]; [|done].
  apply WriteFile_inv in E2 as [(_ & _ & Hc2 & Ep & Hnd)|(? & ? & _)]; [|done].
  apply Rename_inv in E3 as [(_ & _ & Hfnl & Er)|(? & ? & _)]; [|done].
  rewrite Hc2, Hc1 in Er. rewrite Hc1 in Ep, Hnd.
  pose proof (walk_put_at _ _ _ _ Ep) as Etmp.
  destruct (sys_rename_file _ _ _ _ _ Etmp Er) as (Hc3 & Enew & Hframe & Hold).
  destruct (Write_paths (cwd fs) d c r Hc) as (parent & y & Hy & Pf & Pt).
  repeat split; try done.
  - by rewrite Hc3, Hc2.
  - apply Hold. rewrite Pf, Pt. intros [=E]%(inj (app parent)).
    symmetry in E. by apply name_not_ext in E.
  - intros q Hqf Hqt. rewrite Hframe by done.
    rewrite (file_at_put_at _ _ _ _ _ Ep) by done.
    by eapply file_at_mkdir_all.
Qed.

(** What a failed [Write] leaves at the final path. *)
Lemma Write_err_effect d fs c r v fs' e :
  Write d fs c r v = (fs', Some e) ->
  ~ resolve (cwd fs) (fnlPath d c r) `prefix_of` resolve (cwd fs) (dirPath d c) ->
  cwd fs' = cwd fs
  /\ walk (tree fs') (resolve (cwd fs) (fnlPath d c r))
     = walk (tree fs) (resolve (cwd fs) (fnlPath d c r)).
Proof.
  intros [(_ & -> & _)|(Hc & Hr & H)]%Write_err_inv Hpre; [done|].
  destruct H as [->|(fs1 & E1 & H)]; [done|].
  apply MkdirAll_inv in E1 as [(_ & _ & Hc1 & Em)|(? & ? & _)]; [|done].
  pose proof (walk_mkdir_all_other _ _ _ _ Em Hpre) as Ew.
  destruct H as [->|(b & fs2 & E2 & ->)]; [done|].
  apply WriteFile_inv in E2 as [(_ & _ & Hc2 & Ep & Hnd)|(? & ? & _)]; [|done].
  rewrite Hc1 in Ep. split; [congruence|]. rewrite <- Ew.
  destruct (Write_paths (cwd fs) d c r Hc) as (parent & y & Hy & Pf & Pt).
  apply (walk_put_at_other _ _ _ _ _ Ep); rewrite Pf, Pt;
    apply snoc_not_prefix; [symmetry|]; by apply name_not_ext.
Qed.

End write.

(** * stat and Read *)

Section read.
Import os.
Implicit Types (fs : FS) (t n : node) (p q : list string) (d : Driver).

Lemma app_not_empty (a b : string) : b <> "" -> a +:+ b <> "".
Proof. intros Hb E. destruct a; [done|]. by rewrite app_cons_s in E. Qed.

Lemma Stat_found fs name n :
  name <> "" -> walk (tree fs) (resolve (cwd fs) name) = inr n ->
  Stat fs name = (Some (info_of n), None).
Proof. intros ? E. unfold Stat. case_decide; [done|]. by rewrite E. Qed.

Lemma Stat_missing fs name e :
  name <> "" -> walk (tree fs) (resolve (cwd fs) name) = inl e ->
  Stat fs name = (None, Some (PathError "stat" name e)).
Proof. intros ? E. unfold Stat. case_decide; [done|]. by rewrite E. Qed.

(** The driver's [stat]: the path itself, or, when that does not exist, the
    path with [.json] added. *)
Lemma stat_spec fs path :
  path <> "" ->
  stat fs path
  = match walk (tree fs) (resolve (cwd fs) path) with
    | inr n => (Some (info_of n), None)
    | inl ENOENT => Stat fs (path +:+ ".json")
    | inl e => (None, Some (PathError "stat" path e))
    end.
Proof.
  intros Hp. unfold stat.
  destruct (walk _ _) as [e|n] eqn:E.
  - rewrite (Stat_missing _ _ _ Hp E). by destruct e.
  - by rewrite (Stat_found _ _ _ Hp E).
Qed.

(** Failing to find a path for want of an entry, the kernel fails the same
    way on the path with a suffix added. *)
Lemma walk_ext_missing fs s ext e :
  s <> "" -> valid_name ext ->
  walk (tree fs) (resolve (cwd fs) (filepath.Clean s)) = inl ENOENT ->
  walk (tree fs) (resolve (cwd fs) (filepath.Clean s +:+ ext)) = inl e ->
  e = ENOENT.
Proof.
  intros Hs Hext Ep Eq.
  destruct (resolve_ext_cases (cwd fs) s ext Hs Hext)
    as [(parent & x & _ & Pp & Pq)|(l & _ & Pq)];
    rewrite Pq in Eq; [rewrite Pp in Ep|]; rewrite walk_app in Eq.
  - rewrite walk_app in Ep.
    destruct (walk (tree fs) parent) as [|[|m]]; simplify_eq/=; [done|].
    destruct (m !! x); [done|]. by destruct (m !! (x +:+ ext)); simplify_eq.
  - rewrite Ep in Eq. by simplify_eq.
Qed.

Lemma recordPath_Clean d c r :
  c <> "" -> exists s, s <> "" /\ recordPath d c r = filepath.Clean s.
Proof.
  intros Hc. apply Join_is_Clean. by apply Exists_cons_tl, Exists_cons_hd.
Qed.

Lemma dirPath_Clean d c :
  c <> "" -> exists s, s <> "" /\ dirPath d c = filepath.Clean s.
Proof.
  intros Hc. apply Join_is_Clean. by apply Exists_cons_tl, Exists_cons_hd.
Qed.

Lemma json_valid : valid_name ".json".
Proof. by repeat split. Qed.

(** [Read] when nothing is there: the error of the second lookup. *)
Lemma Read_missing d fs c r v :
  c <> "" -> r <> "" ->
  walk (tree fs) (resolve (cwd fs) (recordPath d c r)) = inl ENOENT ->
  (forall n, walk (tree fs) (resolve (cwd fs) (recordPath d c r +:+ ".json"))
             <> inr n) ->
  Read d fs c r v
  = Some (PathError "stat" (recordPath d c r +:+ ".json") ENOENT).
Proof.
  intros Hc Hr Ep Hq. unfold Read. do 2 (case_decide; [done|]).
  fold (recordPath d c r).
  destruct (recordPath_Clean d c r Hc) as (s & Hs & Es).
  assert (recordPath d c r <> "") as Hne
    by (rewrite Es; apply Clean_not_empty).
  rewrite stat_spec, Ep by done.
  destruct (walk (tree fs) (resolve (cwd fs) (recordPath d c r +:+ ".json")))
    as [e|n] eqn:Eq; [|by destruct (Hq n)].
  rewrite (Stat_missing _ _ e) by (done || by apply app_not_empty).
  rewrite Es in Ep, Eq.
  by rewrite (walk_ext_missing _ _ _ _ Hs json_valid Ep Eq).
Qed.

(** [Read] when a path element is a regular file. *)
Lemma Read_obstructed d fs c r v :
  c <> "" -> r <> "" ->
  walk (tree fs) (resolve (cwd fs) (recordPath d c r)) = inl ENOTDIR ->
  Read d fs c r v = Some (PathError "stat" (recordPath d c r) ENOTDIR).
Proof.
  intros Hc Hr Ep. unfold Read. do 2 (case_decide; [done|]).
  fold (recordPath d c r).
  destruct (recordPath_Clean d c r Hc) as (s & Hs & Es).
  assert (recordPath d c r <> "") as Hne
    by (rewrite Es; apply Clean_not_empty).
  by rewrite stat_spec, Ep.
Qed.

(** [Read] succeeds only by reading the path with [.json] added to what it
    was given. *)
Lemma Read_ok_inv d fs c r v :
  Read d fs c r v = None ->
  exists b, ReadFile fs (recordPath d c r +:+ ".json") = (b, None).
Proof.
  unfold Read. do 2 (case_decide; [done|]). fold (recordPath d c r).
  destruct (stat _ _) as [? [|]]; [done|].
  destruct (ReadFile _ _) as [b [|]]; [done|]. eauto.
Qed.

Lemma ReadFile_ok_inv fs name b :
  ReadFile fs name = (b, None) ->
  walk (tree fs) (resolve (cwd fs) name) = inr (File b).
Proof.
  unfold ReadFile. case_decide; [done|].
  destruct (walk _ _) as [|[]]; intros; by simplify_eq.
Qed.

End read.

(** * Paths that end in a name *)

Section names.
Import filepath os.
Implicit Types (fs : FS) (t n : node) (p q : list string) (d : Driver).

(** [Join] of elements that end in a name ends in that name. *)
Lemma Join_snoc_valid elems x :
  valid_name x ->
  exists s ups stack,
    s <> "" /\ Join (elems ++ [x]) = Clean s
    /\ clean_state s = (ups, x :: stack).
Proof.
  intros Hx. pose proof Hx as (Hfree & Hne & Hd & Hdd).
  induction elems as [|e rest IH].
  - exists x, 0, []. repeat split; [done|by apply Join_cons|].
    unfold clean_state. rewrite Hfree. simpl. unfold clean_step.
    by repeat case_decide.
  - destruct (decide (e = "")) as [->|He]; [done|].
    exists (String.concat "/" (e :: rest ++ [x])).
    destruct (foldl (clean_step (rooted e)) (0, [])
                (split e ++ flat_map split rest)) as [ups stack] eqn:E.
    exists ups, stack. repeat split.
    + by apply concat_not_empty.
    + by apply Join_cons.
    + unfold clean_state.
      rewrite rooted_concat, split_concat_elems, flat_map_app by done.
      simpl flat_map. rewrite Hfree, app_nil_r, (assoc_L (++)), foldl_app, E.
      simpl. unfold clean_step. by repeat case_decide.
Qed.

Lemma split_render r ups x stack :
  Forall valid_name (x :: stack) ->
  last (split (render r (ups, x :: stack))) = Some x.
Proof.
  intros Hst. unfold render. rewrite reverse_cons, (assoc_L (++)).
  set (l := replicate ups ".." ++ reverse stack).
  assert (Forall (fun y => split y = [y]) (l ++ [x])) as Hfree.
  { inversion_clear Hst. apply Forall_app. split; [apply Forall_app; split|].
    - by apply Forall_replicate.
    - apply Forall_reverse. eapply Forall_impl; [done|]. apply valid_name_free.
    - constructor; [by apply valid_name_free|done]. }
  assert (l ++ [x] <> []) by by destruct l.
  destruct r.
  - change ("/" +:+ String.concat "/" (l ++ [x]))
      with ("" +:+ String Separator (String.concat "/" (l ++ [x]))).
    rewrite split_app_sep, split_concat by done.
    change (split "" ++ l ++ [x]) with (("" :: l) ++ [x]).
    by rewrite last_snoc.
  - assert (match l ++ [x] with
            | [] => "."
            | _ :: _ => String.concat "/" (l ++ [x])
            end = String.concat "/" (l ++ [x])) as -> by by destruct l.
    by rewrite split_concat, last_snoc by done.
Qed.

(** The paths the driver builds from names: where they lead, and how they
    end. *)
Lemma Join_valid_path cwd elems x ext :
  valid_name x -> split ext = [ext] -> ext <> "" ->
  let path := Join (elems ++ [x]) in
  exists parent,
    path <> ""
    /\ resolve cwd path = parent ++ [x]
    /\ resolve cwd (path +:+ ext) = parent ++ [x +:+ ext]
    /\ last (split path) = Some x
    /\ last (split (path +:+ ext)) = Some (x +:+ ext).
Proof.
  intros Hx Hext Hne path.
  destruct (Join_snoc_valid elems x Hx) as (s & ups & stack & Hs & Ej & Ec).
  destruct (resolve_Clean_ext cwd s ext ups x stack Hs Hext Hne Ec)
    as (_ & Ep & Eq).
  pose proof (clean_state_inv s) as [Hst _]. rewrite Ec in Hst. simpl in Hst.
  exists (reverse (stack ++ drop ups (start cwd (rooted s)))).
  unfold path. rewrite Ej. repeat split; try done.
  - apply Clean_not_empty.
  - rewrite Clean_render, Ec by done. by apply split_render.
  - rewrite Clean_render, Ec, render_ext by done. apply split_render.
    inversion_clear Hst. constructor; [|done]. by apply valid_name_ext.
Qed.

(** [RemoveAll] on a path that ends in a name. *)
Lemma RemoveAll_name fs path p x :
  path <> "" -> last (split path) = Some x -> valid_name x ->
  resolve (cwd fs) path = p ++ [x] ->
  RemoveAll fs path
  = match walk (tree fs) (p ++ [x]) with
    | inl ENOENT => (fs, None)
    | inl e => (fs, Some (PathError "unlinkat" path e))
    | inr _ => (set_tree fs (remove_at (tree fs) (p ++ [x])), None)
    end.
Proof.
  intros Hne Hlast (_ & _ & Hd & Hdd) Hp. unfold RemoveAll, endsWithDot.
  case_decide; [done|]. rewrite Hlast, bool_decide_false by congruence.
  rewrite Hp. unfold rmdir_refuses. rewrite Hlast.
  case_decide; [congruence|]. case_decide; [by destruct p|].
  by destruct (walk _ _) as [|[]].
Qed.

End names.

(** * Delete and ReadAll *)

Section remove.
Import filepath os.
Implicit Types (fs : FS) (t n : node) (p q : list string) (d : Driver).

Lemma walk_remove_at_self t p n :
  p <> [] -> walk t p = inr n -> walk (remove_at t p) p = inl ENOENT.
Proof.
  intros Hp E. rewrite <- (app_nil_r p) at 2. by eapply walk_remove_at.
Qed.

Lemma NotFound_ENOENT op path : NotFound (PathError op path ENOENT).
Proof. by left. Qed.

Lemma ReadDir_missing fs name e :
  name <> "" -> walk (tree fs) (resolve (cwd fs) name) = inl e ->
  ReadDir fs name = ([], Some (PathError "open" name e)).
Proof. intros ? E. unfold ReadDir. case_decide; [done|]. by rewrite E. Qed.

Lemma ReadFile_found fs name data :
  name <> "" -> walk (tree fs) (resolve (cwd fs) name) = inr (File data) ->
  ReadFile fs name = (data, None).
Proof. intros ? E. unfold ReadFile. case_decide; [done|]. by rewrite E. Qed.

Lemma ReadFile_missing fs name e :
  name <> "" -> walk (tree fs) (resolve (cwd fs) name) = inl e ->
  ReadFile fs name = ("", Some (PathError "open" name e)).
Proof. intros ? E. unfold ReadFile. case_decide; [done|]. by rewrite E. Qed.

(** [ReadAll] of a collection whose directory is not there. *)
Lemma ReadAll_missing d fs c :
  c <> "" ->
  walk (tree fs) (resolve (cwd fs) (dirPath d c)) = inl ENOENT ->
  exists e, ReadAll d fs c = ([], Some e) /\ NotFound e.
Proof.
  intros Hc Ep. unfold ReadAll. case_decide; [done|]. fold (dirPath d c).
  destruct (dirPath_Clean d c Hc) as (s & Hs & Es).
  assert (dirPath d c <> "") as Hne by (rewrite Es; apply Clean_not_empty).
  rewrite stat_spec, Ep by done.
  destruct (walk (tree fs) (resolve (cwd fs) (dirPath d c +:+ ".json")))
    as [e|n] eqn:Eq.
  - rewrite (Stat_missing _ _ e) by (done || by apply app_not_empty).
    rewrite Es in Ep, Eq.
    rewrite (walk_ext_missing _ _ _ _ Hs json_valid Ep Eq).
    eexists. split; [done|]. apply NotFound_ENOENT.
  - rewrite (Stat_found _ _ n) by (done || by apply app_not_empty).
    rewrite (ReadDir_missing _ _ ENOENT) by done.
    eexists. split; [done|]. apply NotFound_ENOENT.
Qed.

(** [Delete] with an empty resource name removes the collection. *)
Lemma Delete_collection d fs c m :
  valid_name c ->
  walk (tree fs) (resolve (cwd fs) (dirPath d c)) = inr (Dir m) ->
  exists fs',
    Delete d fs c "" = (fs', None)
    /\ cwd fs' = cwd fs
    /\ (forall q, walk (tree fs') (resolve (cwd fs) (dirPath d c) ++ q)
                  = inl ENOENT)
    /\ exists e, ReadAll d fs' c = ([], Some e) /\ NotFound e.
Proof.
  intros Hc Ep. pose proof Hc as (_ & Hne & _).
  destruct (Join_valid_path (cwd fs) [d.(dir)] c ".json" Hc eq_refl)
    as (parent & Hd & Pp & Pq & Lp & Lq); [done|].
  change (Join ([d.(dir)] ++ [c])) with (dirPath d c) in *.
  rewrite Pp in Ep.
  exists (set_tree fs (remove_at (tree fs) (parent ++ [c]))).
  split; [|split; [done|split]].
  - unfold Delete. rewrite Join_valid_empty by done. fold (dirPath d c).
    rewrite stat_spec, Pp, Ep by done. simpl.
    by rewrite (RemoveAll_name _ _ parent c), Ep.
  - intros q. rewrite Pp. simpl. eapply walk_remove_at; [|done]. by destruct parent.
  - apply ReadAll_missing; [done|]. simpl. rewrite Pp.
    eapply walk_remove_at_self; [|done]. by destruct parent.
Qed.

Lemma Read_file_missing d fs c r v n :
  c <> "" -> r <> "" ->
  walk (tree fs) (resolve (cwd fs) (recordPath d c r)) = inr n ->
  walk (tree fs) (resolve (cwd fs) (recordPath d c r +:+ ".json")) = inl ENOENT ->
  Read d fs c r v
  = Some (PathError "open" (recordPath d c r +:+ ".json") ENOENT).
Proof.
  intros Hc Hr Ep Eq. unfold Read. do 2 (case_decide; [done|]).
  fold (recordPath d c r).
  destruct (recordPath_Clean d c r Hc) as (s & Hs & Es).
  assert (recordPath d c r <> "") as Hne
    by (rewrite Es; apply Clean_not_empty).
  rewrite stat_spec, Ep by done.
  by rewrite (ReadFile_missing _ _ ENOENT) by (done || by apply app_not_empty).
Qed.

(** [Delete] of a record, then [Read] of the same record. *)
Lemma Delete_then_Read d fs c r v fs' :
  valid_name c -> valid_name r ->
  let p := resolve (cwd fs) (recordPath d c r) in
  let q := resolve (cwd fs) (recordPath d c r +:+ ".json") in
  (forall m n, walk (tree fs) p = inr (Dir m) -> walk (tree fs) q <> inr n) ->
  (forall e m, walk (tree fs) p = inl e -> walk (tree fs) q <> inr (Dir m)) ->
  Delete d fs c r = (fs', None) ->
  exists e, Read d fs' c r v = Some e /\ NotFound e.
Proof.
  intros Hc Hr p q Hdir Habs.
  pose proof Hc as (_ & Hcne & _). pose proof Hr as (_ & Hrne & _).
  destruct (Join_valid_path (cwd fs) [d.(dir); c] r ".json" Hr eq_refl)
    as (parent & Hd & Pp & Pq & Lp & Lq); [done|].
  change (Join ([d.(dir); c] ++ [r])) with (recordPath d c r) in *.
  assert (valid_name (r +:+ ".json")) as Hrj by by apply valid_name_ext.
  assert (recordPath d c r +:+ ".json" <> "") as Hdj by by apply app_not_empty.
  assert (~ (parent ++ [r]) `prefix_of` (parent ++ [r +:+ ".json"])
          /\ ~ (parent ++ [r +:+ ".json"]) `prefix_of` (parent ++ [r]))
    as [Hpq Hqp].
  { split; apply snoc_not_prefix; [|symmetry]; by apply name_not_ext. }
  assert (parent ++ [r] <> []) as Hpne by by destruct parent.
  assert (parent ++ [r +:+ ".json"] <> []) as Hqne by by destruct parent.
  unfold Delete. rewrite Join_nested by done. fold (recordPath d c r).
  rewrite stat_spec by done. subst p q. rewrite Pp, Pq in *.
  destruct (walk (tree fs) (parent ++ [r])) as [e|[data|m]] eqn:Ep.
  - (* nothing at the bare path *)
    destruct e; try (intros; by simplify_eq).
    destruct (walk (tree fs) (parent ++ [r +:+ ".json"])) as [e|[data|m]] eqn:Eq.
    + rewrite (Stat_missing _ _ e) by (done || by rewrite Pq). done.
    + rewrite (Stat_found _ _ (File data)) by (done || by rewrite Pq). simpl.
      rewrite (RemoveAll_name _ _ parent (r +:+ ".json")), Eq by done.
      intros; simplify_eq. eexists. split; [|apply NotFound_ENOENT].
      apply Read_missing; try done; simpl; rewrite ?Pp, ?Pq.
      * by rewrite walk_remove_at_other.
      * intros n. by erewrite walk_remove_at_self.
    + by destruct (Habs ENOENT m).
  - (* a regular file at the bare path *)
    simpl. rewrite (RemoveAll_name _ _ parent (r +:+ ".json")) by done.
    destruct (walk (tree fs) (parent ++ [r +:+ ".json"])) as [e|n] eqn:Eq.
    + destruct e; try (intros; by simplify_eq). intros; simplify_eq.
      eexists. split; [|apply NotFound_ENOENT].
      eapply Read_file_missing; try done; by rewrite ?Pp, ?Pq.
    + intros; simplify_eq. eexists. split; [|apply NotFound_ENOENT].
      eapply Read_file_missing; try done; simpl; rewrite ?Pp, ?Pq.
      * by rewrite walk_remove_at_other.
      * by erewrite walk_remove_at_self.
  - (* a directory at the bare path *)
    simpl. rewrite (RemoveAll_name _ _ parent r), Ep by done.
    intros; simplify_eq. eexists. split; [|apply NotFound_ENOENT].
    apply Read_missing; try done; simpl; rewrite ?Pp, ?Pq.
    + by erewrite walk_remove_at_self.
    + intros n. rewrite walk_remove_at_other by done. by eapply Hdir.
Qed.

End remove.

(** * ReadAll over files *)

Section readall.
Import filepath os.
Implicit Types (fs : FS) (t n : node) (p q : list string) (d : Driver).

Lemma ReadDir_found fs name m :
  name <> "" -> walk (tree fs) (resolve (cwd fs) name) = inr (Dir m) ->
  ReadDir fs name = (merge_sort String.le (map fst (map_to_list m)), None).
Proof. intros ? E. unfold ReadDir. case_decide; [done|]. by rewrite E. Qed.

Lemma ReadDir_names fs name m names x :
  name <> "" -> walk (tree fs) (resolve (cwd fs) name) = inr (Dir m) ->
  ReadDir fs name = (names, None) -> x ∈ names <-> is_Some (m !! x).
Proof.
  intros Hne E. rewrite (ReadDir_found _ _ _ Hne E). intros [= <-].
  rewrite merge_sort_Permutation.
  change (map fst (map_to_list m)) with ((map_to_list m).*1).
  rewrite list_elem_of_fmap. split.
  - intros ([y n] & -> & Hin). apply elem_of_map_to_list in Hin. by eexists.
  - intros [n Hn]. exists (x, n). split; [done|]. by apply elem_of_map_to_list.
Qed.

(** The loop of [ReadAll] over names that are all regular files of the
    directory. *)
Lemma read_records_files fs dir m names records :
  dir <> "" -> walk (tree fs) (resolve (cwd fs) dir) = inr (Dir m) ->
  Forall (fun x => valid_name x /\ exists data, m !! x = Some (File data))
         names ->
  exists datas,
    read_records fs dir names records = (records ++ datas, None)
    /\ Forall2 (fun x data => m !! x = Some (File data)) names datas.
Proof.
  intros Hne Ed Hnames. revert records.
  induction Hnames as [|x names [Hx [data Hdata]] _ IH]; intros records.
  - exists []. by rewrite app_nil_r.
  - cbn [read_records]. rewrite (ReadFile_found _ _ data).
    + destruct (IH (records ++ [data])) as (datas & -> & HF).
      exists (data :: datas). split; [by rewrite <- (assoc_L (++))|].
      by constructor.
    + apply Join_not_empty. by apply Exists_cons_hd.
    + rewrite (resolve_Join_valid _ dir [x]) by (by constructor).
      rewrite walk_app, Ed. simpl. by rewrite Hdata.
Qed.

(** [ReadAll] of a directory holding regular files only. *)
Lemma ReadAll_files d fs c m :
  c <> "" ->
  walk (tree fs) (resolve (cwd fs) (dirPath d c)) = inr (Dir m) ->
  (forall x n, m !! x = Some n -> valid_name x /\ exists data, n = File data) ->
  exists names records,
    ReadDir fs (dirPath d c) = (names, None)
    /\ ReadAll d fs c = (records, None)
    /\ Forall2 (fun x data => m !! x = Some (File data)) names records
    /\ forall x data, m !! x = Some (File data) -> data ∈ records.
Proof.
  intros Hc Ed Hm. unfold ReadAll. case_decide; [done|]. fold (dirPath d c).
  pose proof (dirPath_not_empty d c Hc) as Hne.
  rewrite stat_spec, Ed by done.
  pose proof (ReadDir_found _ _ _ Hne Ed) as Er. rewrite Er.
  set (names := merge_sort String.le (map fst (map_to_list m))) in *.
  destruct (read_records_files fs (dirPath d c) m names [] Hne Ed)
    as (records & -> & HF).
  { apply Forall_forall. intros x Hx.
    apply (ReadDir_names _ _ _ _ _ Hne Ed Er) in Hx as [n Hn].
    destruct (Hm _ _ Hn) as [? [data ->]]. eauto. }
  exists names, records. repeat split; try done.
  intros x data Hx.
  assert (x ∈ names) as Hin by (by apply (ReadDir_names _ _ _ _ _ Hne Ed Er)).
  apply list_elem_of_lookup in Hin as [i Hi].
  destruct (Forall2_lookup_l _ _ _ _ _ HF Hi) as (data' & Hi' & Hd).
  simplify_eq. by eapply list_elem_of_lookup_2.
Qed.

End readall.

(** * Decoding into a string, and the round trip *)

Section decode.
Import json.

Lemma parse_members_object fuel s acc j rest :
  parse_members fuel s acc = Some (j, rest) -> exists ms, j = JObject ms.
Proof.
  revert s acc. induction fuel as [|fuel IH]; intros s acc; [done|].
  simpl. destruct (skip s) as [|q r]; [done|].
  case_decide; [|done]. destruct (scan_string r) as [[key rest1]|]; [|done].
  destruct (skip rest1) as [|c1 r1]; [done|]. case_decide; [|done].
  destruct (parse_value fuel r1) as [[v rest2]|]; [|done].
  destruct (skip rest2) as [|c2 r2]; [done|].
  case_decide; [apply IH|]. case_decide; [|done].
  intros; simplify_eq. eauto.
Qed.

Lemma parse_value_object fuel r j rest :
  parse_value fuel (String "{"%char r) = Some (j, rest) -> exists ms, j = JObject ms.
Proof.
  destruct fuel as [|fuel]; [done|].
  change (parse_value (S fuel) (String "{"%char r))
    with (match skip r with
          | String c r' =>
              if decide (c = "}"%char) then Some (JObject [], r')
              else parse_members fuel r []
          | EmptyString => None
          end).
  destruct (skip r) as [|c r']; [done|]. case_decide.
  - intros; simplify_eq. eauto.
  - apply parse_members_object.
Qed.

(** A JSON object is never decoded into a string. *)
Lemma Unmarshal_object r v :
  exists e, Unmarshal (String "{"%char r) v = (v, Some e).
Proof.
  unfold Unmarshal, parse.
  destruct (parse_value _ _) as [[j rest]|] eqn:E; [|eauto].
  apply parse_value_object in E as [ms ->].
  destruct (skip rest); eauto.
Qed.

Lemma MarshalIndent_struct fields prefix indent b :
  MarshalIndent (VStruct fields) prefix indent = (b, None) ->
  exists r, b = String "{"%char r.
Proof.
  unfold MarshalIndent.
  destruct (encode (VStruct fields)) as [j|] eqn:E; [|done].
  intros [= <-]. simpl in E.
  match type of E with
  | match ?x with _ => _ end = _ => destruct x as [ms|]; [|done]
  end.
  simplify_eq. simpl. destruct (map _ ms); eauto.
Qed.

End decode.

Section roundtrip.
Import os.

Lemma recordPath_json cwd d c r :
  valid_name c -> valid_name r ->
  resolve cwd (recordPath d c r +:+ ".json") = resolve cwd (fnlPath d c r).
Proof.
  intros Hc Hr.
  destruct (Join_valid_path cwd [d.(dir); c] r ".json" Hr eq_refl)
    as (parent & _ & Pp & Pq & _); [done|].
  change (filepath.Join ([d.(dir); c] ++ [r])) with (recordPath d c r) in *.
  rewrite Pq. unfold recordPath in Pp.
  rewrite (resolve_Join_valid _ _ [c; r]) in Pp by (by repeat first [done|constructor]).
  unfold fnlPath, dirPath.
  rewrite (resolve_Join_valid _ _ [r +:+ ".json"]).
  2:{ constructor; [|done]. by apply valid_name_ext. }
  rewrite (resolve_Join_valid _ _ [c]) by (by repeat first [done|constructor]).
  change [c; r] with ([c] ++ [r]) in Pp. rewrite (assoc_L (++)) in Pp.
  apply app_inj_tail in Pp as [<- _]. done.
Qed.

(** No struct survives the round trip: after a successful [Write] of a
    struct, [Read] of the same record returns an error. *)
Lemma Read_after_Write_struct d fs c r fields fs' s :
  valid_name c -> valid_name r ->
  Write d fs c r (VStruct fields) = (fs', None) ->
  exists e, Read d fs' c r s = Some e.
Proof.
  intros Hc Hr (b & Eb & Hcwd & _ & Ew & _)%Write_ok_effect.
  apply MarshalIndent_struct in Eb as [b' ->].
  unfold Read. pose proof Hc as (? & ? & _). pose proof Hr as (? & ? & _).
  do 2 (case_decide; [done|]). fold (recordPath d c r).
  destruct (stat _ _) as [? [|]]; [eauto|].
  rewrite (ReadFile_found _ _ (String "{"%char b' +:+ str LF)).
  - destruct (Unmarshal_object (b' +:+ str LF) s) as [e E].
    rewrite app_cons_s, E. eauto.
  - by apply app_not_empty.
  - by rewrite Hcwd, recordPath_json.
Qed.

(** [Read] given the name with its suffix looks for the file with the
    suffix twice. *)
Lemma Read_suffixed d fs c r s n :
  c <> "" ->
  walk (tree fs) (resolve (cwd fs) (recordPath d c (r +:+ ".json"))) = inr n ->
  walk (tree fs)
       (resolve (cwd fs) (recordPath d c (r +:+ ".json") +:+ ".json"))
  = inl ENOENT ->
  Read d fs c (r +:+ ".json") s
  = Some (PathError "open" (recordPath d c (r +:+ ".json") +:+ ".json") ENOENT).
Proof.
  intros Hc. apply Read_file_missing; [done|]. by apply app_not_empty.
Qed.

End roundtrip.

(** * The claims of the specification *)

Section claims.
Import os.
Implicit Types (fs : FS) (d : Driver) (c r : string).

(** Closed statements about the example states are settled by running the
    model. *)
Local Ltac evaluate := vm_compute; reflexivity.
Local Ltac refute H := vm_compute in H; discriminate H.
Local Ltac is_name := vm_compute; repeat split; congruence.

(** ** The demonstration data *)

Example New_db : New "./db" empty_fs = (db, fs_db, None).
Proof. evaluate. Qed.

Example New_repo : New "./" fs_repo = (repo, fs_repo, None).
Proof. evaluate. Qed.

Example indent_example :
  json.MarshalIndent (VStruct [("A", VInt 1); ("B", VSlice [VBool true])])
                     "" (str TAB)
  = ("{" +:+ str LF
     +:+ str TAB +:+ json.quote "A" +:+ ": 1," +:+ str LF
     +:+ str TAB +:+ json.quote "B" +:+ ": [" +:+ str LF
     +:+ str TAB +:+ str TAB +:+ "true" +:+ str LF
     +:+ str TAB +:+ "]" +:+ str LF
     +:+ "}", None).
Proof. evaluate. Qed.

(** The scenario of the specification: one [Write], then [ReadAll] returns
    one entry, whose text parses to the record. *)
Example ReadAll_one_record :
  exists b,
    ReadAll db fs_zoro "users" = ([b], None)
    /\ json.parse b
       = Some (json.JObject
                 [("Name", json.JString "Zoro"); ("Age", json.JNumber "23");
                  ("Contact", json.JString "9234923492");
                  ("Company", json.JString "Asura Tech");
                  ("Address", json.JObject
                     [("City", json.JString "Shimotsuki Village");
                      ("State", json.JString "East Blue");
                      ("Country", json.JString "Mars");
                      ("Pincode", json.JString "008")])]).
Proof.
  eexists. split.
  - evaluate.
  - evaluate.
Qed.

(** ** C1 *)

(** C1 (round trip), evaluated on the code.  After a successful [Write] of
    the struct of the demonstration, [Read] of the same record returns a
    type error: the stored JSON object cannot be decoded into the [string]
    that [Read] decodes into ([Read_after_Write_struct] shows this for every
    struct).  After a successful [Write] of a string, [Read] returns [nil],
    and that [nil] error is all the caller gets: [Read] has no result
    besides the error, and its parameter [v] is its own copy. *)
Theorem Read_after_Write_yields_no_value :
  (Write db fs_db "users" "Zoro" zoro = (fs_zoro, None)
   /\ Read db fs_zoro "users" "Zoro" ""
      = Some (UnmarshalTypeError "object" "string"))
  /\ (Write db fs_db "users" "s" (VString "hi") = (fs_hi, None)
      /\ Read db fs_hi "users" "s" "" = None).
Proof. repeat split; evaluate. Qed.

(** ** C2 *)

(** C2 as stated fails: with the collection ["x.json"] and the resource
    ["../x"] the final path [db/x.json] is the collection directory itself.
    [Write] creates that directory, then fails to rename the temporary file
    onto it: it returns an error, and the final path, absent before, is now
    a directory. *)
Lemma Write_error_can_create_final_path :
  exists fs',
    Write db fs_db "x.json" "../x" zoro
    = (fs', Some (LinkError "rename" "db/x.json.tmp" "db/x.json" EEXIST))
    /\ fnlPath db "x.json" "../x" = "db/x.json"
    /\ Stat fs_db "db/x.json"
       = (None, Some (PathError "stat" "db/x.json" ENOENT))
    /\ Stat fs' "db/x.json" = (Some {| Mode := ModeDir |}, None).
Proof.
  exists (Write db fs_db "x.json" "../x" zoro).1. repeat split; evaluate.
Qed.

(** C2, amended: when [Write] returns an error, the final path is exactly as
    it was before the call (the same file with the same content, the same
    directory, or absent in the same way), provided the final path is not
    the collection directory or a directory above it. *)
Theorem Write_error_leaves_final_path d fs c r v fs' e :
  Write d fs c r v = (fs', Some e) ->
  ~ resolve (cwd fs) (fnlPath d c r) `prefix_of` resolve (cwd fs) (dirPath d c) ->
  cwd fs' = cwd fs
  /\ walk (tree fs') (resolve (cwd fs) (fnlPath d c r))
     = walk (tree fs) (resolve (cwd fs) (fnlPath d c r)).
Proof. apply Write_err_effect. Qed.

Lemma Write_error_leaves_final_path_witness :
  exists fs' e,
    Write db fs_zoro "users" "Zoro" VChan = (fs', Some e)
    /\ cwd fs' = cwd fs_zoro
    /\ walk (tree fs') (resolve (cwd fs_zoro) (fnlPath db "users" "Zoro"))
       = walk (tree fs_zoro) (resolve (cwd fs_zoro) (fnlPath db "users" "Zoro")).
Proof.
  exists (Write db fs_zoro "users" "Zoro" VChan).1,
         (UnsupportedTypeError "chan int").
  split; [evaluate|].
  apply (Write_error_leaves_final_path db fs_zoro "users" "Zoro" VChan _
           (UnsupportedTypeError "chan int")).
  - evaluate.
  - intros [k E]. refute E.
Defined.

(** For a resource name that is a single path element the final path is
    inside the collection directory, and the proviso of C2 holds. *)
Lemma Write_error_leaves_record d fs c r v fs' e :
  valid_name r ->
  Write d fs c r v = (fs', Some e) ->
  walk (tree fs') (resolve (cwd fs) (fnlPath d c r))
  = walk (tree fs) (resolve (cwd fs) (fnlPath d c r)).
Proof.
  intros Hr E. apply (Write_err_effect _ _ _ _ _ _ _ E).
  unfold fnlPath. rewrite (resolve_Join_valid _ _ [r +:+ ".json"]).
  - intros [k Ek]. apply (f_equal length) in Ek.
    rewrite !length_app in Ek. simpl in Ek. lia.
  - constructor; [|done]. by apply valid_name_ext.
Qed.

(** ** C3 *)

(** C3 as stated fails for [Delete]: with a collection name and an empty
    resource name it returns no error and removes the whole collection, which
    is how a collection is deleted. *)
Lemma Delete_accepts_empty_resource :
  exists fs',
    Delete db fs_zoro "users" "" = (fs', None)
    /\ Stat fs_zoro "db/users" = (Some {| Mode := ModeDir |}, None)
    /\ Stat fs' "db/users" = (None, Some (PathError "stat" "db/users" ENOENT)).
Proof.
  exists (Delete db fs_zoro "users" "").1. repeat split; evaluate.
Qed.

(** C3, amended: [Write] and [Read] called with an empty collection name or
    an empty resource name, and [ReadAll] called with an empty collection
    name, return an argument error and leave the filesystem as it is
    ([Read] and [ReadAll] cannot change it).  [Delete] called with a
    collection name and an empty resource name never returns an argument
    error: that is the deletion of a collection.  What [Delete] does with an
    empty collection name is left open here. *)
Theorem empty_names_rejected d fs c r v s :
  c = "" \/ r = "" ->
  (exists e, Write d fs c r v = (fs, Some e) /\ InvalidArgument e)
  /\ (exists e, Read d fs c r s = Some e /\ InvalidArgument e)
  /\ (c = "" -> exists e, ReadAll d fs c = ([], Some e) /\ InvalidArgument e)
  /\ (c <> "" ->
      forall fs' e, Delete d fs c r = (fs', Some e) -> ~ InvalidArgument e).
Proof.
  intros Hcr. unfold Write, Read, ReadAll, InvalidArgument.
  repeat split.
  - repeat case_decide; try (eexists; split; [done|]; by eauto).
    by destruct Hcr.
  - repeat case_decide; try (eexists; split; [done|]; by eauto).
    by destruct Hcr.
  - intros ->. rewrite decide_True by done. eexists; split; [done|]; by eauto.
  - intros _ fs' e E Harg.
    assert (forall msg, e = Errorf msg ->
              exists path, msg = "unable to find file or directory named "
                                 +:+ path +:+ str LF) as Hmsg.
    { intros msg ->. unfold Delete, RemoveAll in E.
      repeat case_match; simplify_eq; eauto. }
    destruct Harg as [H|[H|H]]; destruct (Hmsg _ H) as [path Hp];
      by simplify_eq/=.
Qed.

Lemma empty_names_rejected_witness :
  (exists e, Write db fs_zoro "users" "" zoro = (fs_zoro, Some e)
             /\ InvalidArgument e)
  /\ (exists e, Read db fs_zoro "users" "" "" = Some e /\ InvalidArgument e)
  /\ ("users" = "" ->
      exists e, ReadAll db fs_zoro "users" = ([], Some e) /\ InvalidArgument e)
  /\ ("users" <> "" ->
      forall fs' e, Delete db fs_zoro "users" "" = (fs', Some e) ->
                    ~ InvalidArgument e).
Proof.
  apply (empty_names_rejected db fs_zoro "users" "" zoro ""). by right.
Defined.

(** ** C4 *)


(** ** C5 *)

(** C5 as stated fails: for the collection name ["/.."], whose directory is
    the one above the database, [Delete] cleans the joined names to [/] and
    removes the database directory itself; the collection directory is still
    there, and [ReadAll] on it succeeds. *)
Lemma Delete_rooted_dotdot_removes_database :
  exists fs',
    Delete db fs_zoro "/.." "" = (fs', None)
    /\ dirPath db "/.." = "."
    /\ Stat fs_zoro "." = (Some {| Mode := ModeDir |}, None)
    /\ Stat fs' "." = (Some {| Mode := ModeDir |}, None)
    /\ Stat fs' "db" = (None, Some (PathError "stat" "db" ENOENT))
    /\ ReadAll db fs' "/.." = ([], None).
Proof.
  exists (Delete db fs_zoro "/.." "").1. repeat split; evaluate.
Qed.

(** C5, amended: for a collection name [c] that is a single path element
    and whose directory exists, [Delete] with an empty resource name
    succeeds, nothing is left at or below the collection directory, and
    [ReadAll] then fails with a "not found" error. *)
Theorem Delete_collection_then_ReadAll d fs c m :
  valid_name c ->
  walk (tree fs) (resolve (cwd fs) (dirPath d c)) = inr (Dir m) ->
  exists fs',
    Delete d fs c "" = (fs', None)
    /\ cwd fs' = cwd fs
    /\ (forall q, walk (tree fs') (resolve (cwd fs) (dirPath d c) ++ q)
                  = inl ENOENT)
    /\ exists e, ReadAll d fs' c = ([], Some e) /\ NotFound e.
Proof. apply Delete_collection. Qed.

Lemma Delete_collection_then_ReadAll_witness :
  exists fs',
    Delete db fs_two "users" "" = (fs', None)
    /\ cwd fs' = cwd fs_two
    /\ (forall q,
          walk (tree fs') (resolve (cwd fs_two) (dirPath db "users") ++ q)
          = inl ENOENT)
    /\ exists e, ReadAll db fs' "users" = ([], Some e) /\ NotFound e.
Proof.
  apply (Delete_collection_then_ReadAll db fs_two "users" two_files).
  - is_name.
  - evaluate.
Defined.

(** ** C6 *)

(** C6 as stated fails: where a directory [db/users/s] stands beside the
    record [db/users/s.json] (two [Write] calls make this state), [Delete]
    removes the directory and succeeds, and [Read] then succeeds too. *)
Lemma Delete_directory_then_Read_succeeds :
  exists fs',
    Delete db fs_shadow "users" "s" = (fs', None)
    /\ Read db fs' "users" "s" "" = None.
Proof.
  exists (Delete db fs_shadow "users" "s").1. split; evaluate.
Qed.

(** It also fails where [Delete] and [Read] make different paths of the
    same names: for the collection name ["/.."] [Delete] removes
    [db/s.json], and [Read] reads [s.json]. *)
Lemma Delete_and_Read_paths_differ :
  filepath.Join [db.(dir); filepath.Join ["/.."; "s"]] = "db/s"
  /\ recordPath db "/.." "s" = "s"
  /\ exists fs',
       Delete db fs_split "/.." "s" = (fs', None)
       /\ Read db fs' "/.." "s" "" = None.
Proof.
  do 2 (split; [evaluate|]).
  exists (Delete db fs_split "/.." "s").1. split; evaluate.
Qed.

(** C6, amended: for names [c] and [r] that are single path elements, after
    a successful [Delete(c, r)], [Read(c, r)] fails with a "not found"
    error, unless before the [Delete] the bare path was a directory while
    the path with [.json] existed, or the bare path was absent while the
    path with [.json] was a directory. *)
Theorem Delete_then_Read_NotFound d fs c r v fs' :
  valid_name c -> valid_name r ->
  let p := resolve (cwd fs) (recordPath d c r) in
  let q := resolve (cwd fs) (recordPath d c r +:+ ".json") in
  (forall m n, walk (tree fs) p = inr (Dir m) -> walk (tree fs) q <> inr n) ->
  (forall e m, walk (tree fs) p = inl e -> walk (tree fs) q <> inr (Dir m)) ->
  Delete d fs c r = (fs', None) ->
  exists e, Read d fs' c r v = Some e /\ NotFound e.
Proof. apply Delete_then_Read. Qed.

Lemma Delete_then_Read_NotFound_witness :
  exists e,
    Read db (Delete db fs_hi "users" "s").1 "users" "s" "" = Some e
    /\ NotFound e.
Proof.
  apply (Delete_then_Read_NotFound db fs_hi "users" "s" "").
  - is_name.
  - is_name.
  - intros m n E. refute E.
  - intros e m _ E. refute E.
  - evaluate.
Defined.

(** ** C7 *)

(** C7 as stated fails: in the directory of the demonstration, which holds
    the file [main.go], neither [main.go/missing] nor [main.go/missing.json]
    exists, and [Read] fails with "not a directory", which is not a
    "not found" error. *)
Lemma Read_through_file_not_NotFound :
  Stat fs_repo "main.go/missing"
  = (None, Some (PathError "stat" "main.go/missing" ENOTDIR))
  /\ Stat fs_repo "main.go/missing.json"
     = (None, Some (PathError "stat" "main.go/missing.json" ENOTDIR))
  /\ Read repo fs_repo "main.go" "missing" ""
     = Some (PathError "stat" "main.go/missing" ENOTDIR)
  /\ ~ NotFound (PathError "stat" "main.go/missing" ENOTDIR).
Proof.
  repeat split; try evaluate.
  intros [E|[path E]]; [vm_compute in E|]; discriminate E.
Qed.

(** C7, amended: when neither the bare path nor the path with [.json]
    exists, [Read] with non-empty names fails, handing nothing to the caller
    but the error.  The error is "not found" when the lookup of the bare
    path fails for want of an entry; it is "not a directory" on the bare
    path when an element of that path is a regular file. *)
Theorem Read_absent_record d fs c r v :
  c <> "" -> r <> "" ->
  (forall n, walk (tree fs) (resolve (cwd fs) (recordPath d c r)) <> inr n) ->
  (forall n, walk (tree fs) (resolve (cwd fs) (recordPath d c r +:+ ".json"))
             <> inr n) ->
  exists e,
    Read d fs c r v = Some e
    /\ (walk (tree fs) (resolve (cwd fs) (recordPath d c r)) = inl ENOENT ->
        NotFound e)
    /\ (walk (tree fs) (resolve (cwd fs) (recordPath d c r)) = inl ENOTDIR ->
        e = PathError "stat" (recordPath d c r) ENOTDIR)
    /\ (NotFound e \/ e = PathError "stat" (recordPath d c r) ENOTDIR).
Proof.
  intros Hc Hr Hp Hq.
  destruct (walk (tree fs) (resolve (cwd fs) (recordPath d c r)))
    as [e|n] eqn:Ep; [|by destruct (Hp n)].
  destruct (walk_errno _ _ _ Ep) as [-> | ->].
  - rewrite (Read_missing d fs c r v Hc Hr Ep Hq). eexists. split; [done|].
    repeat split; [by left|done|left; by left].
  - rewrite (Read_obstructed d fs c r v Hc Hr Ep). eexists. split; [done|].
    repeat split; [done|by right].
Qed.

Lemma Read_absent_record_witness :
  exists e,
    Read db fs_db "users" "missing" "" = Some e /\ NotFound e.
Proof.
  assert (forall n, walk (tree fs_db)
                      (resolve (cwd fs_db) (recordPath db "users" "missing"))
                    <> inr n) as Hp
    by (intros n E; refute E).
  assert (forall n, walk (tree fs_db)
                      (resolve (cwd fs_db)
                               (recordPath db "users" "missing" +:+ ".json"))
                    <> inr n) as Hq
    by (intros n E; refute E).
  destruct (Read_absent_record db fs_db "users" "missing" ""
              ltac:(done) ltac:(done) Hp Hq) as (e & E & Hnf & _).
  exists e. split; [done|]. apply Hnf. evaluate.
Defined.

(** ** C8 *)

(** C8 as stated fails: a collection directory that holds a directory (here
    the collection [users/archive] inside [users]) makes [ReadAll] return an
    error and no records, though the collection directory exists. *)
Lemma ReadAll_fails_on_subdirectory :
  Stat fs_nested "db/users" = (Some {| Mode := ModeDir |}, None)
  /\ ReadDir fs_nested "db/users" = (["Zoro.json"; "archive"], None)
  /\ ReadAll db fs_nested "users"
     = ([], Some (PathError "read" "db/users/archive" EISDIR)).
Proof. repeat split; evaluate. Qed.

(** C8, amended: with a non-empty collection name, [ReadAll] fails with a
    "not found" error when the lookup of the collection directory fails for
    want of an entry; when the directory exists and holds regular files
    only (under names a directory can hold), [ReadAll] returns, in the order
    of the file names, the content of every file of the directory. *)
Theorem ReadAll_collection d fs c :
  c <> "" ->
  (walk (tree fs) (resolve (cwd fs) (dirPath d c)) = inl ENOENT ->
   exists e, ReadAll d fs c = ([], Some e) /\ NotFound e)
  /\ (forall m,
        walk (tree fs) (resolve (cwd fs) (dirPath d c)) = inr (Dir m) ->
        (forall x n, m !! x = Some n ->
                     valid_name x /\ exists data, n = File data) ->
        exists names records,
          ReadDir fs (dirPath d c) = (names, None)
          /\ ReadAll d fs c = (records, None)
          /\ Forall2 (fun x data => m !! x = Some (File data)) names records
          /\ forall x data, m !! x = Some (File data) -> data ∈ records).
Proof.
  intros Hc. split.
  - by apply ReadAll_missing.
  - intros m. by apply ReadAll_files.
Qed.

Lemma ReadAll_collection_witness :
  (exists e, ReadAll db fs_db "users" = ([], Some e) /\ NotFound e)
  /\ (exists names records,
        ReadDir fs_two (dirPath db "users") = (names, None)
        /\ ReadAll db fs_two "users" = (records, None)
        /\ Forall2 (fun x data => two_files !! x = Some (File data))
                   names records
        /\ forall x data, two_files !! x = Some (File data) -> data ∈ records).
Proof.
  split.
  - apply (ReadAll_collection db fs_db "users"); [done|]. evaluate.
  - apply (ReadAll_collection db fs_two "users"); [done| |].
    + evaluate.
    + intros x n Hx. unfold two_files in Hx.
      apply lookup_insert_Some in Hx as [[<- <-]|[_ Hx]].
      { split; [is_name|by eexists]. }
      apply lookup_singleton_Some in Hx as [<- <-].
      split; [is_name|by eexists].
Defined.

(** ** C9 *)

(** C9: after a successful [Write], the value was accepted by the encoder
    and the final file holds exactly the tab-indented encoding followed by
    one newline byte. *)
Theorem Write_stores_indented_JSON d fs c r v fs' :
  Write d fs c r v = (fs', None) ->
  exists b,
    json.MarshalIndent v "" (str TAB) = (b, None)
    /\ ReadFile fs' (fnlPath d c r) = (b +:+ str LF, None).
Proof.
  intros (b & Eb & Hcwd & Hne & Ew & _)%Write_ok_effect.
  exists b. split; [done|]. apply ReadFile_found; [done|]. by rewrite Hcwd.
Qed.

Lemma Write_stores_indented_JSON_witness :
  exists b,
    json.MarshalIndent zoro "" (str TAB) = (b, None)
    /\ ReadFile fs_zoro (fnlPath db "users" "Zoro") = (b +:+ str LF, None).
Proof.
  apply (Write_stores_indented_JSON db fs_db "users" "Zoro" zoro fs_zoro).
  evaluate.
Defined.

(** ** C10 *)

(** C10: a successful [Write] leaves the working directory and every file
    at a place other than the final and the temporary path as it was:
    the same content where there was a file, no file where there was none.
    The temporary path is gone afterwards.  In particular every record
    whose final path is another one keeps its content. *)
Theorem Write_changes_only_final_path d fs c r v fs' :
  Write d fs c r v = (fs', None) ->
  cwd fs' = cwd fs
  /\ (forall q, q <> resolve (cwd fs) (fnlPath d c r) ->
                q <> resolve (cwd fs) (tmpPath d c r) ->
                file_at (tree fs') q = file_at (tree fs) q)
  /\ walk (tree fs') (resolve (cwd fs) (tmpPath d c r)) = inl ENOENT
  /\ (forall c' r',
        c' <> "" ->
        resolve (cwd fs) (fnlPath d c' r') <> resolve (cwd fs) (fnlPath d c r) ->
        file_at (tree fs') (resolve (cwd fs) (fnlPath d c' r'))
        = file_at (tree fs) (resolve (cwd fs) (fnlPath d c' r'))).
Proof.
  intros E. pose proof (Write_ok_inv _ _ _ _ _ _ E) as (Hc & _).
  apply Write_ok_effect in E as (b & _ & Hcwd & _ & _ & Etmp & Hframe).
  repeat split; try done.
  intros c' r' Hc' Hne. apply Hframe; [done|].
  destruct (Write_paths (cwd fs) d c r Hc) as (parent & y & _ & _ & ->).
  destruct (Write_paths (cwd fs) d c' r' Hc') as (parent' & y' & _ & -> & _).
  intros [_ E]%app_inj_tail. by apply json_name_not_tmp in E.
Qed.

Lemma Write_changes_only_final_path_witness :
  file_at (tree (Write db fs_zoro "users" "Sabo" sabo).1)
          (resolve (cwd fs_zoro) (fnlPath db "users" "Zoro"))
  = file_at (tree fs_zoro) (resolve (cwd fs_zoro) (fnlPath db "users" "Zoro")).
Proof.
  destruct (Write_changes_only_final_path db fs_zoro "users" "Sabo" sabo
              (Write db fs_zoro "users" "Sabo" sabo).1) as (_ & _ & _ & H).
  - evaluate.
  - apply H; [done|]. intros E. refute E.
Defined.

End claims.

(** * More about the driver

    Closed statements about the example states are settled by running the
    model. *)

Ltac computes := vm_compute; reflexivity.
Ltac refuted H := vm_compute in H; discriminate H.
Ltac plain_name := vm_compute; repeat split; congruence.

(** * The tree as nested maps *)

Section surgery.
Import os.
Implicit Types (t n : node) (p q : list string) (m : gmap string node).

Lemma put_at_found t p n0 n : walk t p = inr n0 -> exists t', put_at t p n = inr t'.
Proof.
  revert t. induction p as [|x p IH]; intros t E; simpl in *; [eauto|].
  destruct t as [|m]; [done|]. destruct (m !! x) as [t0|] eqn:Ex; [|done].
  destruct (IH _ E) as [t' ->]. eauto.
Qed.

Lemma put_at_same t p n : walk t p = inr n -> put_at t p n = inr t.
Proof.
  revert t. induction p as [|x p IH]; intros t E; simpl in *; [congruence|].
  destruct t as [|m]; [done|]. destruct (m !! x) as [t0|] eqn:Ex; [|done].
  rewrite (IH _ E). by rewrite insert_id.
Qed.

Lemma put_at_twice t p n1 n2 t1 :
  put_at t p n1 = inr t1 -> put_at t1 p n2 = put_at t p n2.
Proof.
  revert t t1. induction p as [|x p IH]; intros t t1 E; simpl in *; [done|].
  destruct t as [|m]; [done|].
  destruct (m !! x) as [t0|] eqn:Ex.
  - destruct (put_at t0 p n1) as [|t0'] eqn:E0; [done|]. simplify_eq.
    rewrite lookup_insert_eq. rewrite (IH _ _ E0).
    destruct (put_at t0 p n2); [done|]. by rewrite insert_insert_eq.
  - destruct p; [|done]. simplify_eq. rewrite lookup_insert_eq. simpl.
    by rewrite insert_insert_eq.
Qed.

Lemma put_at_child t p m x n :
  walk t p = inr (Dir m) -> put_at t (p ++ [x]) n = put_at t p (Dir (<[x := n]> m)).
Proof.
  revert t. induction p as [|y p IH]; intros t E; simpl in *.
  - simplify_eq. by destruct (m !! x).
  - destruct t as [|m0]; [done|]. destruct (m0 !! y) as [t0|] eqn:Ey; [|done].
    by rewrite (IH _ E).
Qed.

Lemma remove_at_child t p m x :
  walk t p = inr (Dir m) -> put_at t p (Dir (delete x m)) = inr (remove_at t (p ++ [x])).
Proof.
  revert t. induction p as [|y p IH]; intros t E; simpl in *.
  - by simplify_eq.
  - destruct t as [|m0]; [done|]. destruct (m0 !! y) as [t0|] eqn:Ey; [|done].
    rewrite (IH _ E). by destruct (p ++ [x]) eqn:Epx; [destruct p|].
Qed.

Lemma mkdir_all_found t p m : walk t p = inr (Dir m) -> mkdir_all t p = inr t.
Proof.
  revert t. induction p as [|y p IH]; intros t E; simpl in *.
  - by simplify_eq.
  - destruct t as [|m0]; [done|]. destruct (m0 !! y) as [t0|] eqn:Ey; [|done].
    simpl. rewrite (IH _ E). by rewrite insert_id.
Qed.

Lemma mkdir_all_child t p m x :
  walk t p = inr (Dir m) -> m !! x = None ->
  mkdir_all t (p ++ [x]) = put_at t p (Dir (<[x := Dir ∅]> m)).
Proof.
  revert t. induction p as [|y p IH]; intros t E Hx; simpl in *.
  - simplify_eq. by rewrite Hx.
  - destruct t as [|m0]; [done|]. destruct (m0 !! y) as [t0|] eqn:Ey; [|done].
    simpl. by rewrite (IH _ E).
Qed.

End surgery.

(** * What a successful Write does *)

Section exact.
Import os.
Implicit Types (fs : FS) (t n : node) (p q : list string) (d : Driver)
  (m R : gmap string node).

Lemma tmp_valid r : valid_name r -> valid_name ((r +:+ ".json") +:+ ".tmp").
Proof. intros Hr. by repeat apply valid_name_ext. Qed.

Lemma Write_valid_paths cwd d c r :
  valid_name r ->
  fnlPath d c r <> ""
  /\ resolve cwd (fnlPath d c r) = resolve cwd (dirPath d c) ++ [r +:+ ".json"]
  /\ resolve cwd (tmpPath d c r)
     = resolve cwd (dirPath d c) ++ [(r +:+ ".json") +:+ ".tmp"].
Proof.
  intros Hr. assert (valid_name (r +:+ ".json")) as Hj by by apply valid_name_ext.
  destruct (Join_valid_path cwd [dirPath d c] (r +:+ ".json") ".tmp" Hj eq_refl)
    as (parent & Hne & Pf & Pt & _); [done|].
  change (filepath.Join ([dirPath d c] ++ [r +:+ ".json"])) with (fnlPath d c r) in *.
  assert (resolve cwd (fnlPath d c r) = resolve cwd (dirPath d c) ++ [r +:+ ".json"])
    as E.
  { unfold fnlPath. apply resolve_Join_valid. by constructor. }
  repeat split; [done|done|]. unfold tmpPath. rewrite Pt.
  rewrite Pf in E. by apply app_inj_tail in E as [-> _].
Qed.

Lemma tmp_not_fnl (r : string) : (r +:+ ".json") +:+ ".tmp" <> r +:+ ".json".
Proof. intros E. symmetry in E. by apply name_not_ext in E. Qed.

Lemma Write_in_collection d fs c r v b fs1 m :
  c <> "" -> valid_name r ->
  MkdirAll fs (dirPath d c) = (fs1, None) ->
  walk (tree fs1) (resolve (cwd fs) (dirPath d c)) = inr (Dir m) ->
  json.MarshalIndent v "" (str TAB) = (b, None) ->
  (forall m', m !! (r +:+ ".json") <> Some (Dir m')) ->
  (forall m', m !! ((r +:+ ".json") +:+ ".tmp") <> Some (Dir m')) ->
  exists t',
    put_at (tree fs1) (resolve (cwd fs) (dirPath d c))
           (Dir (stored m r (b +:+ str LF))) = inr t'
    /\ Write d fs c r v = (set_tree fs1 t', None).
Proof.
  intros Hc Hr Em Ed Eb Hf Ht.
  pose proof Hr as (_ & Hrne & _).
  destruct (Write_valid_paths (cwd fs) d c r Hr) as (Hfne & Pf & Pt).
  apply MkdirAll_inv in Em as H1. destruct H1 as [(_ & _ & Hcwd & _)|(? & ? & _)]; [|done].
  set (pc := resolve (cwd fs) (dirPath d c)) in *.
  set (fnl := r +:+ ".json") in *. set (tmp := fnl +:+ ".tmp") in *.
  set (data := b +:+ str LF).
  (* the temporary file *)
  destruct (put_at_found (tree fs1) pc (Dir m) (Dir (<[tmp := File data]> m)) Ed)
    as [t2 E2].
  assert (WriteFile fs1 (tmpPath d c r) data = (set_tree fs1 t2, None)) as Ew.
  { unfold WriteFile. case_decide as E0; [by apply app_not_empty in E0|].
    rewrite Hcwd, Pt, walk_app, Ed. simpl.
    rewrite (put_at_child _ _ m) by done. rewrite E2.
    destruct (m !! tmp) as [[|m']|] eqn:E; try done. by destruct (Ht m'). }
  assert (walk t2 pc = inr (Dir (<[tmp := File data]> m))) as Ed2
    by by eapply walk_put_at.
  (* the rename *)
  destruct (put_at_found (tree fs1) pc (Dir m) (Dir (stored m r data)) Ed)
    as [t' E'].
  exists t'. split; [done|].
  assert (fnl <> tmp) as Hft by (intros E; symmetry in E; by apply tmp_not_fnl in E).
  assert (Rename (set_tree fs1 t2) (tmpPath d c r) (fnlPath d c r)
          = (set_tree fs1 t', None)) as Er.
  { unfold Rename. case_decide as E0.
    { destruct E0 as [E0|E0]; [by apply app_not_empty in E0|done]. }
    simpl. rewrite Hcwd, Pt, Pf. fold pc.
    assert (walk t2 (pc ++ [fnl]) = match m !! fnl with
                                    | Some n => inr n | None => inl ENOENT end) as Ef.
    { rewrite walk_app, Ed2. simpl. by rewrite lookup_insert_ne. }
    assert (walk t2 (pc ++ [tmp]) = inr (File data)) as Et.
    { rewrite walk_app, Ed2. simpl. by rewrite lookup_insert_eq. }
    assert (sys_rename (set_tree fs1 t2) (pc ++ [tmp]) (pc ++ [fnl])
            = inr (set_tree fs1 t')) as Es.
    { unfold sys_rename, parent_dir. simpl.
      rewrite !removelast_last, Ed2, Et.
      case_decide as E1; [by apply app_inj_tail in E1 as [_ ?]|].
      case_decide as E2'; [by apply snoc_not_prefix in E2'|].
      case_decide as E3; [destruct E3 as [E3|E3]; by destruct pc|].
      assert (put_at (remove_at t2 (pc ++ [tmp])) (pc ++ [fnl]) (File data)
              = inr t') as Ep.
      { pose proof (remove_at_child t2 pc _ tmp Ed2) as Erm.
        rewrite (put_at_child _ _ (delete tmp (<[tmp := File data]> m))).
        2:{ by eapply walk_put_at. }
        rewrite (put_at_twice _ _ _ _ _ Erm), (put_at_twice _ _ _ _ _ E2).
        by rewrite delete_insert_eq. }
      rewrite Ep, Ef. destruct (m !! fnl) as [[|m']|] eqn:E; try done.
      by destruct (Hf m'). }
    rewrite Es, Ef. destruct (m !! fnl) as [[|m']|] eqn:E; try done.
    by destruct (Hf m'). }
  unfold Write. do 2 (case_decide; [done|]).
  fold (dirPath d c). fold (fnlPath d c r). fold (tmpPath d c r).
  rewrite Em, Eb. fold data. by rewrite Ew, Er.
Qed.

Lemma stored_fnl m r data : stored m r data !! (r +:+ ".json") = Some (File data).
Proof. unfold stored. by rewrite lookup_insert_eq. Qed.

Lemma stored_tmp m r data : stored m r data !! ((r +:+ ".json") +:+ ".tmp") = None.
Proof.
  unfold stored. rewrite lookup_insert_ne by (symmetry; apply tmp_not_fnl).
  by rewrite lookup_delete_eq.
Qed.

Lemma stored_stored m r data1 data2 :
  stored (stored m r data1) r data2 = stored m r data2.
Proof.
  unfold stored. rewrite delete_insert_ne by apply tmp_not_fnl.
  by rewrite insert_insert_eq, delete_delete_eq.
Qed.

(** A successful [Write] went through a collection directory that has no
    directory at the final and the temporary place. *)
Lemma Write_ok_collection d fs c r v fs' :
  valid_name r -> Write d fs c r v = (fs', None) ->
  exists fs1 m b,
    c <> ""
    /\ MkdirAll fs (dirPath d c) = (fs1, None)
    /\ cwd fs1 = cwd fs
    /\ walk (tree fs1) (resolve (cwd fs) (dirPath d c)) = inr (Dir m)
    /\ json.MarshalIndent v "" (str TAB) = (b, None)
    /\ (forall m', m !! (r +:+ ".json") <> Some (Dir m'))
    /\ (forall m', m !! ((r +:+ ".json") +:+ ".tmp") <> Some (Dir m')).
Proof.
  intros Hr E. apply Write_ok_inv in E as (Hc & _ & fs1 & b & fs2 & Em & Eb & Ew & Er).
  destruct (Write_valid_paths (cwd fs) d c r Hr) as (Hfne & Pf & Pt).
  apply MkdirAll_inv in Em as H1.
  destruct H1 as [(_ & _ & Hcwd & Emk)|(? & ? & _)]; [|done].
  destruct (walk_mkdir_all _ _ _ Emk) as [m Ed].
  exists fs1, m, b. repeat split; try done.
  - (* the final place *)
    intros m' Ef.
    apply WriteFile_inv in Ew as [(_ & _ & Hcwd2 & Ep & _)|(? & ? & _)]; [|done].
    apply Rename_inv in Er as [(_ & _ & _ & Es)|(? & ? & _)]; [|done].
    rewrite Hcwd2, Hcwd, Pt, Pf in Es. rewrite Hcwd, Pt in Ep.
    set (pc := resolve (cwd fs) (dirPath d c)) in *.
    assert (walk (tree fs2) (pc ++ [(r +:+ ".json") +:+ ".tmp"])
            = inr (File (b +:+ str LF))) as Et by by eapply walk_put_at.
    assert (walk (tree fs2) pc = inr (Dir (<[(r +:+ ".json") +:+ ".tmp"
                                             := File (b +:+ str LF)]> m))) as Ed2.
    { rewrite (put_at_child _ _ m) in Ep by done. by eapply walk_put_at. }
    assert (walk (tree fs2) (pc ++ [r +:+ ".json"]) = inr (Dir m')) as Ef2.
    { rewrite walk_app, Ed2. simpl.
      rewrite lookup_insert_ne by apply tmp_not_fnl. by rewrite Ef. }
    unfold sys_rename, parent_dir in Es. rewrite !removelast_last, Ed2, Et, Ef2 in Es.
    case_decide as E1; [by apply app_inj_tail in E1 as [_ ?%tmp_not_fnl]|].
    by repeat case_decide.
  - (* the temporary place *)
    intros m' Et.
    apply WriteFile_inv in Ew as [(_ & _ & _ & _ & Hn)|(? & ? & _)]; [|done].
    apply (Hn m'). rewrite Hcwd, Pt, walk_app, Ed. simpl. by rewrite Et.
Qed.

(** The tree a successful [Write] leaves. *)
Lemma Write_ok_tree d fs c r v fs' :
  valid_name r -> Write d fs c r v = (fs', None) ->
  exists fs1 m b,
    MkdirAll fs (dirPath d c) = (fs1, None)
    /\ cwd fs1 = cwd fs
    /\ walk (tree fs1) (resolve (cwd fs) (dirPath d c)) = inr (Dir m)
    /\ json.MarshalIndent v "" (str TAB) = (b, None)
    /\ cwd fs' = cwd fs
    /\ put_at (tree fs1) (resolve (cwd fs) (dirPath d c))
              (Dir (stored m r (b +:+ str LF))) = inr (tree fs').
Proof.
  intros Hr E.
  destruct (Write_ok_collection _ _ _ _ _ _ Hr E)
    as (fs1 & m & b & Hc & Em & Hcwd & Ed & Eb & Hf & Ht).
  destruct (Write_in_collection d fs c r v b fs1 m Hc Hr Em Ed Eb Hf Ht)
    as (t' & Ep & Ew).
  rewrite Ew in E. simplify_eq. exists fs1, m, b. by repeat split.
Qed.

Lemma MkdirAll_found fs path m :
  path <> "" -> walk (tree fs) (resolve (cwd fs) path) = inr (Dir m) ->
  MkdirAll fs path = (fs, None).
Proof.
  intros Hne E. unfold MkdirAll. case_decide; [done|].
  by rewrite (mkdir_all_found _ _ m), set_tree_id.
Qed.

Lemma set_tree_set_tree fs t t' : set_tree (set_tree fs t) t' = set_tree fs t'.
Proof. done. Qed.

Lemma FS_eq fs fs' : cwd fs = cwd fs' -> tree fs = tree fs' -> fs = fs'.
Proof. destruct fs, fs'; simpl; congruence. Qed.

(** X7: the last value wins.  After a successful [Write] of a record, a
    second [Write] of the same record with a value the encoder accepts gives
    the very result, filesystem and error, that it gives without the first:
    nothing of the first value is left. *)
Theorem Write_keeps_last_value d fs c r v1 v2 fs1 b2 :
  valid_name r ->
  Write d fs c r v1 = (fs1, None) ->
  json.MarshalIndent v2 "" (str TAB) = (b2, None) ->
  Write d fs1 c r v2 = Write d fs c r v2.
Proof.
  intros Hr E1 Eb2.
  destruct (Write_ok_tree _ _ _ _ _ _ Hr E1)
    as (fsA & m & b1 & Em & HcwdA & Ed & Eb1 & Hcwd1 & Ep1).
  destruct (Write_ok_collection _ _ _ _ _ _ Hr E1)
    as (fsA' & m' & b1' & Hc & Em' & _ & Ed' & _ & Hf & Ht).
  rewrite Em in Em'. simplify_eq. rewrite Ed in Ed'. simplify_eq.
  pose proof (dirPath_not_empty d c Hc) as Hne.
  (* on the original state *)
  destruct (Write_in_collection d fs c r v2 b2 fsA' m' Hc Hr Em Ed Eb2 Hf Ht)
    as (t2 & Ep2 & ->).
  (* on the state after the first call *)
  assert (walk (tree fs1) (resolve (cwd fs) (dirPath d c)) = inr (Dir (stored m' r (b1 +:+ str LF)))) as Ed1
    by by eapply walk_put_at.
  assert (MkdirAll fs1 (dirPath d c) = (fs1, None)) as Em1.
  { eapply MkdirAll_found; [done|]. rewrite Hcwd1. apply Ed1. }
  rewrite <- Hcwd1 in Ed1.
  destruct (Write_in_collection d fs1 c r v2 b2 fs1 _ Hc Hr Em1 Ed1 Eb2)
    as (t3 & Ep3 & ->).
  { intros ?. by rewrite stored_fnl. }
  { intros ?. by rewrite stored_tmp. }
  f_equal. apply FS_eq; simpl; [congruence|].
  rewrite Hcwd1, stored_stored in Ep3.
  rewrite (put_at_twice _ _ _ _ _ Ep1) in Ep3. congruence.
Qed.

Lemma Write_keeps_last_value_witness :
  Write db fs_zoro "users" "Zoro" sabo = Write db fs_db "users" "Zoro" sabo.
Proof.
  apply (Write_keeps_last_value db fs_db "users" "Zoro" zoro sabo fs_zoro
           (json.MarshalIndent sabo "" (str TAB)).1).
  - plain_name.
  - computes.
  - computes.
Defined.

Lemma mkdir_all_dir t p t' :
  mkdir_all t p = inr t' ->
  walk t' p = inr (Dir (match walk t p with inr (Dir m) => m | _ => ∅ end)).
Proof.
  revert t t'. induction p as [|y p IH]; intros t t' E; simpl in *.
  - destruct t; by simplify_eq.
  - destruct t as [|m0]; [done|].
    destruct (mkdir_all (default (Dir ∅) (m0 !! y)) p) as [|t0'] eqn:E0; [done|].
    simplify_eq. rewrite lookup_insert_eq. rewrite (IH _ _ E0).
    destruct (m0 !! y) as [t0|]; simpl; [done|]. by destruct p.
Qed.

Lemma append_inj_l (a b s : string) : a +:+ s = b +:+ s -> a = b.
Proof.
  revert b. induction a as [|x a IH]; intros [|y b] E; try done.
  - apply (f_equal String.length) in E. rewrite !length_app_s in E.
    simpl in E. lia.
  - apply (f_equal String.length) in E. rewrite !length_app_s in E.
    simpl in E. lia.
  - rewrite !app_cons_s in E. injection E as -> E. f_equal. by apply IH.
Qed.

Lemma resolve_dirPath cwd d c :
  valid_name c -> resolve cwd (dirPath d c) = resolve cwd (dir d) ++ [c].
Proof. intros Hc. apply resolve_Join_valid. by constructor. Qed.

(** [MkdirAll] of a collection directory inside an existing database
    directory. *)
Lemma MkdirAll_collection d fs c R :
  valid_name c ->
  walk (tree fs) (resolve (cwd fs) (dir d)) = inr (Dir R) ->
  (forall data, R !! c <> Some (File data)) ->
  exists t1,
    put_at (tree fs) (resolve (cwd fs) (dir d))
           (Dir (<[c := Dir (collection_of R c)]> R)) = inr t1
    /\ MkdirAll fs (dirPath d c) = (set_tree fs t1, None)
    /\ walk t1 (resolve (cwd fs) (dirPath d c)) = inr (Dir (collection_of R c)).
Proof.
  intros Hc ER Hfile. pose proof Hc as (_ & Hcne & _).
  pose proof (dirPath_not_empty d c Hcne) as Hne.
  destruct (put_at_found _ _ _ (Dir (<[c := Dir (collection_of R c)]> R)) ER)
    as [t1 E1].
  exists t1. split; [done|].
  assert (mkdir_all (tree fs) (resolve (cwd fs) (dirPath d c)) = inr t1) as Em.
  { rewrite resolve_dirPath by done. unfold collection_of in *.
    destruct (R !! c) as [[data|m]|] eqn:Ec.
    - by destruct (Hfile data).
    - rewrite insert_id in E1 by done.
      rewrite (put_at_same _ _ _ ER) in E1. simplify_eq.
      apply (mkdir_all_found _ _ m). rewrite walk_app, ER. simpl. by rewrite Ec.
    - by rewrite (mkdir_all_child _ _ R). }
  split.
  - unfold MkdirAll. case_decide; [done|]. by rewrite Em.
  - rewrite resolve_dirPath by done. rewrite walk_app.
    rewrite (walk_put_at _ _ _ _ E1). simpl. by rewrite lookup_insert_eq.
Qed.

(** [Write] into an existing database directory: the call succeeds and the
    database directory afterwards is [written]. *)
Lemma Write_exact d fs c r v b R :
  valid_name c -> valid_name r ->
  walk (tree fs) (resolve (cwd fs) (dir d)) = inr (Dir R) ->
  json.MarshalIndent v "" (str TAB) = (b, None) ->
  (forall data, R !! c <> Some (File data)) ->
  (forall m', collection_of R c !! (r +:+ ".json") <> Some (Dir m')) ->
  (forall m', collection_of R c !! ((r +:+ ".json") +:+ ".tmp") <> Some (Dir m')) ->
  exists t',
    put_at (tree fs) (resolve (cwd fs) (dir d))
           (Dir (written R c r (b +:+ str LF))) = inr t'
    /\ Write d fs c r v = (set_tree fs t', None).
Proof.
  intros Hc Hr ER Eb Hfile Hf Ht. pose proof Hc as (_ & Hcne & _).
  destruct (MkdirAll_collection d fs c R Hc ER Hfile) as (t1 & E1 & Em & Ed).
  destruct (Write_in_collection d fs c r v b _ _ Hcne Hr Em Ed Eb Hf Ht)
    as (t' & Ep & Ew).
  exists t'. split; [|done]. simpl in Ep.
  rewrite resolve_dirPath in Ep by done.
  rewrite (put_at_child _ _ (<[c := Dir (collection_of R c)]> R)) in Ep
    by by eapply walk_put_at.
  rewrite (put_at_twice _ _ _ _ _ E1), insert_insert_eq in Ep. done.
Qed.

(** X5: [Write] into an existing database directory succeeds whenever the
    names are plain, the encoder accepts the value, and nothing stands in
    the way ([writable]).  The working directory stays, and the tree
    afterwards is the old tree with the database directory replaced by
    [written]: the collection [c] holds what it held, with the record file
    bound to the encoding and the temporary name free; every other
    collection is as it was. *)
Theorem Write_succeeds d fs c r v b R :
  valid_name c -> valid_name r ->
  walk (tree fs) (resolve (cwd fs) d.(dir)) = inr (Dir R) ->
  json.MarshalIndent v "" (str TAB) = (b, None) ->
  writable R c r ->
  exists fs',
    Write d fs c r v = (fs', None)
    /\ cwd fs' = cwd fs
    /\ put_at (tree fs) (resolve (cwd fs) d.(dir))
              (Dir (written R c r (b +:+ str LF))) = inr (tree fs')
    /\ walk (tree fs') (resolve (cwd fs) d.(dir))
       = inr (Dir (written R c r (b +:+ str LF))).
Proof.
  intros Hc Hr ER Eb (Hfile & Hf & Ht).
  destruct (Write_exact d fs c r v b R Hc Hr ER Eb Hfile Hf Ht) as (t' & Ep & Ew).
  exists (set_tree fs t'). repeat split; try done. simpl. by eapply walk_put_at.
Qed.

Lemma Write_succeeds_witness :
  exists fs', Write db fs_db "users" "Zoro" zoro = (fs', None).
Proof.
  destruct (Write_succeeds db fs_db "users" "Zoro" zoro
              (json.MarshalIndent zoro "" (str TAB)).1 ∅) as (fs' & E & _).
  - plain_name.
  - plain_name.
  - computes.
  - computes.
  - repeat split; intros ? E; refuted E.
  - by exists fs'.
Defined.

End exact.

(** * Write, then ReadAll or Delete *)

Section compose.
Import os.
Implicit Types (fs : FS) (t n : node) (p q : list string) (d : Driver)
  (m R : gmap string node).

Lemma entries_found fs path m :
  walk (tree fs) (resolve (cwd fs) path) = inr (Dir m) -> entries fs path = m.
Proof. unfold entries. by intros ->. Qed.

(** The collection directory after a successful [Write]. *)
Lemma Write_ok_entries d fs c r v fs' :
  valid_name r -> Write d fs c r v = (fs', None) ->
  exists b,
    json.MarshalIndent v "" (str TAB) = (b, None)
    /\ c <> "" /\ cwd fs' = cwd fs
    /\ walk (tree fs') (resolve (cwd fs) (dirPath d c))
       = inr (Dir (stored (entries fs (dirPath d c)) r (b +:+ str LF))).
Proof.
  intros Hr E.
  destruct (Write_ok_tree _ _ _ _ _ _ Hr E)
    as (fs1 & m & b & Em & Hcwd1 & Ed & Eb & Hcwd & Ep).
  apply Write_ok_inv in E as (Hc & _).
  exists b. repeat split; try done.
  apply MkdirAll_inv in Em as [(_ & _ & _ & Emk)|(? & ? & _)]; [|done].
  apply mkdir_all_dir in Emk. rewrite Ed in Emk. simplify_eq.
  rewrite (walk_put_at _ _ _ _ Ep). done.
Qed.

(** X6: [Write], then [ReadAll].  After a successful [Write] of a record
    with a plain name into a collection that held regular files only (or
    did not exist), the collection directory holds what it held, with the
    record file bound and the temporary name free, and [ReadAll] returns the
    content of each of these files, in the order of their names; the new
    encoding is among them. *)
Theorem Write_then_ReadAll_lists_record d fs c r v fs' :
  valid_name r ->
  Write d fs c r v = (fs', None) ->
  (forall x n, entries fs (dirPath d c) !! x = Some n ->
               valid_name x /\ exists data, n = File data) ->
  exists b names records,
    json.MarshalIndent v "" (str TAB) = (b, None)
    /\ entries fs' (dirPath d c)
       = stored (entries fs (dirPath d c)) r (b +:+ str LF)
    /\ ReadDir fs' (dirPath d c) = (names, None)
    /\ ReadAll d fs' c = (records, None)
    /\ Forall2 (fun x data => entries fs' (dirPath d c) !! x = Some (File data))
               names records
    /\ b +:+ str LF ∈ records.
Proof.
  intros Hr E Hfiles.
  destruct (Write_ok_entries _ _ _ _ _ _ Hr E) as (b & Eb & Hc & Hcwd & Ed).
  rewrite <- Hcwd in Ed. pose proof (entries_found _ _ _ Ed) as Ee.
  destruct (ReadAll_files d fs' c _ Hc Ed) as (names & records & En & Er & HF & Hin).
  { intros x n. unfold stored.
    destruct (decide (x = r +:+ ".json")) as [->|Hx].
    - rewrite lookup_insert_eq. intros [= <-]. split; [|by eexists].
      by apply valid_name_ext.
    - rewrite lookup_insert_ne by done. intros Hl.
      apply lookup_delete_Some in Hl as [_ Hl]. by apply Hfiles. }
  exists b, names, records. rewrite Ee. repeat split; try done.
  apply (Hin (r +:+ ".json")). apply stored_fnl.
Qed.

Lemma Write_then_ReadAll_lists_record_witness :
  exists records,
    ReadAll db fs_zoro "users" = (records, None)
    /\ (json.MarshalIndent zoro "" (str TAB)).1 +:+ str LF ∈ records.
Proof.
  destruct (Write_then_ReadAll_lists_record db fs_db "users" "Zoro" zoro fs_zoro)
    as (b & names & records & Eb & _ & _ & Er & _ & Hin).
  - plain_name.
  - computes.
  - intros x n Hx.
    replace (entries fs_db (dirPath db "users")) with (∅ : gmap string os.node)
      in Hx by computes.
    by rewrite lookup_empty in Hx.
  - exists records. split; [done|]. by rewrite Eb.
Defined.

(** X10: a [Write] that fails in the encoder has already made the
    collection directory.  In an existing database directory without the
    collection [c], [Write] of a value the encoder refuses returns the
    encoder's error; before the call [ReadAll] of [c] fails with "not found",
    after it [ReadAll] succeeds with no records. *)
Theorem Write_encoder_error_leaves_collection d fs c r v R e b :
  valid_name c -> r <> "" ->
  walk (tree fs) (resolve (cwd fs) (dir d)) = inr (Dir R) ->
  R !! c = None ->
  json.MarshalIndent v "" (str TAB) = (b, Some e) ->
  exists fs',
    Write d fs c r v = (fs', Some e)
    /\ (exists e', ReadAll d fs c = ([], Some e') /\ NotFound e')
    /\ ReadAll d fs' c = ([], None).
Proof.
  intros Hc Hr ER Ec Eb. pose proof Hc as (_ & Hcne & _).
  destruct (MkdirAll_collection d fs c R Hc ER) as (t1 & E1 & Em & Ed).
  { intros data. by rewrite Ec. }
  exists (set_tree fs t1). repeat split.
  - unfold Write. do 2 (case_decide; [done|]). fold (dirPath d c).
    by rewrite Em, Eb.
  - apply ReadAll_missing; [done|].
    rewrite resolve_dirPath, walk_app, ER by done. simpl. by rewrite Ec.
  - unfold collection_of in Ed. rewrite Ec in Ed.
    destruct (ReadAll_files d (set_tree fs t1) c ∅ Hcne Ed)
      as (names & records & En & -> & HF & _); [done|].
    rewrite (ReadDir_found _ _ ∅) in En by (by apply dirPath_not_empty || done).
    rewrite map_to_list_empty in En. simpl in En. simplify_eq.
    by apply Forall2_nil_inv_l in HF as ->.
Qed.

Lemma Write_encoder_error_leaves_collection_witness :
  exists fs',
    Write db fs_db "users" "x" VChan = (fs', Some (UnsupportedTypeError "chan int"))
    /\ (exists e', ReadAll db fs_db "users" = ([], Some e') /\ NotFound e')
    /\ ReadAll db fs' "users" = ([], None).
Proof.
  apply (Write_encoder_error_leaves_collection db fs_db "users" "x" VChan ∅ (UnsupportedTypeError "chan int") "").
  - plain_name.
  - done.
  - computes.
  - computes.
  - computes.
Defined.

(** X9: [Delete] undoes [Write].  When nothing was at the bare, the final
    and the temporary name of a record, a successful [Write] of the record
    followed by [Delete] of it succeeds and leaves the filesystem exactly as
    [MkdirAll] of the collection directory leaves the original one: as it
    was, but for a collection directory that [Write] had to make. *)
Theorem Delete_undoes_Write d fs c r v fs1 :
  valid_name c -> valid_name r ->
  Write d fs c r v = (fs1, None) ->
  entries fs (dirPath d c) !! r = None ->
  entries fs (dirPath d c) !! (r +:+ ".json") = None ->
  entries fs (dirPath d c) !! ((r +:+ ".json") +:+ ".tmp") = None ->
  Delete d fs1 c r = ((MkdirAll fs (dirPath d c)).1, None).
Proof.
  intros Hc Hr E Hb Hf Ht.
  destruct (Write_ok_tree _ _ _ _ _ _ Hr E)
    as (fsA & m & b & Em & HcwdA & Ed & Eb & Hcwd & Ep).
  rewrite Em. simpl.
  assert (m = entries fs (dirPath d c)) as ->.
  { apply MkdirAll_inv in Em as [(_ & _ & _ & Emk)|(? & ? & _)]; [|done].
    apply mkdir_all_dir in Emk. rewrite Ed in Emk. by simplify_eq. }
  set (m := entries fs (dirPath d c)) in *.
  set (pc := resolve (cwd fs) (dirPath d c)) in *.
  set (data := b +:+ str LF) in *.
  destruct (Join_valid_path (cwd fs) [d.(dir); c] r ".json" Hr eq_refl)
    as (parent & Hd & Pp & Pq & Lp & Lq); [done|].
  change (filepath.Join ([d.(dir); c] ++ [r])) with (recordPath d c r) in *.
  assert (parent = pc) as ->.
  { pose proof (recordPath_json (cwd fs) d c r Hc Hr) as Ej.
    destruct (Write_valid_paths (cwd fs) d c r Hr) as (_ & Pf & _).
    rewrite Pq, Pf in Ej. by apply app_inj_tail in Ej as [-> _]. }
  assert (recordPath d c r +:+ ".json" <> "") as Hdj by by apply app_not_empty.
  assert (walk (tree fs1) pc = inr (Dir (stored m r data))) as Ed1
    by by eapply walk_put_at.
  assert (r <> r +:+ ".json") as Hrj by by apply name_not_ext.
  assert (r <> (r +:+ ".json") +:+ ".tmp") as Hrt.
  { rewrite app_assoc_s. by apply name_not_ext. }
  unfold Delete. rewrite Join_nested by done. fold (recordPath d c r).
  rewrite stat_spec by done. rewrite Hcwd, Pp, walk_app, Ed1. simpl.
  unfold stored at 1. rewrite lookup_insert_ne, lookup_delete_ne, Hb by done.
  rewrite (Stat_found _ _ (File data)).
  2: done.
  2:{ rewrite Hcwd, Pq, walk_app, Ed1. simpl. by rewrite stored_fnl. }
  simpl.
  rewrite (RemoveAll_name _ _ pc (r +:+ ".json")); try done.
  2:{ by apply valid_name_ext. }
  2:{ by rewrite Hcwd. }
  rewrite walk_app, Ed1. simpl. rewrite stored_fnl.
  f_equal. apply FS_eq; simpl; [congruence|].
  pose proof (remove_at_child _ _ _ (r +:+ ".json") Ed1) as Erm.
  rewrite (put_at_twice _ _ _ _ _ Ep) in Erm.
  unfold stored in Erm. rewrite delete_insert_eq in Erm.
  rewrite (delete_id _ ((r +:+ ".json") +:+ ".tmp")) in Erm by done.
  rewrite delete_id in Erm by done.
  rewrite (put_at_same _ _ _ Ed) in Erm. congruence.
Qed.

Lemma Delete_undoes_Write_witness :
  Delete db (Write db fs_two "users" "c" (VString "hi")).1 "users" "c"
  = (fs_two, None).
Proof.
  apply (Delete_undoes_Write db fs_two "users" "c" (VString "hi")).
  - plain_name.
  - plain_name.
  - computes.
  - computes.
  - computes.
  - computes.
Defined.

End compose.

(** * Two records *)

Section commute.
Import os.
Implicit Types (fs : FS) (t n : node) (p q : list string) (d : Driver)
  (m R : gmap string node).

Lemma collection_of_written R c r data :
  collection_of (written R c r data) c = stored (collection_of R c) r data.
Proof. unfold written, collection_of at 1. by rewrite lookup_insert_eq. Qed.

Lemma collection_of_written_ne R c r data c' :
  c <> c' -> collection_of (written R c r data) c' = collection_of R c'.
Proof. intros Hc. unfold written, collection_of. by rewrite lookup_insert_ne. Qed.

Lemma stored_lookup_ne m r data r' x :
  r <> r' -> x = r' +:+ ".json" \/ x = (r' +:+ ".json") +:+ ".tmp" ->
  forall m', stored m r data !! x = Some (Dir m') -> m !! x = Some (Dir m').
Proof.
  intros Hr Hx m'. unfold stored.
  rewrite lookup_insert_ne.
  - by intros [_ ?]%lookup_delete_Some.
  - destruct Hx as [-> | ->].
    + by intros ?%append_inj_l.
    + apply json_name_not_tmp.
Qed.

Lemma writable_written R c1 r1 data c2 r2 :
  (c1, r1) <> (c2, r2) -> writable R c2 r2 -> writable (written R c1 r1 data) c2 r2.
Proof.
  intros Hne (Hfile & Hf & Ht). destruct (decide (c1 = c2)) as [->|Hc].
  - assert (r1 <> r2) as Hr by congruence.
    unfold writable. rewrite collection_of_written. repeat split.
    + intros ?. unfold written. by rewrite lookup_insert_eq.
    + intros m' E. apply (stored_lookup_ne _ _ _ r2) in E; [|done|by left].
      by apply Hf in E.
    + intros m' E. apply (stored_lookup_ne _ _ _ r2) in E; [|done|by right].
      by apply Ht in E.
  - unfold writable. rewrite collection_of_written_ne by done. repeat split; [|done..].
    intros ?. unfold written. by rewrite lookup_insert_ne.
Qed.

Lemma stored_comm m r1 data1 r2 data2 :
  r1 <> r2 ->
  stored (stored m r1 data1) r2 data2 = stored (stored m r2 data2) r1 data1.
Proof.
  intros Hr. unfold stored.
  assert (r1 +:+ ".json" <> r2 +:+ ".json") as Hff by by intros ?%append_inj_l.
  assert ((r1 +:+ ".json") +:+ ".tmp" <> (r2 +:+ ".json") +:+ ".tmp") as Htt
    by by intros ?%append_inj_l.
  pose proof (json_name_not_tmp r1 r2) as Hft.
  pose proof (json_name_not_tmp r2 r1) as Htf.
  rewrite !delete_insert_ne by done.
  rewrite (insert_insert_ne _ (r2 +:+ ".json")) by done.
  by rewrite (delete_delete _ ((r2 +:+ ".json") +:+ ".tmp")).
Qed.

Lemma written_comm R c1 r1 data1 c2 r2 data2 :
  (c1, r1) <> (c2, r2) ->
  written (written R c1 r1 data1) c2 r2 data2
  = written (written R c2 r2 data2) c1 r1 data1.
Proof.
  intros Hne. destruct (decide (c1 = c2)) as [->|Hc].
  - assert (r1 <> r2) as Hr by congruence.
    unfold written at 1 3. rewrite !collection_of_written.
    unfold written. rewrite !insert_insert_eq. by rewrite stored_comm.
  - unfold written at 1 3. rewrite !collection_of_written_ne by done.
    unfold written. by rewrite insert_insert_ne.
Qed.

Lemma Write_two d fs R c1 r1 v1 b1 c2 r2 v2 b2 :
  valid_name c1 -> valid_name r1 -> valid_name c2 -> valid_name r2 ->
  (c1, r1) <> (c2, r2) ->
  walk (tree fs) (resolve (cwd fs) (dir d)) = inr (Dir R) ->
  json.MarshalIndent v1 "" (str TAB) = (b1, None) ->
  json.MarshalIndent v2 "" (str TAB) = (b2, None) ->
  writable R c1 r1 -> writable R c2 r2 ->
  exists fs1 t',
    Write d fs c1 r1 v1 = (fs1, None)
    /\ put_at (tree fs) (resolve (cwd fs) (dir d))
              (Dir (written (written R c1 r1 (b1 +:+ str LF)) c2 r2 (b2 +:+ str LF)))
       = inr t'
    /\ Write d fs1 c2 r2 v2 = (set_tree fs t', None).
Proof.
  intros Hc1 Hr1 Hc2 Hr2 Hne ER Eb1 Eb2 (Hx1 & Hf1 & Ht1) H2.
  destruct (Write_exact d fs c1 r1 v1 b1 R Hc1 Hr1 ER Eb1 Hx1 Hf1 Ht1)
    as (t1 & Ep1 & Ew1).
  exists (set_tree fs t1).
  assert (walk (tree (set_tree fs t1)) (resolve (cwd (set_tree fs t1)) (dir d))
          = inr (Dir (written R c1 r1 (b1 +:+ str LF)))) as ER1
    by by eapply walk_put_at.
  destruct (writable_written R c1 r1 (b1 +:+ str LF) c2 r2 Hne H2)
    as (Hx2 & Hf2 & Ht2).
  destruct (Write_exact d _ c2 r2 v2 b2 _ Hc2 Hr2 ER1 Eb2 Hx2 Hf2 Ht2)
    as (t2 & Ep2 & Ew2).
  exists t2. repeat split; [done| |done].
  simpl in Ep2. by rewrite (put_at_twice _ _ _ _ _ Ep1) in Ep2.
Qed.

(** X8: two records, either order.  For two different records with plain
    names, both storable in the database directory, and values the encoder
    accepts, the two [Write] calls succeed in either order and leave the
    same filesystem. *)
Theorem Writes_to_two_records_commute d fs R c1 r1 v1 b1 c2 r2 v2 b2 :
  valid_name c1 -> valid_name r1 -> valid_name c2 -> valid_name r2 ->
  (c1, r1) <> (c2, r2) ->
  walk (tree fs) (resolve (cwd fs) (dir d)) = inr (Dir R) ->
  json.MarshalIndent v1 "" (str TAB) = (b1, None) ->
  json.MarshalIndent v2 "" (str TAB) = (b2, None) ->
  writable R c1 r1 -> writable R c2 r2 ->
  exists fs1 fs2 fs',
    Write d fs c1 r1 v1 = (fs1, None) /\ Write d fs1 c2 r2 v2 = (fs', None)
    /\ Write d fs c2 r2 v2 = (fs2, None) /\ Write d fs2 c1 r1 v1 = (fs', None).
Proof.
  intros Hc1 Hr1 Hc2 Hr2 Hne ER Eb1 Eb2 H1 H2.
  destruct (Write_two d fs R c1 r1 v1 b1 c2 r2 v2 b2) as (fs1 & t' & E1 & Ep & E12);
    try done.
  destruct (Write_two d fs R c2 r2 v2 b2 c1 r1 v1 b1) as (fs2 & t'' & E2 & Ep' & E21);
    try done.
  exists fs1, fs2, (set_tree fs t'). repeat split; try done.
  rewrite E21. rewrite (written_comm _ c1 r1 _ c2 r2) in Ep by done. congruence.
Qed.

Lemma Writes_to_two_records_commute_witness :
  exists fs',
    Write db (Write db fs_db "users" "Zoro" zoro).1 "users" "Sabo" sabo
    = (fs', None)
    /\ Write db (Write db fs_db "users" "Sabo" sabo).1 "users" "Zoro" zoro
       = (fs', None).
Proof.
  destruct (Writes_to_two_records_commute db fs_db ∅ "users" "Zoro" zoro
              (json.MarshalIndent zoro "" (str TAB)).1 "users" "Sabo" sabo
              (json.MarshalIndent sabo "" (str TAB)).1)
    as (fs1 & fs2 & fs' & E1 & E12 & E2 & E21).
  - plain_name.
  - plain_name.
  - plain_name.
  - plain_name.
  - intros E. discriminate E.
  - computes.
  - computes.
  - computes.
  - repeat split; intros ? E; refuted E.
  - repeat split; intros ? E; refuted E.
  - exists fs'. by rewrite E1, E2.
Defined.

End commute.

(** * What Delete does *)

Section delete.
Import filepath os.
Implicit Types (fs : FS) (t n : node) (p q : list string) (d : Driver)
  (m R : gmap string node).

(** The two paths [Delete] and [Read] look at, for plain names. *)
Lemma record_paths cwd d c r :
  valid_name c -> valid_name r ->
  recordPath d c r <> ""
  /\ Join [d.(dir); Join [c; r]] = recordPath d c r
  /\ resolve cwd (recordPath d c r) = resolve cwd (dirPath d c) ++ [r]
  /\ resolve cwd (recordPath d c r +:+ ".json")
     = resolve cwd (dirPath d c) ++ [r +:+ ".json"]
  /\ last (split (recordPath d c r)) = Some r
  /\ last (split (recordPath d c r +:+ ".json")) = Some (r +:+ ".json").
Proof.
  intros Hc Hr.
  destruct (Join_valid_path cwd [d.(dir); c] r ".json" Hr eq_refl)
    as (parent & Hd & Pp & Pq & Lp & Lq); [done|].
  change (Join ([d.(dir); c] ++ [r])) with (recordPath d c r) in *.
  assert (parent = resolve cwd (dirPath d c)) as ->.
  { pose proof (recordPath_json cwd d c r Hc Hr) as Ej.
    destruct (Write_valid_paths cwd d c r Hr) as (_ & Pf & _).
    rewrite Pq, Pf in Ej. by apply app_inj_tail in Ej as [-> _]. }
  repeat split; try done. by apply Join_nested.
Qed.

Lemma Delete_absent_l d fs c r :
  valid_name c -> valid_name r ->
  (forall n, walk (tree fs) (resolve (cwd fs) (recordPath d c r)) <> inr n) ->
  (forall n, walk (tree fs) (resolve (cwd fs) (recordPath d c r +:+ ".json"))
             <> inr n) ->
  Delete d fs c r
  = (fs, Some (Errorf ("unable to find file or directory named "
                       +:+ (c +:+ "/" +:+ r) +:+ str LF))).
Proof.
  intros Hc Hr Hp Hq.
  destruct (record_paths (cwd fs) d c r Hc Hr) as (Hne & Ej & _).
  unfold Delete. rewrite Ej, Join_valid_pair by done.
  rewrite stat_spec by done.
  destruct (walk _ (resolve _ (recordPath d c r))) as [e|n] eqn:Ep;
    [|by destruct (Hp n)].
  destruct e; try done.
  destruct (walk (tree fs) (resolve (cwd fs) (recordPath d c r +:+ ".json")))
    as [e|n] eqn:Eq; [|by destruct (Hq n)].
  by rewrite (Stat_missing _ _ e) by (done || by apply app_not_empty).
Qed.

(** X14: [Delete] of what is not there.  For plain names, when neither the
    bare path nor the path with [.json] can be looked up, whatever the
    reason, [Delete] leaves the filesystem as it is and returns the message
    [unable to find file or directory named c/r] with a newline at its end:
    the names joined, without the database directory. *)
Theorem Delete_reports_absent d fs c r :
  valid_name c -> valid_name r ->
  (forall n, walk (tree fs) (resolve (cwd fs) (recordPath d c r)) <> inr n) ->
  (forall n, walk (tree fs) (resolve (cwd fs) (recordPath d c r +:+ ".json"))
             <> inr n) ->
  exists e,
    Delete d fs c r = (fs, Some e)
    /\ e = Errorf ("unable to find file or directory named "
                   +:+ (c +:+ "/" +:+ r) +:+ str LF)
    /\ NotFound e.
Proof.
  intros Hc Hr Hp Hq. eexists. split; [by apply Delete_absent_l|].
  split; [done|]. right. eauto.
Qed.

Lemma Delete_reports_absent_witness :
  exists e, Delete db fs_db "users" "missing" = (fs_db, Some e) /\ NotFound e.
Proof.
  destruct (Delete_reports_absent db fs_db "users" "missing") as (e & E & _ & H).
  - plain_name.
  - plain_name.
  - intros n E. refuted E.
  - intros n E. refuted E.
  - by exists e.
Defined.

Lemma Delete_record_l d fs c r m data :
  valid_name c -> valid_name r ->
  walk (tree fs) (resolve (cwd fs) (dirPath d c)) = inr (Dir m) ->
  m !! r = None -> m !! (r +:+ ".json") = Some (File data) ->
  exists fs',
    Delete d fs c r = (fs', None)
    /\ cwd fs' = cwd fs
    /\ put_at (tree fs) (resolve (cwd fs) (dirPath d c))
              (Dir (delete (r +:+ ".json") m)) = inr (tree fs')
    /\ forall q, q <> resolve (cwd fs) (dirPath d c) ++ [r +:+ ".json"] ->
                 file_at (tree fs') q = file_at (tree fs) q.
Proof.
  intros Hc Hr Ed Hb Hf.
  destruct (record_paths (cwd fs) d c r Hc Hr) as (Hne & Ej & Pp & Pq & Lp & Lq).
  set (pc := resolve (cwd fs) (dirPath d c)) in *.
  assert (walk (tree fs) (pc ++ [r +:+ ".json"]) = inr (File data)) as Ef.
  { rewrite walk_app, Ed. simpl. by rewrite Hf. }
  exists (set_tree fs (remove_at (tree fs) (pc ++ [r +:+ ".json"]))).
  repeat split.
  - unfold Delete. rewrite Ej, stat_spec by done.
    rewrite Pp, walk_app, Ed. simpl. rewrite Hb.
    rewrite (Stat_found _ _ (File data)).
    2:{ by apply app_not_empty. }
    2:{ by rewrite Pq. }
    simpl. rewrite (RemoveAll_name _ _ pc (r +:+ ".json")); try done.
    + by rewrite Ef.
    + by apply app_not_empty.
    + by apply valid_name_ext.
  - simpl. by apply remove_at_child.
  - intros q Hq. simpl. by eapply file_at_remove_at.
Qed.

(** X15: [Delete] of a record.  For plain names, in a collection directory
    that has the record file and nothing under the bare name, [Delete]
    succeeds; the tree afterwards is the old tree with the collection
    directory less that one entry, so the collection directory itself stays,
    and every regular file elsewhere keeps its content. *)
Theorem Delete_removes_record d fs c r m data :
  valid_name c -> valid_name r ->
  walk (tree fs) (resolve (cwd fs) (dirPath d c)) = inr (Dir m) ->
  m !! r = None -> m !! (r +:+ ".json") = Some (File data) ->
  exists fs',
    Delete d fs c r = (fs', None)
    /\ cwd fs' = cwd fs
    /\ put_at (tree fs) (resolve (cwd fs) (dirPath d c))
              (Dir (delete (r +:+ ".json") m)) = inr (tree fs')
    /\ walk (tree fs') (resolve (cwd fs) (dirPath d c))
       = inr (Dir (delete (r +:+ ".json") m))
    /\ forall q, q <> resolve (cwd fs) (dirPath d c) ++ [r +:+ ".json"] ->
                 file_at (tree fs') q = file_at (tree fs) q.
Proof.
  intros Hc Hr Ed Hb Hf.
  destruct (Delete_record_l d fs c r m data Hc Hr Ed Hb Hf)
    as (fs' & E & Hcwd & Ep & Hframe).
  exists fs'. repeat split; try done. by eapply walk_put_at.
Qed.

Lemma Delete_removes_record_witness :
  exists fs',
    Delete db fs_two "users" "a" = (fs', None)
    /\ walk (tree fs') (resolve (cwd fs_two) (dirPath db "users"))
       = inr (Dir (delete "a.json" two_files)).
Proof.
  destruct (Delete_removes_record db fs_two "users" "a" two_files "1")
    as (fs' & E & _ & _ & Ed & _).
  - plain_name.
  - plain_name.
  - computes.
  - computes.
  - computes.
  - by exists fs'.
Defined.

(** X16: [Delete] given the name of the file.  For plain names, when the
    bare path is a regular file (the resource name already ends in [.json],
    say) and nothing has that name with one more [.json], [Delete] returns
    no error and removes nothing. *)
Theorem Delete_suffixed_name_removes_nothing d fs c r data :
  valid_name c -> valid_name r ->
  walk (tree fs) (resolve (cwd fs) (recordPath d c r)) = inr (File data) ->
  walk (tree fs) (resolve (cwd fs) (recordPath d c r +:+ ".json")) = inl ENOENT ->
  Delete d fs c r = (fs, None).
Proof.
  intros Hc Hr Ep Eq.
  destruct (record_paths (cwd fs) d c r Hc Hr) as (Hne & Ej & Pp & Pq & Lp & Lq).
  unfold Delete. rewrite Ej, stat_spec, Ep by done. simpl.
  rewrite (RemoveAll_name _ _ (resolve (cwd fs) (dirPath d c)) (r +:+ ".json"));
    try done.
  - rewrite <- Pq. by rewrite Eq.
  - by apply app_not_empty.
  - by apply valid_name_ext.
Qed.

Lemma Delete_suffixed_name_removes_nothing_witness : Delete db fs_two "users" "a.json" = (fs_two, None).
Proof.
  apply (Delete_suffixed_name_removes_nothing db fs_two "users" "a.json" "1").
  - plain_name.
  - plain_name.
  - computes.
  - computes.
Defined.

(** X17: [Delete] twice.  For plain names, in a collection directory that
    has the record file and nothing under the bare name, the first [Delete]
    succeeds and a second [Delete] of the same record changes nothing and
    returns the "unable to find" message. *)
Theorem Delete_twice_reports_absent d fs c r m data :
  valid_name c -> valid_name r ->
  walk (tree fs) (resolve (cwd fs) (dirPath d c)) = inr (Dir m) ->
  m !! r = None -> m !! (r +:+ ".json") = Some (File data) ->
  exists fs',
    Delete d fs c r = (fs', None)
    /\ Delete d fs' c r
       = (fs', Some (Errorf ("unable to find file or directory named "
                             +:+ (c +:+ "/" +:+ r) +:+ str LF))).
Proof.
  intros Hc Hr Ed Hb Hf.
  destruct (Delete_record_l d fs c r m data Hc Hr Ed Hb Hf)
    as (fs' & E & Hcwd & Ep & _).
  exists fs'. split; [done|].
  destruct (record_paths (cwd fs) d c r Hc Hr) as (_ & _ & Pp & Pq & _).
  assert (walk (tree fs') (resolve (cwd fs) (dirPath d c))
          = inr (Dir (delete (r +:+ ".json") m))) as Ed' by by eapply walk_put_at.
  apply Delete_absent_l; try done; rewrite Hcwd, ?Pp, ?Pq, walk_app, Ed'; simpl.
  - rewrite lookup_delete_ne, Hb; [done|]. symmetry. by apply name_not_ext.
  - by rewrite lookup_delete_eq.
Qed.

Lemma Delete_twice_reports_absent_witness :
  exists fs',
    Delete db fs_two "users" "a" = (fs', None)
    /\ Delete db fs' "users" "a"
       = (fs', Some (Errorf ("unable to find file or directory named "
                             +:+ ("users" +:+ "/" +:+ "a") +:+ str LF))).
Proof.
  apply (Delete_twice_reports_absent db fs_two "users" "a" two_files "1").
  - plain_name.
  - plain_name.
  - computes.
  - computes.
  - computes.
Defined.

(** X18: [Delete], then [ReadAll].  For plain names, in a collection
    directory of regular files that has the record file and nothing under
    the bare name, [Delete] of the record succeeds and [ReadAll] then
    returns the content of every other file of the collection, in the order
    of the names.  [Delete] of the only record leaves the collection in
    place: [ReadAll] returns no records and no error. *)
Theorem Delete_then_ReadAll_lists_rest d fs c r m data :
  valid_name c -> valid_name r ->
  walk (tree fs) (resolve (cwd fs) (dirPath d c)) = inr (Dir m) ->
  m !! r = None -> m !! (r +:+ ".json") = Some (File data) ->
  (forall x n, m !! x = Some n -> valid_name x /\ exists data', n = File data') ->
  exists fs' names records,
    Delete d fs c r = (fs', None)
    /\ ReadDir fs' (dirPath d c) = (names, None)
    /\ ReadAll d fs' c = (records, None)
    /\ Forall2 (fun x data' => x <> r +:+ ".json" /\ m !! x = Some (File data'))
               names records
    /\ (size m = 1 -> records = []).
Proof.
  intros Hc Hr Ed Hb Hf Hfiles. pose proof Hc as (_ & Hcne & _).
  destruct (Delete_record_l d fs c r m data Hc Hr Ed Hb Hf)
    as (fs' & E & Hcwd & Ep & _).
  assert (walk (tree fs') (resolve (cwd fs') (dirPath d c))
          = inr (Dir (delete (r +:+ ".json") m))) as Ed'.
  { rewrite Hcwd. by eapply walk_put_at. }
  destruct (ReadAll_files d fs' c _ Hcne Ed') as (names & records & En & Er & HF & _).
  { intros x n [_ Hx]%lookup_delete_Some. by apply Hfiles. }
  exists fs', names, records. repeat split; try done.
  - eapply Forall2_impl; [done|]. by intros x data' [? ?]%lookup_delete_Some.
  - intros Hsize. destruct records as [|y records]; [done|].
    apply Forall2_cons_inv_r in HF as (x & names' & Hx & _ & _).
    assert (delete (r +:+ ".json") m = ∅) as E0.
    { apply map_size_empty_inv. rewrite map_size_delete_Some by (by eexists). lia. }
    by rewrite E0 in Hx.
Qed.

Lemma Delete_then_ReadAll_lists_rest_witness :
  exists fs' records,
    Delete db fs_two "users" "a" = (fs', None)
    /\ ReadAll db fs' "users" = (records, None).
Proof.
  destruct (Delete_then_ReadAll_lists_rest db fs_two "users" "a" two_files "1")
    as (fs' & names & records & E & _ & Er & _).
  - plain_name.
  - plain_name.
  - computes.
  - computes.
  - computes.
  - intros x n Hx. unfold two_files in Hx.
    apply lookup_insert_Some in Hx as [[<- <-]|[_ Hx]].
    { split; [plain_name|by eexists]. }
    apply lookup_singleton_Some in Hx as [<- <-].
    split; [plain_name|by eexists].
  - by exists fs', records.
Defined.

(** X19: [Delete] of a collection.  For a plain collection name whose
    directory exists in the database directory, [Delete] with an empty
    resource name succeeds, and the tree afterwards is the old tree with the
    database directory less that one entry: every other collection is as it
    was. *)
Theorem Delete_removes_collection_only d fs c R m :
  valid_name c ->
  walk (tree fs) (resolve (cwd fs) (dir d)) = inr (Dir R) ->
  R !! c = Some (Dir m) ->
  exists fs',
    Delete d fs c "" = (fs', None)
    /\ cwd fs' = cwd fs
    /\ put_at (tree fs) (resolve (cwd fs) (dir d)) (Dir (delete c R))
       = inr (tree fs').
Proof.
  intros Hc ER Ec. pose proof Hc as (_ & Hne & _).
  destruct (Join_valid_path (cwd fs) [d.(dir)] c ".json" Hc eq_refl)
    as (parent & Hd & Pp & Pq & Lp & Lq); [done|].
  change (Join ([d.(dir)] ++ [c])) with (dirPath d c) in *.
  assert (parent = resolve (cwd fs) (dir d)) as ->.
  { rewrite resolve_dirPath in Pp by done. by apply app_inj_tail in Pp as [-> _]. }
  assert (walk (tree fs) (resolve (cwd fs) (dir d) ++ [c]) = inr (Dir m)) as Ed.
  { rewrite walk_app, ER. simpl. by rewrite Ec. }
  exists (set_tree fs (remove_at (tree fs) (resolve (cwd fs) (dir d) ++ [c]))).
  repeat split.
  - unfold Delete. rewrite Join_valid_empty by done. fold (dirPath d c).
    rewrite stat_spec, Pp, Ed by done. simpl.
    by rewrite (RemoveAll_name _ _ (resolve (cwd fs) (dir d)) c), Ed.
  - simpl. by apply remove_at_child.
Qed.

Lemma Delete_removes_collection_only_witness :
  exists fs',
    Delete db fs_two "users" "" = (fs', None)
    /\ cwd fs' = cwd fs_two
    /\ put_at (tree fs_two) (resolve (cwd fs_two) db.(dir))
              (Dir (delete "users" {[ "users" := Dir two_files ]}))
       = inr (tree fs').
Proof.
  apply (Delete_removes_collection_only db fs_two "users" {[ "users" := Dir two_files ]} two_files).
  - plain_name.
  - computes.
  - computes.
Defined.

Lemma Join_tail_empty a : a <> "" -> Join [a; ""] = Clean a.
Proof.
  intros Ha. rewrite Join_cons by done. unfold Clean.
  case_decide as E; [by apply concat_not_empty in E|].
  case_decide; [done|].
  rewrite rooted_concat by done. f_equal.
  unfold clean_state. rewrite rooted_concat, split_concat_elems by done.
  simpl. rewrite foldl_app. simpl.
  unfold clean_step at 1. destruct (foldl _ _ _). by case_decide.
Qed.

Lemma resolve_last cwd path x :
  last (split path) = Some x -> valid_name x ->
  exists p, resolve cwd path = p ++ [x].
Proof.
  intros Hl Hx. apply last_Some in Hl as [l Hl]. unfold resolve. rewrite Hl.
  rewrite foldl_app. simpl. rewrite walk_step_valid by done.
  rewrite reverse_cons. eauto.
Qed.

(** X20: [Delete] with both names empty.  For a driver on a clean path
    that ends in a name (what [New] gives for a path such as [./db]) whose
    directory exists, [Delete] with an empty collection name and an empty
    resource name returns no error and removes the database directory with
    everything in it. *)
Theorem Delete_empty_names_removes_database d fs x R :
  Clean d.(dir) = d.(dir) ->
  last (split d.(dir)) = Some x -> valid_name x ->
  walk (tree fs) (resolve (cwd fs) d.(dir)) = inr (Dir R) ->
  exists fs',
    Delete d fs "" "" = (fs', None)
    /\ cwd fs' = cwd fs
    /\ forall q, walk (tree fs') (resolve (cwd fs) d.(dir) ++ q) = inl ENOENT.
Proof.
  intros Hclean Hl Hx ER.
  assert (d.(dir) <> "") as Hne by (rewrite <- Hclean; apply Clean_not_empty).
  destruct (resolve_last (cwd fs) _ _ Hl Hx) as [p Ep].
  exists (set_tree fs (remove_at (tree fs) (p ++ [x]))). repeat split.
  - unfold Delete. change (Join [""; ""]) with "".
    rewrite Join_tail_empty, Hclean by done.
    rewrite stat_spec, ER by done. simpl.
    rewrite (RemoveAll_name _ _ p x) by done. rewrite Ep in ER. by rewrite ER.
  - intros q. simpl. rewrite Ep in *. eapply walk_remove_at; [|done].
    by destruct p.
Qed.

Lemma Delete_empty_names_removes_database_witness :
  exists fs',
    Delete db fs_two "" "" = (fs', None)
    /\ cwd fs' = cwd fs_two
    /\ forall q, walk (tree fs') (resolve (cwd fs_two) db.(dir) ++ q) = inl ENOENT.
Proof.
  apply (Delete_empty_names_removes_database db fs_two "db" {[ "users" := Dir two_files ]}).
  - computes.
  - computes.
  - plain_name.
  - computes.
Defined.

End delete.

(** * New *)

Section new.
Import filepath os.
Implicit Types (fs : FS) (t n : node) (p q : list string) (d : Driver)
  (m R : gmap string node).

Lemma mkdir_all_error t p e :
  mkdir_all t p = inl e ->
  e = ENOTDIR
  /\ exists q data, q `prefix_of` p /\ walk t q = inr (File data).
Proof.
  revert t. induction p as [|y p IH]; intros t E.
  - destruct t as [data|m]; simpl in E; [|done]. simplify_eq.
    split; [done|]. by exists [], data.
  - destruct t as [data|m]; simpl in E.
    { simplify_eq. split; [done|]. exists [], data. split; [|done].
      apply prefix_nil. }
    destruct (mkdir_all (default (Dir ∅) (m !! y)) p) as [e'|] eqn:E0; [|done].
    simplify_eq. destruct (IH _ E0) as (-> & q & data & Hq & Ew).
    split; [done|]. exists (y :: q), data. split; [by apply prefix_cons|].
    simpl. destruct (m !! y) as [t0|]; [done|]. simpl in Ew.
    destruct q; [by simpl in Ew|]. by rewrite walk_empty_cons in Ew.
Qed.

Lemma mkdir_all_under_file t p q data :
  walk t p = inr (File data) -> mkdir_all t (p ++ q) = inl ENOTDIR.
Proof.
  revert t. induction p as [|y p IH]; intros t E; simpl in *.
  - simplify_eq. by destruct q.
  - destruct t as [|m]; [done|]. destruct (m !! y) as [t0|]; [|done].
    simpl. by rewrite (IH _ E).
Qed.

(** X1: [New] on a path where something exists, a directory or a regular
    file, returns a driver on the cleaned path and no error, and leaves the
    filesystem as it is. *)
Theorem New_reuses_what_exists path fs n :
  walk (tree fs) (resolve (cwd fs) path) = inr n ->
  New path fs = ({| dir := Clean path |}, fs, None).
Proof.
  intros E. unfold New.
  by rewrite (Stat_found _ _ n) by (apply Clean_not_empty || by rewrite resolve_Clean).
Qed.

Lemma New_reuses_what_exists_witness :
  New "./db" fs_db = (db, fs_db, None) /\ New "db" fs_file = (db, fs_file, None).
Proof.
  split.
  - apply (New_reuses_what_exists "./db" fs_db (Dir ∅)). computes.
  - apply (New_reuses_what_exists "db" fs_file (File "not a directory")). computes.
Defined.

(** X2: a successful [New] returns a driver on the cleaned path and keeps
    the working directory; afterwards something exists at the path, an empty
    directory when nothing was there before; no regular file anywhere has
    appeared, disappeared or changed; and [New] on the same path again
    returns the same driver and changes nothing. *)
Theorem New_creates_database_directory path fs d fs' :
  New path fs = (d, fs', None) ->
  d = {| dir := Clean path |}
  /\ cwd fs' = cwd fs
  /\ (exists n, walk (tree fs') (resolve (cwd fs) path) = inr n)
  /\ ((forall n, walk (tree fs) (resolve (cwd fs) path) <> inr n) ->
      walk (tree fs') (resolve (cwd fs) path) = inr (Dir ∅))
  /\ (forall q, file_at (tree fs') q = file_at (tree fs) q)
  /\ New path fs' = (d, fs', None).
Proof.
  unfold New. pose proof (Clean_not_empty path) as Hne.
  destruct (walk (tree fs) (resolve (cwd fs) path)) as [e|n] eqn:Ew.
  - rewrite (Stat_missing _ _ e) by (done || by rewrite resolve_Clean).
    destruct (MkdirAll fs (Clean path)) as [fs1 err] eqn:Em.
    intros [= <- <- ->].
    apply MkdirAll_inv in Em as [(_ & _ & Hcwd & Emk)|(? & ? & _)]; [|done].
    rewrite resolve_Clean in Emk.
    pose proof (mkdir_all_dir _ _ _ Emk) as Ed. rewrite Ew in Ed.
    repeat split; try done.
    + eauto.
    + intros q. by eapply file_at_mkdir_all.
    + by rewrite (Stat_found _ _ (Dir ∅))
        by (done || by rewrite Hcwd, resolve_Clean).
  - rewrite (Stat_found _ _ n) by (done || by rewrite resolve_Clean).
    intros [= <- <-]. repeat split; try done.
    + eauto.
    + intros Habs. by destruct (Habs n).
    + by rewrite (Stat_found _ _ n) by (done || by rewrite resolve_Clean).
Qed.

Lemma New_creates_database_directory_witness :
  walk (tree fs_db) (resolve (cwd empty_fs) "./db") = inr (Dir ∅)
  /\ New "./db" fs_db = (db, fs_db, None).
Proof.
  destruct (New_creates_database_directory "./db" empty_fs db fs_db) as (_ & _ & _ & Hnew & _ & Hagain).
  - computes.
  - split; [|done]. apply Hnew. intros n E. refuted E.
Defined.

(** X3: [New] fails exactly when a regular file is in the way, strictly
    above the path.  Then the filesystem is as it was, and the driver is
    returned all the same, beside the error. *)
Theorem New_fails_below_regular_file path fs :
  (forall d fs' e,
     New path fs = (d, fs', Some e) -> d = {| dir := Clean path |} /\ fs' = fs)
  /\ ((exists e, New path fs = ({| dir := Clean path |}, fs, Some e))
      <-> exists q data,
            q `prefix_of` resolve (cwd fs) path /\ q <> resolve (cwd fs) path
            /\ walk (tree fs) q = inr (File data)).
Proof.
  pose proof (Clean_not_empty path) as Hne.
  assert (forall d fs' e,
            New path fs = (d, fs', Some e) ->
            d = {| dir := Clean path |} /\ fs' = fs
            /\ exists q data,
                 q `prefix_of` resolve (cwd fs) path
                 /\ q <> resolve (cwd fs) path
                 /\ walk (tree fs) q = inr (File data)) as Hfail.
  { intros d fs' e. unfold New.
    destruct (walk (tree fs) (resolve (cwd fs) path)) as [e0|n] eqn:Ew.
    - rewrite (Stat_missing _ _ e0) by (done || by rewrite resolve_Clean).
      unfold MkdirAll. case_decide; [done|]. rewrite resolve_Clean.
      destruct (mkdir_all _ _) as [e1|t1] eqn:Emk; [|done].
      intros [= <- <- <-].
      apply mkdir_all_error in Emk as (-> & q & data & Hq & Eq).
      repeat split; try done. exists q, data. repeat split; try done.
      intros ->. congruence.
    - by rewrite (Stat_found _ _ n) by (done || by rewrite resolve_Clean). }
  split; [intros d fs' e E; by destruct (Hfail d fs' e E) as (? & ? & _)|].
  split.
  - intros [e E]. by destruct (Hfail _ _ _ E) as (_ & _ & H).
  - intros (q & data & [q' Hq] & Hne' & Ef).
    assert (walk (tree fs) (resolve (cwd fs) path) = inl ENOTDIR) as Ew.
    { rewrite Hq, walk_app, Ef. destruct q' as [|x q']; [|done].
      by rewrite app_nil_r in Hq. }
    unfold New.
    rewrite (Stat_missing _ _ ENOTDIR) by (done || by rewrite resolve_Clean).
    unfold MkdirAll. case_decide; [done|]. rewrite resolve_Clean, Hq.
    rewrite (mkdir_all_under_file _ _ _ data) by done. eauto.
Qed.

Lemma New_fails_below_regular_file_witness :
  exists e, New "db/sub" fs_file = ({| dir := "db/sub" |}, fs_file, Some e).
Proof.
  apply (proj2 (proj2 (New_fails_below_regular_file "db/sub" fs_file))).
  exists ["db"], "not a directory". split; [|split].
  - by exists ["sub"].
  - intros H. refuted H.
  - computes.
Defined.

(** X4: a regular file as database directory.  With a driver whose
    directory is a regular file (which [New] accepts), [Write] with a plain
    collection name and a non-empty resource name fails and changes nothing,
    and [ReadAll] fails with "not a directory". *)
Theorem no_records_under_regular_file d fs data c r v :
  walk (tree fs) (resolve (cwd fs) d.(dir)) = inr (File data) ->
  valid_name c -> r <> "" ->
  (exists e, Write d fs c r v = (fs, Some e))
  /\ (exists e, ReadAll d fs c = ([], Some e) /\ underlying e = Some ENOTDIR).
Proof.
  intros Ef Hc Hr. pose proof Hc as (_ & Hcne & _).
  pose proof (dirPath_not_empty d c Hcne) as Hne. split.
  - unfold Write. do 2 (case_decide; [done|]). fold (dirPath d c).
    unfold MkdirAll. case_decide; [done|].
    rewrite resolve_dirPath by done.
    rewrite (mkdir_all_under_file _ _ _ data) by done. eauto.
  - unfold ReadAll. case_decide; [done|]. fold (dirPath d c).
    rewrite stat_spec, resolve_dirPath, walk_app, Ef by done. simpl. eauto.
Qed.

Lemma no_records_under_regular_file_witness :
  (exists e, Write db fs_file "users" "Zoro" zoro = (fs_file, Some e))
  /\ (exists e, ReadAll db fs_file "users" = ([], Some e)
                /\ underlying e = Some ENOTDIR).
Proof.
  apply (no_records_under_regular_file db fs_file "not a directory" "users" "Zoro" zoro).
  - computes.
  - plain_name.
  - done.
Defined.

End new.

(** * What Read returns *)

Section found.
Import filepath os.
Implicit Types (fs : FS) (t n : node) (p q : list string) (d : Driver)
  (m R : gmap string node).

Lemma Read_found d fs c r v b :
  valid_name c -> valid_name r ->
  walk (tree fs) (resolve (cwd fs) (fnlPath d c r)) = inr (File b) ->
  Read d fs c r v = snd (json.Unmarshal b v).
Proof.
  intros Hc Hr Ef. pose proof Hc as (_ & Hcne & _). pose proof Hr as (_ & Hrne & _).
  destruct (record_paths (cwd fs) d c r Hc Hr) as (Hne & _ & Pp & Pq & _).
  destruct (Write_valid_paths (cwd fs) d c r Hr) as (_ & Pf & _).
  rewrite Pf in Ef. rewrite <- Pq in Ef.
  assert (recordPath d c r +:+ ".json" <> "") as Hdj by by apply app_not_empty.
  unfold Read. do 2 (case_decide; [done|]). fold (recordPath d c r).
  assert (exists fi, stat fs (recordPath d c r) = (fi, None)) as [fi ->].
  { rewrite stat_spec by done.
    destruct (walk _ (resolve _ (recordPath d c r))) as [e|n] eqn:Ep; [|eauto].
    destruct (walk_errno _ _ _ Ep) as [-> | ->].
    { rewrite (Stat_found _ _ (File b)) by done. eauto. }
    exfalso. rewrite Pp in Ep. rewrite Pq in Ef.
    rewrite walk_app in Ep, Ef.
    destruct (walk _ (resolve _ (dirPath d c))) as [|[|m]]; try done.
    simpl in Ep. by destruct (m !! r). }
  by rewrite (ReadFile_found _ _ b).
Qed.

Lemma Unmarshal_nil b v :
  snd (json.Unmarshal b v) = None
  <-> json.parse b = Some json.JNull \/ exists s, json.parse b = Some (json.JString s).
Proof.
  unfold json.Unmarshal. destruct (json.parse b) as [[]|]; simpl; split;
    try done; try (intros [?|[? ?]]; done); eauto.
Qed.

(** X21: when [Read] returns [nil].  For plain names, [Read] returns no
    error exactly when the record file exists as a regular file and holds a
    JSON string or [null]; for every other content (an object, an array, a
    number, a boolean, no JSON at all) and for a missing record file it
    returns an error. *)
Theorem Read_nil_iff_string_or_null d fs c r v :
  valid_name c -> valid_name r ->
  Read d fs c r v = None
  <-> exists b,
        walk (tree fs) (resolve (cwd fs) (fnlPath d c r)) = inr (File b)
        /\ (json.parse b = Some json.JNull
            \/ exists s, json.parse b = Some (json.JString s)).
Proof.
  intros Hc Hr. split.
  - intros E. destruct (Read_ok_inv _ _ _ _ _ E) as [b Er].
    apply ReadFile_ok_inv in Er. rewrite recordPath_json in Er by done.
    exists b. split; [done|]. apply (Unmarshal_nil b v).
    by rewrite <- (Read_found d fs c r v b).
  - intros (b & Ef & Hp). rewrite (Read_found d fs c r v b) by done.
    by apply Unmarshal_nil.
Qed.

Lemma Read_nil_iff_string_or_null_witness :
  Read db fs_hi "users" "s" "" = None
  <-> exists b,
        walk (tree fs_hi) (resolve (cwd fs_hi) (fnlPath db "users" "s"))
        = inr (File b)
        /\ (json.parse b = Some json.JNull
            \/ exists s, json.parse b = Some (json.JString s)).
Proof.
  apply (Read_nil_iff_string_or_null db fs_hi "users" "s" "").
  - plain_name.
  - plain_name.
Defined.

End found.

(** * Names with a separator *)

Section alias.
Import filepath os.
Implicit Types (fs : FS) (t n : node) (p q : list string) (d : Driver)
  (m R : gmap string node).

Lemma Join_sep a c x :
  c <> "" -> Join [a; c +:+ "/" +:+ x] = Join [a; c; x].
Proof.
  intros Hc. destruct (decide (a = "")) as [->|Ha].
  - change (Join [""; c +:+ "/" +:+ x]) with (Join [c +:+ "/" +:+ x]).
    change (Join [""; c; x]) with (Join [c; x]).
    rewrite !Join_cons; [done|done|]. by destruct c.
  - by rewrite !Join_cons.
Qed.

Lemma nested_collection_paths cwd d c x r :
  valid_name c -> valid_name x -> valid_name r ->
  resolve cwd (fnlPath d (c +:+ "/" +:+ x) r)
  = resolve cwd d.(dir) ++ [c; x; r +:+ ".json"].
Proof.
  intros Hc Hx Hr. pose proof Hc as (_ & Hcne & _).
  destruct (Write_valid_paths cwd d (c +:+ "/" +:+ x) r Hr) as (_ & -> & _).
  unfold dirPath. rewrite Join_sep by done.
  rewrite (resolve_Join_valid _ _ [c; x]) by (by repeat first [done|constructor]).
  by rewrite <- (assoc_L (++)).
Qed.

Lemma nested_resource_paths cwd d c x r :
  valid_name c -> valid_name x -> valid_name r ->
  fnlPath d c (x +:+ "/" +:+ r) <> ""
  /\ resolve cwd (fnlPath d c (x +:+ "/" +:+ r))
     = resolve cwd d.(dir) ++ [c; x; r +:+ ".json"]
  /\ resolve cwd (tmpPath d c (x +:+ "/" +:+ r))
     = resolve cwd d.(dir) ++ [c; x; (r +:+ ".json") +:+ ".tmp"].
Proof.
  intros Hc Hx Hr. pose proof Hx as (_ & Hxne & _).
  assert (valid_name (r +:+ ".json")) as Hj by by apply valid_name_ext.
  assert (fnlPath d c (x +:+ "/" +:+ r)
          = Join ([dirPath d c; x] ++ [r +:+ ".json"])) as E.
  { unfold fnlPath. rewrite !app_assoc_s. by rewrite Join_sep. }
  destruct (Join_valid_path cwd [dirPath d c; x] (r +:+ ".json") ".tmp" Hj eq_refl)
    as (parent & Hne & Pf & Pt & _); [done|].
  rewrite <- E in *.
  assert (resolve cwd (fnlPath d c (x +:+ "/" +:+ r))
          = resolve cwd d.(dir) ++ [c; x; r +:+ ".json"]) as Ef.
  { rewrite E.
    change ([dirPath d c; x] ++ [r +:+ ".json"])
      with [dirPath d c; x; r +:+ ".json"].
    rewrite (resolve_Join_valid _ _ [x; r +:+ ".json"]) by (by repeat first [done|constructor]).
    rewrite resolve_dirPath by done. by rewrite <- (assoc_L (++)). }
  repeat split; [done|done|]. unfold tmpPath. rewrite Pt.
  rewrite Pf in Ef.
  change [c; x; r +:+ ".json"] with ([c; x] ++ [r +:+ ".json"]) in Ef.
  rewrite (assoc_L (++)) in Ef. apply app_inj_tail in Ef as [-> _].
  by rewrite <- (assoc_L (++)).
Qed.

(** X13: two pairs of names, one file.  For plain names [c], [x] and [r],
    the record [r] of the collection [c/x] and the record [x/r] of the
    collection [c] are the same file: after a [Write] under the first pair,
    a successful [Write] under the second replaces what the first stored. *)
Theorem names_with_separator_alias d fs c x r v1 v2 fs1 fs2 :
  valid_name c -> valid_name x -> valid_name r ->
  Write d fs (c +:+ "/" +:+ x) r v1 = (fs1, None) ->
  Write d fs1 c (x +:+ "/" +:+ r) v2 = (fs2, None) ->
  exists b2,
    json.MarshalIndent v2 "" (str TAB) = (b2, None)
    /\ ReadFile fs2 (fnlPath d (c +:+ "/" +:+ x) r) = (b2 +:+ str LF, None).
Proof.
  intros Hc Hx Hr E1 E2.
  apply Write_ok_effect in E1 as (b1 & _ & Hcwd1 & Hne & _).
  apply Write_ok_effect in E2 as (b2 & Eb2 & Hcwd2 & _ & Ef & _).
  exists b2. split; [done|]. apply ReadFile_found; [done|].
  rewrite Hcwd2, nested_collection_paths by done.
  destruct (nested_resource_paths (cwd fs1) d c x r Hc Hx Hr) as (_ & Pf & _).
  by rewrite <- Pf.
Qed.

Lemma names_with_separator_alias_witness :
  exists b2,
    json.MarshalIndent sabo "" (str TAB) = (b2, None)
    /\ ReadFile
         (Write db (Write db fs_db ("a" +:+ "/" +:+ "b") "c" zoro).1
                "a" ("b" +:+ "/" +:+ "c") sabo).1
         (fnlPath db ("a" +:+ "/" +:+ "b") "c")
       = (b2 +:+ str LF, None).
Proof.
  apply (names_with_separator_alias db fs_db "a" "b" "c" zoro sabo
           (Write db fs_db ("a" +:+ "/" +:+ "b") "c" zoro).1).
  - plain_name.
  - plain_name.
  - plain_name.
  - computes.
  - computes.
Defined.

Lemma put_at_missing t p m x y l n :
  walk t p = inr (Dir m) -> m !! x = None ->
  put_at t (p ++ x :: y :: l) n = inl ENOENT.
Proof.
  revert t. induction p as [|z p IH]; intros t E Hx; simpl in *.
  - simplify_eq. by rewrite Hx.
  - destruct t as [|m0]; [done|]. destruct (m0 !! z) as [t0|]; [|done].
    by rewrite (IH _ E).
Qed.

(** X12: [Write] makes the collection's directory and no other.  For plain
    names, a resource name [x/r] whose directory part [x] is not in the
    collection makes [Write] fail at the temporary file with "no such file
    or directory", after the collection directory has been made. *)
Theorem Write_makes_no_resource_directory d fs c x r v b R :
  valid_name c -> valid_name x -> valid_name r ->
  walk (tree fs) (resolve (cwd fs) d.(dir)) = inr (Dir R) ->
  (forall data, R !! c <> Some (File data)) ->
  collection_of R c !! x = None ->
  json.MarshalIndent v "" (str TAB) = (b, None) ->
  exists fs1,
    MkdirAll fs (dirPath d c) = (fs1, None)
    /\ Write d fs c (x +:+ "/" +:+ r) v
       = (fs1, Some (PathError "open" (tmpPath d c (x +:+ "/" +:+ r)) ENOENT)).
Proof.
  intros Hc Hx Hr ER Hfile Hm Eb. pose proof Hc as (_ & Hcne & _).
  destruct (MkdirAll_collection d fs c R Hc ER Hfile) as (t1 & E1 & Em & Ed).
  exists (set_tree fs t1). split; [done|].
  destruct (nested_resource_paths (cwd fs) d c x r Hc Hx Hr) as (Hne & _ & Pt).
  unfold Write. case_decide; [done|]. case_decide as E0; [by destruct x|].
  fold (dirPath d c). fold (fnlPath d c (x +:+ "/" +:+ r)).
  fold (tmpPath d c (x +:+ "/" +:+ r)). rewrite Em, Eb.
  unfold WriteFile. case_decide as E3; [by apply app_not_empty in E3|].
  simpl. rewrite Pt. rewrite resolve_dirPath in Ed by done.
  change [c; x; (r +:+ ".json") +:+ ".tmp"]
    with ([c] ++ x :: [(r +:+ ".json") +:+ ".tmp"]).
  rewrite (assoc_L (++)).
  rewrite (put_at_missing _ _ (collection_of R c)) by done.
  rewrite walk_app, Ed. simpl. by rewrite Hm.
Qed.

Lemma Write_makes_no_resource_directory_witness :
  exists fs1,
    MkdirAll fs_db (dirPath db "users") = (fs1, None)
    /\ Write db fs_db "users" ("a" +:+ "/" +:+ "b") zoro
       = (fs1, Some (PathError "open" (tmpPath db "users" ("a" +:+ "/" +:+ "b"))
                               ENOENT)).
Proof.
  apply (Write_makes_no_resource_directory db fs_db "users" "a" "b" zoro
           (json.MarshalIndent zoro "" (str TAB)).1 ∅).
  - plain_name.
  - plain_name.
  - plain_name.
  - computes.
  - intros data E. refuted E.
  - computes.
  - computes.
Defined.

End alias.

(** * A failed rename *)

Section leftover.
Import filepath os.
Implicit Types (fs : FS) (t n : node) (p q : list string) (d : Driver)
  (m R : gmap string node).

(** X11: a failed rename leaves the temporary file.  For plain names, when
    a directory has the final name of the record, [Write] of a value the
    encoder accepts fails in [os.Rename] with "file exists"; the directory
    is still there, and the temporary file stays behind with the new
    encoding in it. *)
Theorem Write_failed_rename_leaves_temp d fs c r v b R m' :
  valid_name c -> valid_name r ->
  walk (tree fs) (resolve (cwd fs) d.(dir)) = inr (Dir R) ->
  (forall data, R !! c <> Some (File data)) ->
  collection_of R c !! (r +:+ ".json") = Some (Dir m') ->
  (forall m0, collection_of R c !! ((r +:+ ".json") +:+ ".tmp") <> Some (Dir m0)) ->
  json.MarshalIndent v "" (str TAB) = (b, None) ->
  exists fs',
    Write d fs c r v
    = (fs', Some (LinkError "rename" (tmpPath d c r) (fnlPath d c r) EEXIST))
    /\ ReadFile fs' (tmpPath d c r) = (b +:+ str LF, None)
    /\ Stat fs' (fnlPath d c r) = (Some {| Mode := ModeDir |}, None).
Proof.
  intros Hc Hr ER Hfile Hf Ht Eb. pose proof Hc as (_ & Hcne & _).
  pose proof Hr as (_ & Hrne & _).
  destruct (MkdirAll_collection d fs c R Hc ER Hfile) as (t1 & E1 & Em & Ed).
  destruct (Write_valid_paths (cwd fs) d c r Hr) as (Hfne & Pf & Pt).
  set (m := collection_of R c) in *.
  set (pc := resolve (cwd fs) (dirPath d c)) in *.
  set (fnl := r +:+ ".json") in *. set (tmp := fnl +:+ ".tmp") in *.
  set (data := b +:+ str LF).
  assert (tmpPath d c r <> "") as Htne by by apply app_not_empty.
  destruct (put_at_found t1 pc (Dir m) (Dir (<[tmp := File data]> m)) Ed)
    as [t2 E2].
  assert (WriteFile (set_tree fs t1) (tmpPath d c r) data = (set_tree fs t2, None))
    as Ew.
  { unfold WriteFile. case_decide; [done|].
    simpl. rewrite Pt, walk_app, Ed. simpl.
    rewrite (put_at_child _ _ m) by done. rewrite E2.
    destruct (m !! tmp) as [[|m0]|] eqn:E; try done. by destruct (Ht m0). }
  assert (walk t2 pc = inr (Dir (<[tmp := File data]> m))) as Ed2
    by by eapply walk_put_at.
  assert (walk t2 (pc ++ [tmp]) = inr (File data)) as Etmp.
  { rewrite walk_app, Ed2. simpl. by rewrite lookup_insert_eq. }
  assert (walk t2 (pc ++ [fnl]) = inr (Dir m')) as Efnl.
  { rewrite walk_app, Ed2. simpl.
    rewrite lookup_insert_ne by apply tmp_not_fnl. by rewrite Hf. }
  exists (set_tree fs t2). repeat split.
  - unfold Write. do 2 (case_decide; [done|]).
    fold (dirPath d c). fold (fnlPath d c r). fold (tmpPath d c r).
    rewrite Em, Eb. fold data. rewrite Ew.
    unfold Rename. case_decide as E0; [by destruct E0|].
    simpl. rewrite Pt, Pf, Efnl, Etmp.
    case_decide as E3; [done|]. exfalso. apply E3. right.
    intros [_ ?%tmp_not_fnl]%app_inj_tail. done.
  - apply ReadFile_found; [done|]. simpl. by rewrite Pt.
  - rewrite (Stat_found _ _ (Dir m')); [done|done|]. simpl. by rewrite Pf.
Qed.

Lemma Write_failed_rename_leaves_temp_witness :
  exists fs',
    Write db fs_dir_json "users" "x" zoro
    = (fs', Some (LinkError "rename" (tmpPath db "users" "x")
                            (fnlPath db "users" "x") EEXIST))
    /\ ReadFile fs' (tmpPath db "users" "x")
       = ((json.MarshalIndent zoro "" (str TAB)).1 +:+ str LF, None)
    /\ Stat fs' (fnlPath db "users" "x") = (Some {| Mode := ModeDir |}, None).
Proof.
  apply (Write_failed_rename_leaves_temp db fs_dir_json "users" "x" zoro
           (json.MarshalIndent zoro "" (str TAB)).1
           {[ "users" := Dir {[ "x.json" := Dir ∅ ]} ]} ∅).
  - plain_name.
  - plain_name.
  - computes.
  - intros data E. refuted E.
  - computes.
  - intros m0 E. refuted E.
  - computes.
Defined.

End leftover.

(** * stat, and what Read is given *)

Section lookups.
Import filepath os.
Implicit Types (fs : FS) (t n : node) (p q : list string) (d : Driver)
  (m R : gmap string node).

Lemma walk_sibling_ENOTDIR t p x y :
  walk t (p ++ [x]) = inl ENOTDIR -> walk t (p ++ [y]) = inl ENOTDIR.
Proof.
  rewrite !walk_app. destruct (walk t p) as [e|[data|m]]; simpl; try done.
  by destruct (m !! x).
Qed.

(** X27: [stat] finds a path in either form.  For a path that ends in a
    plain name, as the driver's paths do, [stat] answers for the bare path
    when something is there; when nothing is there it answers for the path
    with [.json]; and it fails exactly when neither exists. *)
Theorem stat_finds_either_form fs elems x :
  valid_name x ->
  let path := Join (elems ++ [x]) in
  let bare := walk (tree fs) (resolve (cwd fs) path) in
  let suffixed := walk (tree fs) (resolve (cwd fs) (path +:+ ".json")) in
  (forall n, bare = inr n -> stat fs path = (Some (info_of n), None))
  /\ (forall n, (forall n', bare <> inr n') -> suffixed = inr n ->
                stat fs path = (Some (info_of n), None))
  /\ ((forall n, bare <> inr n) -> (forall n, suffixed <> inr n) ->
      exists e, stat fs path = (None, Some e)).
Proof.
  intros Hx path bare suffixed.
  destruct (Join_valid_path (cwd fs) elems x ".json" Hx eq_refl)
    as (parent & Hne & Pp & Pq & _); [done|].
  fold path in Hne, Pp, Pq.
  assert (path +:+ ".json" <> "") as Hnej by by apply app_not_empty.
  assert (stat fs path = match bare with
                         | inr n => (Some (info_of n), None)
                         | inl ENOENT => Stat fs (path +:+ ".json")
                         | inl e => (None, Some (PathError "stat" path e))
                         end) as E by by apply stat_spec.
  repeat split.
  - intros n En. by rewrite E, En.
  - intros n Hb Es. rewrite E. destruct bare as [e|n'] eqn:Eb; [|by destruct (Hb n')].
    destruct (walk_errno _ _ _ Eb) as [-> | ->].
    + by apply Stat_found.
    + subst bare suffixed. rewrite Pp in Eb. rewrite Pq in Es.
      by rewrite (walk_sibling_ENOTDIR _ _ _ _ Eb) in Es.
  - intros Hb Hs. rewrite E. destruct bare as [e|n'] eqn:Eb; [|by destruct (Hb n')].
    destruct (walk_errno _ _ _ Eb) as [-> | ->]; [|eauto].
    destruct suffixed as [e|n] eqn:Es; [|by destruct (Hs n)].
    rewrite (Stat_missing _ _ e) by done. eauto.
Qed.

Lemma stat_finds_either_form_witness :
  stat fs_two (Join (["db"; "users"] ++ ["a"]))
  = (Some {| Mode := ModeRegular |}, None).
Proof.
  destruct (stat_finds_either_form fs_two ["db"; "users"] "a") as (_ & H & _).
  - plain_name.
  - apply (H (File "1")).
    + intros n' E. refuted E.
    + computes.
Defined.

(** X28: the string given to [Read] has no part in its result: [Read]
    decodes into its own copy of it and returns the error alone. *)
Theorem Read_ignores_its_destination d fs c r v1 v2 :
  Read d fs c r v1 = Read d fs c r v2.
Proof.
  unfold Read. repeat case_decide; try done.
  destruct (stat _ _) as [? [|]]; [done|].
  destruct (ReadFile _ _) as [b [|]]; [done|].
  unfold json.Unmarshal. by destruct (json.parse b) as [[]|].
Qed.

End lookups.

(** * The locks *)

Section locks.
Import sync.
Implicit Types (l : Locks) (c : string) (m : nat).

Lemma Write_held_eq d fs c r v :
  c <> "" -> r <> "" -> Write_held d fs c r v = Write d fs c r v.
Proof. intros Hc Hr. unfold Write. by do 2 (case_decide; [done|]). Qed.

Lemma Delete_held_eq d fs c r :
  Delete_held d fs (filepath.Join [c; r]) = Delete d fs c r.
Proof. done. Qed.

Lemma getOrCreateMutex_free l c :
  mutex l = Unlocked ->
  getOrCreateMutex l c
  = Done (match mutexes l !! c with
          | Some m => (m, l)
          | None => (length (heap l),
                     {| mutex := Unlocked;
                        mutexes := <[c := length (heap l)]> (mutexes l);
                        heap := heap l ++ [Unlocked] |})
          end).
Proof.
  intros Hl. unfold getOrCreateMutex. rewrite Hl. simpl.
  destruct (mutexes l !! c) as [m|]; simpl; [|done].
  destruct l; simpl in *; by subst.
Qed.

Lemma getOrCreateMutex_held l c : mutex l = Locked -> getOrCreateMutex l c = Blocked.
Proof. intros Hl. unfold getOrCreateMutex. by rewrite Hl. Qed.

Lemma getOrCreateMutex_result l c m l' :
  mutex l = Unlocked -> getOrCreateMutex l c = Done (m, l') ->
  mutex l' = Unlocked
  /\ mutexes l' !! c = Some m
  /\ (forall c' m', mutexes l !! c' = Some m' -> mutexes l' !! c' = Some m')
  /\ (forall c' m', c' <> c -> mutexes l' !! c' = Some m' ->
                    mutexes l !! c' = Some m')
  /\ (mutexes l !! c = Some m /\ l' = l
      \/ mutexes l !! c = None /\ m = length (heap l)
         /\ heap l' = heap l ++ [Unlocked]).
Proof.
  intros Hl. rewrite getOrCreateMutex_free by done.
  destruct (mutexes l !! c) as [m0|] eqn:Ec; intros [= <- <-].
  - repeat split; try done. by left.
  - simpl. repeat split.
    + by rewrite lookup_insert_eq.
    + intros c' m' E. rewrite lookup_insert_ne; [done|]. congruence.
    + intros c' m' Hc. by rewrite lookup_insert_ne.
    + by right.
Qed.

Lemma getOrCreateMutex_again l c m l' :
  mutex l = Unlocked -> getOrCreateMutex l c = Done (m, l') ->
  getOrCreateMutex l' c = Done (m, l').
Proof.
  intros Hl E.
  destruct (getOrCreateMutex_result l c m l' Hl E) as (Hl' & Ec & _).
  by rewrite getOrCreateMutex_free, Ec.
Qed.

(** X22: [getOrCreateMutex] hands out one mutex per name.  Called with the
    registry's own mutex free, it returns a pointer and leaves that mutex
    free again; the map then binds the name to the pointer; no binding that
    was there has changed, and no mutex has been touched; a second call with
    the same name returns the same pointer and changes nothing. *)
Theorem getOrCreateMutex_same_mutex l c :
  mutex l = Unlocked ->
  exists m l',
    getOrCreateMutex l c = Done (m, l')
    /\ mutex l' = Unlocked
    /\ mutexes l' !! c = Some m
    /\ (forall c' m', mutexes l !! c' = Some m' -> mutexes l' !! c' = Some m')
    /\ heap l `prefix_of` heap l'
    /\ getOrCreateMutex l' c = Done (m, l').
Proof.
  intros Hl.
  destruct (getOrCreateMutex l c) as [[m l']| |] eqn:E;
    try by rewrite getOrCreateMutex_free in E.
  exists m, l'. split; [done|].
  destruct (getOrCreateMutex_result l c m l' Hl E) as (Hl' & Ec & Hkeep & _ & Hh).
  repeat split; try done.
  - destruct Hh as [[_ ->]|(_ & _ & ->)]; [done|]. by apply prefix_app_r.
  - by apply (getOrCreateMutex_again l).
Qed.

Lemma getOrCreateMutex_same_mutex_witness :
  exists m l',
    getOrCreateMutex New_locks "users" = Done (m, l')
    /\ getOrCreateMutex l' "users" = Done (m, l').
Proof.
  destruct (getOrCreateMutex_same_mutex New_locks "users")
    as (m & l' & E & _ & _ & _ & _ & E').
  - reflexivity.
  - by exists m, l'.
Defined.

Lemma registry_ok_New : registry_ok New_locks.
Proof. split; intros *; simpl; by rewrite lookup_empty. Qed.

Lemma getOrCreateMutex_ok l c m l' :
  registry_ok l -> mutex l = Unlocked -> getOrCreateMutex l c = Done (m, l') ->
  registry_ok l'.
Proof.
  intros [Hb Hi] Hl E.
  destruct (getOrCreateMutex_result l c m l' Hl E)
    as (_ & Ec & _ & Hold & [[_ ->]|(En & -> & Eh)]); [done|].
  split.
  - intros c' m' E'. rewrite Eh, length_app. simpl.
    destruct (decide (c' = c)) as [->|Hc]; [rewrite Ec in E'; simplify_eq; lia|].
    apply Hold in E'; [|done]. apply Hb in E'. lia.
  - intros c1 c2 m' E1 E2.
    destruct (decide (c1 = c)) as [->|H1], (decide (c2 = c)) as [->|H2]; [done|..].
    + rewrite Ec in E1. simplify_eq. apply Hold, Hb in E2; [lia|done].
    + rewrite Ec in E2. simplify_eq. apply Hold, Hb in E1; [lia|done].
    + apply Hold in E1, E2; try done. by eapply Hi.
Qed.

(** X23: no two collections share a mutex.  The registry [New] builds is
    well formed, and [getOrCreateMutex] keeps it so: every pointer in the
    map is the address of a mutex, and the pointer returned for a name is
    bound to that name only. *)
Theorem getOrCreateMutex_keeps_registry l c m l' :
  registry_ok l -> mutex l = Unlocked ->
  getOrCreateMutex l c = Done (m, l') ->
  registry_ok New_locks
  /\ registry_ok l'
  /\ m < length (heap l')
  /\ forall c', mutexes l' !! c' = Some m -> c' = c.
Proof.
  intros Hok Hl E. pose proof (getOrCreateMutex_ok l c m l' Hok Hl E) as Hok'.
  destruct (getOrCreateMutex_result l c m l' Hl E) as (_ & Ec & _).
  split; [apply registry_ok_New|]. split; [done|].
  destruct Hok' as [Hb Hi]. split; [by eapply Hb|].
  intros c' Ec'. by eapply Hi.
Qed.

Lemma getOrCreateMutex_keeps_registry_witness :
  registry_ok locks_users
  /\ forall c', mutexes locks_users !! c' = Some 0 -> c' = "users".
Proof.
  destruct (getOrCreateMutex_keeps_registry New_locks "users" 0 locks_users)
    as (_ & Hok & _ & Hone).
  - apply registry_ok_New.
  - reflexivity.
  - computes.
  - by split.
Defined.

Lemma locked_section {A} l m (x : A) :
  heap l !! m = Some Unlocked ->
  (l1 ← lock l m; l2 ← unlock l1 m; mret (l2, x)) = Done (l, x).
Proof.
  intros Hm. unfold lock. rewrite Hm. simpl. unfold unlock. simpl.
  rewrite list_lookup_insert_eq by (by eapply lookup_lt_Some). simpl.
  rewrite list_insert_insert_eq, list_insert_id by done. by destruct l.
Qed.


Lemma getOrCreateMutex_unlocked l c m l' :
  mutex l = Unlocked ->
  (forall m0, mutexes l !! c = Some m0 -> heap l !! m0 = Some Unlocked) ->
  getOrCreateMutex l c = Done (m, l') -> heap l' !! m = Some Unlocked.
Proof.
  intros Hl Hfree E.
  destruct (getOrCreateMutex_result l c m l' Hl E)
    as (_ & _ & _ & _ & [[Ec ->]|(_ & -> & ->)]); [by apply Hfree|].
  rewrite lookup_app_r by done. by rewrite Nat.sub_diag.
Qed.

(** X24: [Write] with its locks.  With the registry's mutex free and the
    collection's mutex, if there is one, free (other collections' mutexes
    may be held), [Write] returns what [Write] without locks computes.  With
    an empty name it returns before it touches the registry; otherwise it
    leaves the locks as its call of [getOrCreateMutex] left them: the mutex
    it locked is unlocked again, on every path. *)
Theorem Write_locked_computes_Write d l fs c r v :
  mutex l = Unlocked ->
  (forall m, mutexes l !! c = Some m -> heap l !! m = Some Unlocked) ->
  (c = "" \/ r = "" -> Write_locked d l fs c r v = Done (l, Write d fs c r v))
  /\ (c <> "" -> r <> "" ->
      exists m l',
        getOrCreateMutex l c = Done (m, l')
        /\ Write_locked d l fs c r v = Done (l', Write d fs c r v)).
Proof.
  intros Hl Hfree. split.
  - intros Hcr. unfold Write_locked, Write. repeat case_decide; try done.
    by destruct Hcr.
  - intros Hc Hr. unfold Write_locked. do 2 (case_decide; [done|]).
    destruct (getOrCreateMutex l c) as [[m l']| |] eqn:E;
      try by rewrite getOrCreateMutex_free in E.
    exists m, l'. split; [done|]. simpl.
    rewrite <- (Write_held_eq d fs c r v) by done.
    apply locked_section. by eapply getOrCreateMutex_unlocked.
Qed.

Lemma Write_locked_computes_Write_witness :
  exists m l',
    getOrCreateMutex New_locks "users" = Done (m, l')
    /\ Write_locked db New_locks fs_db "users" "Zoro" zoro
       = Done (l', Write db fs_db "users" "Zoro" zoro).
Proof.
  destruct (Write_locked_computes_Write db New_locks fs_db "users" "Zoro" zoro) as [_ H].
  - reflexivity.
  - intros m E. refuted E.
  - by apply H.
Defined.

(** X25: [Delete] with its locks.  With the registry's mutex free and the
    collection's mutex, if there is one, free, [Delete] returns what
    [Delete] without locks computes, and leaves the locks as its call of
    [getOrCreateMutex] left them.  That call comes first: the collection
    name, even an empty one or one that names nothing, is in the registry
    afterwards. *)
Theorem Delete_locked_computes_Delete d l fs c r :
  mutex l = Unlocked ->
  (forall m, mutexes l !! c = Some m -> heap l !! m = Some Unlocked) ->
  exists m l',
    getOrCreateMutex l c = Done (m, l')
    /\ Delete_locked d l fs c r = Done (l', Delete d fs c r).
Proof.
  intros Hl Hfree. unfold Delete_locked.
  destruct (getOrCreateMutex l c) as [[m l']| |] eqn:E;
    try by rewrite getOrCreateMutex_free in E.
  exists m, l'. split; [done|]. simpl.
  rewrite <- Delete_held_eq. apply locked_section.
  by eapply getOrCreateMutex_unlocked.
Qed.

Lemma Delete_locked_computes_Delete_witness :
  exists m l',
    getOrCreateMutex New_locks "" = Done (m, l')
    /\ Delete_locked db New_locks fs_db "" "missing"
       = Done (l', Delete db fs_db "" "missing").
Proof.
  apply (Delete_locked_computes_Delete db New_locks fs_db "" "missing").
  - reflexivity.
  - intros m E. refuted E.
Defined.



End locks.

(** * The text of a record

    [Write] stores the text of [MarshalIndent] and a line feed.  The decoder
    accepts that text and reads back the tree the encoder printed: string
    literals first, then numbers, then whole trees. *)

Ltac all_bits a :=
  let b0 := fresh "b" in let b1 := fresh "b" in let b2 := fresh "b" in
  let b3 := fresh "b" in let b4 := fresh "b" in let b5 := fresh "b" in
  let b6 := fresh "b" in let b7 := fresh "b" in
  destruct a as [b0 b1 b2 b3 b4 b5 b6 b7];
  destruct b0, b1, b2, b3, b4, b5, b6, b7.

Section strings.
Import json.

Lemma ascii_top_bit b0 b1 b2 b3 b4 b5 b6 b7 :
  between 0 0x7F (Ascii b0 b1 b2 b3 b4 b5 b6 b7) = negb b7.
Proof. by destruct b0, b1, b2, b3, b4, b5, b6, b7. Qed.

Ltac ascii_cases a Ha :=
  let b0 := fresh "b" in let b1 := fresh "b" in let b2 := fresh "b" in
  let b3 := fresh "b" in let b4 := fresh "b" in let b5 := fresh "b" in
  let b6 := fresh "b" in let b7 := fresh "b" in
  destruct a as [b0 b1 b2 b3 b4 b5 b6 b7];
  rewrite ascii_top_bit in Ha; destruct b7; [discriminate Ha|clear Ha];
  destruct b0, b1, b2, b3, b4, b5, b6.

Lemma scan_escape_byte a X :
  between 0 0x7F a = true ->
  scan_string (escape_byte a +:+ X) = push (escape_byte a) (scan_string X).
Proof. intros Ha. ascii_cases a Ha; reflexivity. Qed.

Lemma unquote_escape_byte a Y :
  between 0 0x7F a = true ->
  unquote 0 (escape_byte a +:+ Y) = String a (unquote 0 Y).
Proof. intros Ha. ascii_cases a Ha; reflexivity. Qed.

Lemma scan_raw a X :
  between 0 0x7F a = false ->
  scan_string (String a X) = push (str a) (scan_string X).
Proof.
  intros Ha. destruct a as [b0 b1 b2 b3 b4 b5 b6 b7].
  rewrite ascii_top_bit in Ha. destruct b7; [|discriminate Ha].
  destruct b0, b1, b2, b3, b4, b5, b6; reflexivity.
Qed.

End strings.

Section utf8.
Import json.

Lemma between_high lo hi b :
  (0x80 <= lo)%N -> between lo hi b = true -> between 0 0x7F b = false.
Proof.
  unfold between. intros Hlo H. apply bool_decide_eq_true in H.
  apply bool_decide_eq_false. lia.
Qed.

Lemma second_high a b : second_of a b = true -> between 0 0x7F b = false.
Proof.
  unfold second_of. repeat case_bool_decide; apply between_high; lia.
Qed.

Lemma utf8_size_eq a r :
  utf8_size (String a r)
  = if between 0 0x7F a then Some 1
    else if between 0xC2 0xDF a then
      match r with
      | String b _ => if second_of a b then Some 2 else None
      | _ => None
      end
    else if between 0xE0 0xEF a then
      match r with
      | String b (String c _) =>
          if second_of a b && between 0x80 0xBF c then Some 3 else None
      | _ => None
      end
    else if between 0xF0 0xF4 a then
      match r with
      | String b (String c (String d _)) =>
          if second_of a b && between 0x80 0xBF c && between 0x80 0xBF d
          then Some 4 else None
      | _ => None
      end
    else None.
Proof. reflexivity. Qed.

(** What follows the lead byte of a well-formed sequence of [n] bytes:
    [n - 1] bytes that are not ASCII, which [escape] passes through. *)
Lemma utf8_size_tail a r n :
  between 0 0x7F a = false -> utf8_size (String a r) = Some n ->
  raw_ok (n - 1) r
  /\ forall t, utf8_size (String a (escape (n - 1) r +:+ t)) = Some n.
Proof.
  intros Ha. rewrite utf8_size_eq, Ha.
  destruct (between 0xC2 0xDF a) eqn:E2.
  { destruct r as [|b r]; [done|]. destruct (second_of a b) eqn:Eb; [|done].
    intros [= <-]. split.
    - simpl. split; [by eapply second_high|done].
    - intros t. change (escape (2 - 1) (String b r)) with (String b (escape 0 r)).
      by rewrite !app_cons_s, utf8_size_eq, Ha, E2, Eb. }
  destruct (between 0xE0 0xEF a) eqn:E3.
  { destruct r as [|b [|c r]]; try done.
    destruct (second_of a b) eqn:Eb; [|done].
    destruct (between 0x80 0xBF c) eqn:Ec; [|done].
    intros [= <-]. split.
    - simpl. repeat split; [by eapply second_high|by eapply between_high].
    - intros t.
      change (escape (3 - 1) (String b (String c r)))
        with (String b (String c (escape 0 r))).
      by rewrite !app_cons_s, utf8_size_eq, Ha, E2, E3, Eb, Ec. }
  destruct (between 0xF0 0xF4 a) eqn:E4; [|done].
  destruct r as [|b [|c [|d r]]]; try done.
  destruct (second_of a b) eqn:Eb; [|done].
  destruct (between 0x80 0xBF c) eqn:Ec; [|done].
  destruct (between 0x80 0xBF d) eqn:Ed; [|done].
  intros [= <-]. split.
  - simpl. repeat split; [by eapply second_high|by eapply between_high..].
  - intros t.
    change (escape (4 - 1) (String b (String c (String d r))))
      with (String b (String c (String d (escape 0 r)))).
    by rewrite !app_cons_s, utf8_size_eq, Ha, E2, E3, E4, Eb, Ec, Ed.
Qed.

End utf8.

Section literals.
Import json.

Lemma app_empty_r (s : string) : s +:+ "" = s.
Proof. induction s as [|a s IH]; [done|]. by rewrite app_cons_s, IH. Qed.

Lemma byte_eq a n : byte a = n -> a = chr n.
Proof. intros <-. unfold byte, chr. by rewrite ascii_N_embedding. Qed.

Lemma escape_eq a r :
  escape 0 (String a r)
  = if between 0 0x7F a then escape_byte a +:+ escape 0 r
    else
      match utf8_size (String a r) with
      | None => String backslash "ufffd" +:+ escape 0 r
      | Some n =>
          match r with
          | String b (String c r') =>
              if bool_decide (byte a = 0xE2 /\ byte b = 0x80
                              /\ (byte c = 0xA8 \/ byte c = 0xA9))%N
              then String backslash "u202"
                   +:+ String (hex (byte c mod 16)) (escape 0 r')
              else String a (escape (n - 1) r)
          | _ => String a (escape (n - 1) r)
          end
      end.
Proof. reflexivity. Qed.

Lemma unquote_raw a r :
  between 0 0x7F a = false ->
  unquote 0 (String a r)
  = match utf8_size (String a r) with
    | None => RuneError +:+ unquote 0 r
    | Some n => String a (unquote (n - 1) r)
    end.
Proof.
  intros Ha. destruct a as [b0 b1 b2 b3 b4 b5 b6 b7].
  rewrite ascii_top_bit in Ha. destruct b7; [|discriminate Ha].
  destruct b0, b1, b2, b3, b4, b5, b6; reflexivity.
Qed.

Lemma scan_escape n :
  forall s copy X,
    String.length s <= n -> raw_ok copy s ->
    scan_string (escape copy s +:+ String DQUOTE X) = Some (escape copy s, X).
Proof.
  induction n as [n IH] using lt_wf_ind. intros [|a r] copy X Hn Hraw.
  { by destruct copy. }
  simpl in Hn. destruct copy as [|k].
  2:{ destruct Hraw as [Ha Hraw].
      change (escape (S k) (String a r)) with (String a (escape k r)).
      rewrite app_cons_s, scan_raw by done.
      by rewrite (IH (String.length r)) by (lia || done). }
  rewrite escape_eq. destruct (between 0 0x7F a) eqn:Ha.
  { rewrite app_assoc_s, scan_escape_byte by done.
    by rewrite (IH (String.length r)) by (lia || done). }
  destruct (utf8_size (String a r)) as [m|] eqn:Eu.
  2:{ rewrite app_assoc_s.
      change (scan_string (String backslash "ufffd" +:+ (escape 0 r +:+ String DQUOTE X)))
        with (push (String backslash "ufffd") (scan_string (escape 0 r +:+ String DQUOTE X))).
      by rewrite (IH (String.length r)) by (lia || done). }
  destruct (utf8_size_tail a r m Ha Eu) as [Hraw' _].
  assert (scan_string (String a (escape (m - 1) r) +:+ String DQUOTE X)
          = Some (String a (escape (m - 1) r), X)) as Hgen.
  { rewrite app_cons_s, scan_raw by done.
    by rewrite (IH (String.length r)) by (lia || done). }
  destruct r as [|b [|c r']]; try done.
  case_bool_decide as Hsep; [|done].
  destruct Hsep as (_ & _ & Hc). simpl in Hn.
  assert (scan_string (escape 0 r' +:+ String DQUOTE X) = Some (escape 0 r', X)) as E'
    by (apply (IH (String.length r')); (lia || done)).
  rewrite app_assoc_s, (app_cons_s (hex _)).
  destruct Hc as [Hc|Hc]; rewrite Hc.
  - change (scan_string
             (String backslash "u202"
              +:+ String (hex (168 mod 16)) (escape 0 r' +:+ String DQUOTE X)))
      with (push (String backslash "u2028")
                 (scan_string (escape 0 r' +:+ String DQUOTE X))).
    by rewrite E'.
  - change (scan_string
             (String backslash "u202"
              +:+ String (hex (169 mod 16)) (escape 0 r' +:+ String DQUOTE X)))
      with (push (String backslash "u2029")
                 (scan_string (escape 0 r' +:+ String DQUOTE X))).
    by rewrite E'.
Qed.

Lemma unquote_escape n :
  forall s copy,
    String.length s <= n -> unquote copy (escape copy s) = coerce copy s.
Proof.
  induction n as [n IH] using lt_wf_ind. intros [|a r] copy Hn.
  { by destruct copy. }
  simpl in Hn. destruct copy as [|k].
  2:{ change (unquote (S k) (escape (S k) (String a r)))
        with (String a (unquote k (escape k r))).
      rewrite (IH (String.length r)) by lia. done. }
  rewrite escape_eq. change (coerce 0 (String a r))
    with (if between 0 0x7F a then String a (coerce 0 r)
          else match utf8_size (String a r) with
               | None => RuneError +:+ coerce 0 r
               | Some m => String a (coerce (m - 1) r)
               end).
  destruct (between 0 0x7F a) eqn:Ha.
  { rewrite unquote_escape_byte by done. by rewrite (IH (String.length r)) by lia. }
  destruct (utf8_size (String a r)) as [m|] eqn:Eu.
  2:{ change (unquote 0 (String backslash "ufffd" +:+ escape 0 r))
        with (RuneError +:+ unquote 0 (escape 0 r)).
      by rewrite (IH (String.length r)) by lia. }
  destruct (utf8_size_tail a r m Ha Eu) as [_ Hsize].
  assert (unquote 0 (String a (escape (m - 1) r)) = String a (coerce (m - 1) r))
    as Hgen.
  { rewrite unquote_raw by done. specialize (Hsize ""). rewrite app_empty_r in Hsize.
    rewrite Hsize. by rewrite (IH (String.length r)) by lia. }
  destruct r as [|b [|c r']]; try done.
  case_bool_decide as Hsep; [|done].
  destruct Hsep as (Ea & Eb & Hc). simpl in Hn.
  apply byte_eq in Ea, Eb. subst a b.
  assert (unquote 0 (escape 0 r') = coerce 0 r') as E'
    by (apply (IH (String.length r')); lia).
  destruct Hc as [Hc|Hc]; pose proof Hc as Ec; apply byte_eq in Ec; subst c;
    cbv in Eu; simplify_eq;
    match goal with
    | |- unquote 0 (?pre +:+ String ?h ?Y) = _ =>
        change (unquote 0 (pre +:+ String h Y))
          with (encode_rune 0x2028 +:+ unquote 0 Y)
        || change (unquote 0 (pre +:+ String h Y))
          with (encode_rune 0x2029 +:+ unquote 0 Y)
    end; rewrite E'; reflexivity.
Qed.

End literals.

Section numbers.
Import json.

Lemma scan_number_stages s :
  scan_number s
  = let '(sign, s1) := scan_sign s in
    match scan_int s1 with
    | None => None
    | Some (i, s2) =>
        match scan_frac s2 with
        | None => None
        | Some (f, s3) =>
            match scan_exp s3 with
            | None => None
            | Some (e, s4) => Some (sign +:+ i +:+ f +:+ e, s4)
            end
        end
    end.
Proof.
  assert (forall s, scan_sign s
          = match s with
            | String "-" r => ("-", r)
            | _ => ("", s)
            end) as Hsign.
  { intros [|c s0]; [done|]. unfold scan_sign. all_bits c; reflexivity. }
  assert (forall s1, scan_int s1
          = match s1 with
            | String "0" r => Some ("0", r)
            | String a _ => if digit a then Some (digits s1) else None
            | EmptyString => None
            end) as Hint.
  { intros [|c s1]; [done|]. unfold scan_int. all_bits c; reflexivity. }
  assert (forall s2, scan_frac s2
          = match s2 with
            | String "." r =>
                match digits r with
                | ("", _) => None
                | (ds, rest) => Some ("." +:+ ds, rest)
                end
            | _ => Some ("", s2)
            end) as Hfrac.
  { intros [|c s2]; [done|]. unfold scan_frac. all_bits c; reflexivity. }
  unfold scan_number. rewrite Hsign.
  match goal with
  | |- _ = (let '(_, _) := ?p in _) => destruct p as [sign s1]
  end.
  rewrite Hint.
  match goal with
  | |- _ = match ?p with Some _ => _ | None => _ end =>
      destruct p as [[i s2]|]; [|reflexivity]
  end.
  rewrite Hfrac. reflexivity.
Qed.

Lemma ends_value_head a rest :
  ends_value (String a rest) ->
  digit a = false /\ a <> "."%char /\ a <> "-"%char
  /\ bool_decide (a = "e"%char \/ a = "E"%char) = false.
Proof. intros [-> | ->]; by repeat split. Qed.

Lemma digits_cons a s :
  digits (String a s)
  = if digit a then (String a (digits s).1, (digits s).2) else ("", String a s).
Proof. simpl. destruct (digit a); [|done]. by destruct (digits s). Qed.

Lemma digits_app s rest ds r :
  digits s = (ds, r) -> (r = "" -> ends_value rest) ->
  digits (s +:+ rest) = (ds, r +:+ rest).
Proof.
  revert ds r. induction s as [|a s IH]; intros ds r E Hr.
  - simpl in E. simplify_eq. change ("" +:+ rest) with rest.
    destruct rest as [|c rest]; [done|].
    destruct (ends_value_head c rest) as (Hd & _); [by apply Hr|].
    by rewrite digits_cons, Hd.
  - rewrite app_cons_s, digits_cons. rewrite digits_cons in E.
    destruct (digit a); [|by simplify_eq].
    destruct (digits s) as [ds' r'] eqn:Es. simpl in E. simplify_eq.
    by rewrite (IH ds' r).
Qed.

Lemma digits_prefix s ds r : digits s = (ds, r) -> s = ds +:+ r.
Proof.
  revert ds r. induction s as [|a s IH]; intros ds r E.
  - simpl in E. by simplify_eq.
  - rewrite digits_cons in E. destruct (digit a); [|by simplify_eq].
    destruct (digits s) as [ds' r'] eqn:Es. simpl in E. simplify_eq.
    rewrite app_cons_s. f_equal. by apply IH.
Qed.

Lemma scan_int_app s1 rest i s2 :
  scan_int s1 = Some (i, s2) -> (s2 = "" -> ends_value rest) ->
  scan_int (s1 +:+ rest) = Some (i, s2 +:+ rest) /\ s1 = i +:+ s2.
Proof.
  destruct s1 as [|a s1]; [done|]. unfold scan_int. rewrite app_cons_s.
  case_decide as E0.
  - intros [= <- <-] _. by subst.
  - destruct (digit a) eqn:Ed; [|done]. intros [= E] Hr. split.
    + rewrite <- app_cons_s. by rewrite (digits_app _ _ i s2).
    + by apply digits_prefix.
Qed.

Lemma scan_frac_app s2 rest f s3 :
  scan_frac s2 = Some (f, s3) -> (s3 = "" -> ends_value rest) ->
  scan_frac (s2 +:+ rest) = Some (f, s3 +:+ rest) /\ s2 = f +:+ s3.
Proof.
  destruct s2 as [|a s2].
  - intros [= <- <-] Hr. split; [|done]. change ("" +:+ rest) with rest.
    destruct rest as [|c rest]; [done|].
    destruct (ends_value_head c rest) as (_ & Hdot & _); [by apply Hr|].
    unfold scan_frac. by rewrite decide_False.
  - unfold scan_frac. rewrite app_cons_s. case_decide as E0.
    + destruct (digits s2) as [ds r] eqn:Ed. intros E Hr.
      assert (ds <> "" /\ f = "." +:+ ds /\ s3 = r) as (Hds & -> & ->)
        by (destruct ds; by simplify_eq).
      rewrite (digits_app _ _ ds r) by done. split.
      * by destruct ds.
      * subst a. rewrite (digits_prefix _ _ _ Ed). reflexivity.
    + by intros [= <- <-] _.
Qed.

Lemma scan_exp_app s3 rest e s4 :
  scan_exp s3 = Some (e, s4) -> (s4 = "" -> ends_value rest) ->
  scan_exp (s3 +:+ rest) = Some (e, s4 +:+ rest) /\ s3 = e +:+ s4.
Proof.
  destruct s3 as [|a s3].
  - intros [= <- <-] Hr. split; [|done]. change ("" +:+ rest) with rest.
    destruct rest as [|c rest]; [done|].
    destruct (ends_value_head c rest) as (_ & _ & _ & He); [by apply Hr|].
    unfold scan_exp. by rewrite He.
  - unfold scan_exp. rewrite app_cons_s.
    destruct (bool_decide (a = "e"%char \/ a = "E"%char)); [|by intros [= <- <-] _].
    destruct s3 as [|g s3].
    { done. }
    rewrite app_cons_s.
    destruct (bool_decide (g = "+"%char \/ g = "-"%char)).
    + destruct (digits s3) as [ds r] eqn:Ed. intros E Hr.
      assert (ds <> "" /\ e = str a +:+ str g +:+ ds /\ s4 = r) as (Hds & -> & ->)
        by (destruct ds; by simplify_eq).
      rewrite (digits_app _ _ ds r) by done. split.
      * by destruct ds.
      * rewrite (digits_prefix _ _ _ Ed). reflexivity.
    + destruct (digits (String g s3)) as [ds r] eqn:Ed. intros E Hr.
      assert (ds <> "" /\ e = str a +:+ "" +:+ ds /\ s4 = r) as (Hds & -> & ->)
        by (destruct ds; by simplify_eq).
      rewrite <- app_cons_s. rewrite (digits_app _ _ ds r) by done. split.
      * by destruct ds.
      * rewrite (digits_prefix _ _ _ Ed). reflexivity.
Qed.

(** A number literal followed by the end of a value is scanned whole. *)
Lemma scan_number_app lit rest :
  isValidNumber lit = true -> ends_value rest ->
  scan_number (lit +:+ rest) = Some (lit, rest)
  /\ exists a r, lit = String a r /\ (a = "-"%char \/ digit a = true).
Proof.
  unfold isValidNumber. rewrite !scan_number_stages. intros E Hrest.
  destruct lit as [|a lit]; [done|].
  rewrite app_cons_s. unfold scan_sign in *.
  destruct (decide (a = "-"%char)) as [->|Ha].
  - destruct (scan_int lit) as [[i s2]|] eqn:Ei; [|done].
    destruct (scan_frac s2) as [[f s3]|] eqn:Ef; [|done].
    destruct (scan_exp s3) as [[e s4]|] eqn:Ee; [|done].
    destruct s4; [|done].
    destruct (scan_exp_app _ rest _ _ Ee) as [Ee' Pe]; [done|].
    destruct (scan_frac_app _ rest _ _ Ef) as [Ef' Pf]; [done|].
    destruct (scan_int_app _ rest _ _ Ei) as [Ei' Pi]; [done|].
    rewrite Ei', Ef', Ee'. split; [|by eauto].
    rewrite Pi, Pf, Pe, app_empty_r. reflexivity.
  - destruct (scan_int (String a lit)) as [[i s2]|] eqn:Ei; [|done].
    destruct (scan_frac s2) as [[f s3]|] eqn:Ef; [|done].
    destruct (scan_exp s3) as [[e s4]|] eqn:Ee; [|done].
    destruct s4; [|done].
    destruct (scan_exp_app _ rest _ _ Ee) as [Ee' Pe]; [done|].
    destruct (scan_frac_app _ rest _ _ Ef) as [Ef' Pf]; [done|].
    destruct (scan_int_app _ rest _ _ Ei) as [Ei' Pi]; [done|].
    rewrite <- app_cons_s, Ei', Ef', Ee'. split.
    + rewrite Pi, Pf, Pe, app_empty_r. reflexivity.
    + exists a, lit. split; [done|]. right.
      unfold scan_int in Ei. case_decide; [by subst|]. by destruct (digit a).
Qed.

End numbers.

Section itoa.
Import json.

Lemma nzhead_not_D0 d u : Decimal.nzhead d <> Decimal.D0 u.
Proof. induction d; simpl; congruence. Qed.

Lemma to_uint_head p u : Pos.to_uint p <> Decimal.D0 u.
Proof.
  pose proof (DecimalPos.Unsigned.to_of (Pos.to_uint p)) as E.
  rewrite DecimalPos.Unsigned.of_to in E. simpl in E. rewrite E.
  unfold Decimal.unorm. pose proof (nzhead_not_D0 (Pos.to_uint p)) as Hn.
  destruct (Decimal.nzhead (Pos.to_uint p)) eqn:Eh; try congruence.
  exfalso. apply (DecimalPos.Unsigned.to_uint_nonzero p).
  rewrite E. unfold Decimal.unorm. by rewrite Eh.
Qed.

Lemma digits_uint u :
  digits (NilEmpty.string_of_uint u) = (NilEmpty.string_of_uint u, "").
Proof. induction u; simpl; [done|by rewrite IHu..]. Qed.

Lemma uint_valid u :
  u <> Decimal.Nil -> (forall u', u <> Decimal.D0 u') ->
  scan_number (NilEmpty.string_of_uint u) = Some (NilEmpty.string_of_uint u, "").
Proof.
  intros Hnil Hz. rewrite scan_number_stages.
  destruct u as [|u|u|u|u|u|u|u|u|u|u]; [done|by destruct (Hz u)|..].
  all: simpl; unfold scan_sign, scan_int; simpl; rewrite digits_uint; simpl.
  all: change ("" +:+ "") with ""; rewrite app_empty_r; reflexivity.
Qed.

Lemma itoa_valid n : isValidNumber (itoa n) = true.
Proof.
  unfold isValidNumber, itoa. destruct n as [|p|p]; [done| |].
  - simpl.
    pose proof (DecimalPos.Unsigned.to_uint_nonnil p) as Hnil.
    pose proof (to_uint_head p) as Hz.
    assert (NilZero.string_of_uint (Pos.to_uint p)
            = NilEmpty.string_of_uint (Pos.to_uint p)) as ->
      by (by destruct (Pos.to_uint p)).
    by rewrite uint_valid.
  - simpl.
    pose proof (DecimalPos.Unsigned.to_uint_nonnil p) as Hnil.
    pose proof (to_uint_head p) as Hz.
    assert (NilZero.string_of_uint (Pos.to_uint p)
            = NilEmpty.string_of_uint (Pos.to_uint p)) as ->
      by (by destruct (Pos.to_uint p)).
    pose proof (uint_valid (Pos.to_uint p) Hnil Hz) as E.
    rewrite scan_number_stages in *. unfold scan_sign at 1.
    rewrite decide_True by done.
    destruct (NilEmpty.string_of_uint (Pos.to_uint p)) as [|c s] eqn:Es; [done|].
    unfold scan_sign in E.
    destruct (decide (c = "-"%char)) as [->|Hc].
    { destruct (Pos.to_uint p); done. }
    destruct (scan_int (String c s)) as [[i s2]|]; [|done].
    destruct (scan_frac s2) as [[f s3]|]; [|done].
    destruct (scan_exp s3) as [[e s4]|]; [|done].
    by simplify_eq.
Qed.

End itoa.

Section trees.
Import json.

Lemma tree_ind' (P : tree -> Prop) :
  P JNull -> (forall b, P (JBool b)) -> (forall lit, P (JNumber lit)) ->
  (forall s, P (JString s)) ->
  (forall elems, Forall P elems -> P (JArray elems)) ->
  (forall members, Forall (fun m => P (snd m)) members -> P (JObject members)) ->
  forall j, P j.
Proof.
  intros Hnull Hbool Hnum Hstr Harr Hobj. fix IH 1. intros [|b|lit|s|elems|members].
  - apply Hnull.
  - apply Hbool.
  - apply Hnum.
  - apply Hstr.
  - apply Harr. induction elems as [|e elems IHl]; constructor; [apply IH|apply IHl].
  - apply Hobj. induction members as [|[k v] members IHl]; constructor;
      [apply IH|apply IHl].
Qed.

Lemma value_ind' (P : value -> Prop) :
  P VNil -> (forall b, P (VBool b)) -> (forall n, P (VInt n)) ->
  (forall lit, P (VNumber lit)) -> (forall s, P (VString s)) ->
  (forall elems, Forall P elems -> P (VSlice elems)) ->
  (forall fields, Forall (fun f => P (snd f)) fields -> P (VStruct fields)) ->
  P VChan ->
  forall v, P v.
Proof.
  intros Hnil Hbool Hint Hnum Hstr Hsl Hst Hch. fix IH 1.
  intros [|b|n|lit|s|elems|fields|].
  - apply Hnil.
  - apply Hbool.
  - apply Hint.
  - apply Hnum.
  - apply Hstr.
  - apply Hsl. induction elems as [|e elems IHl]; constructor; [apply IH|apply IHl].
  - apply Hst. induction fields as [|[k v] fields IHl]; constructor;
      [apply IH|apply IHl].
  - apply Hch.
Qed.

(** The encoder writes valid numbers only. *)
Lemma encode_numbers_valid v j : encode v = inl j -> numbers_valid j = true.
Proof.
  revert j. induction v as [|b|n|lit|s|elems IH|fields IH|] using value_ind';
    intros j E; simpl in E; simplify_eq; try done.
  - apply itoa_valid.
  - destruct (isValidNumber _) eqn:Ev; by simplify_eq.
  - match type of E with
    | match ?x with _ => _ end = _ => destruct x as [js|] eqn:Eall; [|done]
    end.
    simplify_eq. simpl. revert js Eall.
    induction IH as [|e elems He _ IHl]; intros js Eall.
    + by simplify_eq.
    + destruct (encode e) as [je|] eqn:Ee; [|done].
      match type of Eall with
      | match ?x with _ => _ end = _ => destruct x as [js'|] eqn:Eall'; [|done]
      end.
      simplify_eq. simpl. rewrite (He je) by done. by apply IHl.
  - match type of E with
    | match ?x with _ => _ end = _ => destruct x as [ms|] eqn:Eall; [|done]
    end.
    simplify_eq. simpl. revert ms Eall.
    induction IH as [|[k e] fields He _ IHl]; intros ms Eall.
    + by simplify_eq.
    + simpl in He. destruct (encode e) as [je|] eqn:Ee; [|done].
      match type of Eall with
      | match ?x with _ => _ end = _ => destruct x as [ms'|] eqn:Eall'; [|done]
      end.
      simplify_eq. simpl. rewrite (He je) by done. by apply IHl.
Qed.

End trees.

Section parse.
Import json.

Local Abbreviation nl := (newline "" (str TAB)).
Local Abbreviation pr := (print "" (str TAB)).

Lemma skip_tabs d s :
  skip (String.concat "" (replicate d (str TAB)) +:+ s) = skip s.
Proof.
  induction d as [|d IH]; [done|]. destruct d as [|d]; [done|].
  change (String.concat "" (replicate (S (S d)) (str TAB)))
    with (str TAB +:+ "" +:+ String.concat "" (replicate (S d) (str TAB))).
  rewrite !app_assoc_s. change ("" +:+ ?x) with x. by rewrite <- IH.
Qed.

Lemma nl_cons d : nl d = String LF (String.concat "" (replicate d (str TAB))).
Proof. reflexivity. Qed.

Lemma skip_nl d s : skip (nl d +:+ s) = skip s.
Proof. rewrite nl_cons, app_cons_s. by rewrite <- (skip_tabs d s). Qed.

Lemma ends_nl d s : ends_value (nl d +:+ s).
Proof. rewrite nl_cons, app_cons_s. by right. Qed.

Lemma parse_value_ws f s s' : skip s = skip s' -> parse_value f s = parse_value f s'.
Proof. intros E. destruct f; [done|]. cbn [parse_value]. by rewrite E. Qed.

Lemma parse_members_ws f s s' acc :
  skip s = skip s' -> parse_members f s acc = parse_members f s' acc.
Proof. intros E. destruct f; [done|]. cbn [parse_members]. by rewrite E. Qed.

Lemma skip_skip s : skip (skip s) = skip s.
Proof.
  induction s as [|a s IH]; [done|]. simpl. destruct (space a) eqn:Ea; [done|].
  simpl. by rewrite Ea.
Qed.

Lemma number_head a :
  a = "-"%char \/ digit a = true ->
  space a = false /\ a <> "]"%char /\ a <> "}"%char /\ a <> ","%char.
Proof.
  intros [->|Ha]; [done|]. revert Ha.
  all_bits a; first [by (intros Ha; lazy in Ha)|done].
Qed.

Lemma parse_value_number f a s :
  a = "-"%char \/ digit a = true ->
  parse_value (S f) (String a s)
  = match scan_number (String a s) with
    | Some (lit, rest) => Some (JNumber lit, rest)
    | None => None
    end.
Proof.
  intros [->|Ha]; [done|]. revert Ha.
  all_bits a; first [by (intros Ha; lazy in Ha)|reflexivity].
Qed.

Lemma print_array d elems :
  pr d (JArray elems)
  = match elems with
    | [] => "[]"
    | _ => "[" +:+ nl (S d)
           +:+ String.concat ("," +:+ nl (S d)) (map (pr (S d)) elems)
           +:+ nl d +:+ "]"
    end.
Proof. by destruct elems. Qed.

Lemma print_object d members :
  pr d (JObject members)
  = match members with
    | [] => "{}"
    | _ => "{" +:+ nl (S d)
           +:+ String.concat ("," +:+ nl (S d))
                 (map (fun m => quote (fst m) +:+ ": " +:+ pr (S d) (snd m))
                      members)
           +:+ nl d +:+ "}"
    end.
Proof. by destruct members. Qed.

(** The first byte of an encoded value: no white space, no closing
    bracket. *)
Lemma print_head d j :
  numbers_valid j = true ->
  exists a r, pr d j = String a r
    /\ space a = false /\ a <> "]"%char /\ a <> "}"%char.
Proof.
  intros Hv. destruct j as [|[]|lit|s|elems|members].
  - by exists "n"%char, "ull".
  - by exists "t"%char, "rue".
  - by exists "f"%char, "alse".
  - simpl in Hv. destruct (scan_number_app lit "" Hv I) as (_ & a & r & -> & Ha).
    exists a, r. split; [done|]. by apply number_head in Ha as (? & ? & ? & _).
  - exists DQUOTE, (escape 0 s +:+ str DQUOTE). by repeat split.
  - rewrite print_array. destruct elems; eexists _, _; by repeat split.
  - rewrite print_object. destruct members; eexists _, _; by repeat split.
Qed.

Lemma parse_elems_eq f s acc :
  parse_elems (S f) s acc
  = match parse_value f s with
    | Some (v, rest) =>
        match skip rest with
        | String c r =>
            if decide (c = ","%char) then parse_elems f r (v :: acc)
            else if decide (c = "]"%char)
            then Some (JArray (reverse (v :: acc)), r)
            else None
        | EmptyString => None
        end
    | None => None
    end.
Proof. reflexivity. Qed.

Lemma parse_members_eq f q r acc :
  space q = false ->
  parse_members (S f) (String q r) acc
  = if decide (q = DQUOTE) then
      match scan_string r with
      | Some (key, rest) =>
          match skip rest with
          | String c r1 =>
              if decide (c = ":"%char) then
                match parse_value f r1 with
                | Some (v, rest2) =>
                    let acc := (unquote 0 key, v) :: acc in
                    match skip rest2 with
                    | String c2 r2 =>
                        if decide (c2 = ","%char)
                        then parse_members f r2 acc
                        else if decide (c2 = "}"%char)
                        then Some (JObject (reverse acc), r2)
                        else None
                    | EmptyString => None
                    end
                | None => None
                end
              else None
          | EmptyString => None
          end
      | None => None
      end
    else None.
Proof. intros Hq. cbn [parse_members skip]. by rewrite Hq. Qed.

Lemma parse_elems_list d rest elems :
  Forall parses elems -> forallb numbers_valid elems = true ->
  forall e acc fuel,
    parses e -> numbers_valid e = true ->
    list_sum (map (fun e => S (weight e)) (e :: elems)) <= fuel ->
    parse_elems fuel
      (nl (S d) +:+ (String.concat ("," +:+ nl (S d)) (map (pr (S d)) (e :: elems))
                     +:+ (nl d +:+ String "]" rest))) acc
    = Some (JArray (reverse acc ++ map reread (e :: elems)), rest).
Proof.
  induction 1 as [|e2 elems He2 _ IH]; intros Hv e acc fuel He Hve Hfuel.
  - simpl in Hfuel. destruct fuel as [|fuel]; [lia|].
    rewrite parse_elems_eq.
    rewrite (parse_value_ws _ _ (pr (S d) e +:+ (nl d +:+ String "]" rest)))
      by apply skip_nl.
    rewrite He by (lia || apply ends_nl).
    rewrite skip_nl. simpl. by rewrite reverse_cons.
  - simpl in Hv. apply andb_true_iff in Hv as [Hv2 Hv].
    simpl in Hfuel. destruct fuel as [|fuel]; [lia|].
    rewrite parse_elems_eq.
    change (String.concat ("," +:+ nl (S d)) (map (pr (S d)) (e :: e2 :: elems)))
      with (pr (S d) e +:+ ("," +:+ nl (S d))
            +:+ String.concat ("," +:+ nl (S d)) (map (pr (S d)) (e2 :: elems))).
    rewrite !app_assoc_s.
    rewrite (parse_value_ws _ _
               (pr (S d) e
                +:+ String "," (nl (S d)
                      +:+ (String.concat ("," +:+ nl (S d))
                             (map (pr (S d)) (e2 :: elems))
                           +:+ (nl d +:+ String "]" rest)))))
      by apply skip_nl.
    rewrite He by (lia || by left).
    cbn [skip]. change (space ","%char) with false. cbn iota.
    rewrite decide_True by done.
    rewrite (IH Hv e2 (reread e :: acc) fuel He2 Hv2) by (simpl; lia).
    by rewrite reverse_cons, <- (assoc_L (++)).
Qed.

Lemma skip_head a r : space a = false -> skip (String a r) = String a r.
Proof. intros Ha. cbn [skip]. by rewrite Ha. Qed.

Lemma parse_members_list d rest members :
  Forall (fun m => parses (snd m)) members ->
  forallb (fun m => numbers_valid (snd m)) members = true ->
  forall k v acc fuel,
    parses v -> numbers_valid v = true ->
    list_sum (map (fun m => S (weight (snd m))) ((k, v) :: members)) <= fuel ->
    parse_members fuel
      (nl (S d)
       +:+ (String.concat ("," +:+ nl (S d))
              (map (fun m => quote (fst m) +:+ ": " +:+ pr (S d) (snd m))
                   ((k, v) :: members))
            +:+ (nl d +:+ String "}" rest))) acc
    = Some (JObject (reverse acc
                     ++ map (fun m => (coerce 0 (fst m), reread (snd m)))
                            ((k, v) :: members)), rest).
Proof.
  assert (forall k v X f acc,
            parse_members (S f)
              (nl (S d) +:+ ((quote k +:+ ": " +:+ pr (S d) v) +:+ X)) acc
            = match parse_value f (pr (S d) v +:+ X) with
              | Some (v', rest2) =>
                  match skip rest2 with
                  | String c2 r2 =>
                      if decide (c2 = ","%char)
                      then parse_members f r2 ((coerce 0 k, v') :: acc)
                      else if decide (c2 = "}"%char)
                      then Some (JObject (reverse ((coerce 0 k, v') :: acc)), r2)
                      else None
                  | EmptyString => None
                  end
              | None => None
              end) as Hstep.
  { intros k v X f acc.
    rewrite (parse_members_ws _ _ ((quote k +:+ ": " +:+ pr (S d) v) +:+ X))
      by apply skip_nl.
    unfold quote. rewrite !app_assoc_s, app_cons_s.
    rewrite parse_members_eq by done. rewrite decide_True by done.
    change (str DQUOTE +:+ ?x) with (String DQUOTE x).
    rewrite (scan_escape (String.length k)) by done.
    change (": " +:+ ?x) with (String ":" (String " " x)).
    rewrite skip_head by done. rewrite decide_True by done.
    rewrite (parse_value_ws _ (String " " (pr (S d) v +:+ X)) (pr (S d) v +:+ X))
      by done.
    by rewrite (unquote_escape (String.length k)). }
  induction 1 as [|[k2 v2] members Hv2p _ IH]; intros Hv k v acc fuel Hp Hvv Hfuel.
  - simpl in Hfuel. destruct fuel as [|fuel]; [lia|].
    change (String.concat _ (map _ [(k, v)]))
      with (quote k +:+ ": " +:+ pr (S d) v).
    rewrite Hstep, Hp by (lia || apply ends_nl).
    rewrite skip_nl. simpl. by rewrite reverse_cons.
  - simpl in Hv. apply andb_true_iff in Hv as [Hvv2 Hv]. simpl in Hv2p.
    simpl in Hfuel. destruct fuel as [|fuel]; [lia|].
    change (String.concat ("," +:+ nl (S d))
              (map (fun m => quote (fst m) +:+ ": " +:+ pr (S d) (snd m))
                   ((k, v) :: (k2, v2) :: members)))
      with ((quote k +:+ ": " +:+ pr (S d) v) +:+ ("," +:+ nl (S d))
            +:+ String.concat ("," +:+ nl (S d))
                  (map (fun m => quote (fst m) +:+ ": " +:+ pr (S d) (snd m))
                       ((k2, v2) :: members))).
    rewrite (app_assoc_s (quote k +:+ ": " +:+ pr (S d) v)).
    rewrite Hstep. rewrite !app_assoc_s.
    change ("," +:+ ?x) with (String "," x).
    rewrite Hp by (lia || by left).
    rewrite skip_head by done. rewrite decide_True by done.
    rewrite (IH Hv k2 v2 ((coerce 0 k, reread v) :: acc) fuel Hv2p Hvv2)
      by (simpl in *; lia).
    by rewrite reverse_cons, <- (assoc_L (++)).
Qed.

Lemma parse_value_string f X :
  parse_value (S f) (String DQUOTE X)
  = match scan_string X with
    | Some (body, rest) => Some (JString (unquote 0 body), rest)
    | None => None
    end.
Proof. reflexivity. Qed.

End parse.

Section parse_tree.
Import json.

Local Abbreviation nl := (newline "" (str TAB)).
Local Abbreviation pr := (print "" (str TAB)).

Lemma parse_value_open_array f R :
  parse_value (S f) (String "[" R)
  = match skip R with
    | String c r' =>
        if decide (c = "]"%char) then Some (JArray [], r')
        else parse_elems f R []
    | EmptyString => None
    end.
Proof. reflexivity. Qed.

Lemma parse_value_open_object f R :
  parse_value (S f) (String "{" R)
  = match skip R with
    | String c r' =>
        if decide (c = "}"%char) then Some (JObject [], r')
        else parse_members f R []
    | EmptyString => None
    end.
Proof. reflexivity. Qed.

Lemma concat_head (sep : string) (x : string) (l : list string) a r :
  x = String a r -> exists r', String.concat sep (x :: l) = String a r'.
Proof.
  intros ->. destruct l as [|y l]; [by eexists|].
  change (String.concat sep (String a r :: y :: l))
    with (String a r +:+ sep +:+ String.concat sep (y :: l)).
  rewrite app_cons_s. by eexists.
Qed.

Lemma print_parses j : numbers_valid j = true -> parses j.
Proof.
  induction j as [|b|lit|s|elems IH|members IH] using tree_ind';
    intros Hv d fuel rest Hfuel Hrest;
    (destruct fuel as [|fuel]; [simpl in Hfuel; lia|]).
  - reflexivity.
  - by destruct b.
  - simpl in Hv. destruct (scan_number_app lit rest Hv Hrest) as (E & a & r & -> & Ha).
    change (pr d (JNumber (String a r))) with (String a r).
    rewrite app_cons_s, parse_value_number by done.
    by rewrite <- app_cons_s, E.
  - change (pr d (JString s)) with (quote s). unfold quote.
    rewrite !app_assoc_s, app_cons_s.
    change (str DQUOTE +:+ rest) with (String DQUOTE rest).
    rewrite parse_value_string, (scan_escape (String.length s)) by done.
    by rewrite (unquote_escape (String.length s)).
  - rewrite print_array. destruct elems as [|e elems]; [done|].
    simpl in Hv. apply andb_true_iff in Hv as [Hve Hv].
    apply Forall_cons in IH as [He IH].
    assert (Forall parses elems) as Hall.
    { clear -IH Hv. induction IH as [|x l Hx _ IHl]; [done|].
      simpl in Hv. apply andb_true_iff in Hv as [??]. constructor; auto. }
    rewrite !app_assoc_s, app_cons_s.
    change ("" +:+ ?x) with x. change ("]" +:+ rest) with (String "]" rest).
    rewrite parse_value_open_array, skip_nl.
    destruct (print_head (S d) e Hve) as (a & r & Ea & Hsp & Hnb & _).
    destruct (concat_head ("," +:+ nl (S d)) _ (map (pr (S d)) elems) a r Ea)
      as (r' & Ec).
    change (String.concat ("," +:+ nl (S d)) (map (pr (S d)) (e :: elems)))
      with (String.concat ("," +:+ nl (S d)) (pr (S d) e :: map (pr (S d)) elems)).
    rewrite Ec, app_cons_s, skip_head, decide_False by done.
    rewrite <- app_cons_s, <- Ec.
    change (pr (S d) e :: map (pr (S d)) elems) with (map (pr (S d)) (e :: elems)).
    rewrite (parse_elems_list d rest elems Hall Hv e [] fuel (He Hve) Hve)
      by (simpl in *; lia).
    done.
  - rewrite print_object. destruct members as [|[k v] members]; [done|].
    simpl in Hv. apply andb_true_iff in Hv as [Hve Hv].
    apply Forall_cons in IH as [He IH]. simpl in He.
    assert (Forall (fun m => parses (snd m)) members) as Hall.
    { clear -IH Hv. induction IH as [|x l Hx _ IHl]; [done|].
      simpl in Hv. apply andb_true_iff in Hv as [??]. constructor; auto. }
    rewrite !app_assoc_s, app_cons_s.
    change ("" +:+ ?x) with x. change ("}" +:+ rest) with (String "}" rest).
    rewrite parse_value_open_object, skip_nl.
    set (item := fun m : string * tree => quote (fst m) +:+ ": " +:+ pr (S d) (snd m)).
    assert (exists r, item (k, v) = String DQUOTE r) as [r Ea] by (by eexists).
    destruct (concat_head ("," +:+ nl (S d)) _ (map item members) _ _ Ea)
      as (r' & Ec).
    change (String.concat ("," +:+ nl (S d)) (map item ((k, v) :: members)))
      with (String.concat ("," +:+ nl (S d)) (item (k, v) :: map item members)).
    rewrite Ec, app_cons_s, skip_head, decide_False by done.
    rewrite <- app_cons_s, <- Ec.
    change (item (k, v) :: map item members) with (map item ((k, v) :: members)).
    subst item.
    rewrite (parse_members_list d rest members Hall Hv k v [] fuel (He Hve) Hve)
      by (simpl in *; lia).
    done.
Qed.

End parse_tree.

Section whole.
Import json os.

Local Abbreviation nl := (newline "" (str TAB)).
Local Abbreviation pr := (print "" (str TAB)).

Lemma concat_weight {A} (f : A -> string) (w : A -> nat) (sep : string) l :
  1 <= String.length sep ->
  Forall (fun x => w x <= String.length (f x)) l ->
  list_sum (map (fun x => S (w x)) l)
  <= S (String.length (String.concat sep (map f l))).
Proof.
  intros Hsep. induction 1 as [|x l Hx Hl IH]; [simpl; lia|].
  destruct l as [|y l]; [simpl in *; lia|].
  change (String.concat sep (map f (x :: y :: l)))
    with (f x +:+ sep +:+ String.concat sep (map f (y :: l))).
  rewrite !length_app_s.
  change (list_sum (map (fun x => S (w x)) (x :: y :: l)))
    with (S (w x) + list_sum (map (fun x => S (w x)) (y :: l))).
  lia.
Qed.

(** The text of a tree is at least as long as the calls the decoder needs
    for it. *)
Lemma weight_print j :
  numbers_valid j = true -> forall d, weight j <= String.length (pr d j).
Proof.
  induction j as [|b|lit|s|elems IH|members IH] using tree_ind'; intros Hv d.
  - simpl. lia.
  - destruct b; simpl; lia.
  - simpl in Hv. destruct (scan_number_app lit "" Hv I) as (_ & a & r & -> & _).
    simpl. lia.
  - change (pr d (JString s)) with (quote s). unfold quote.
    rewrite app_cons_s. simpl. lia.
  - rewrite print_array. destruct elems as [|e elems]; [simpl; lia|].
    rewrite !length_app_s.
    pose proof (concat_weight (pr (S d)) weight ("," +:+ nl (S d)) (e :: elems))
      as Hw.
    change (weight (JArray (e :: elems)))
      with (S (list_sum (map (fun x => S (weight x)) (e :: elems)))).
    cut (Forall (fun x => weight x <= String.length (pr (S d) x)) (e :: elems)).
    { intros HF. specialize (Hw ltac:(simpl; lia) HF).
      change (String.length "[") with 1. change (String.length "]") with 1.
      change (String.length "{") with 1. change (String.length "}") with 1.
      lia. }
    clear Hw. revert IH Hv.
    change (numbers_valid (JArray (e :: elems)))
      with (forallb numbers_valid (e :: elems)).
    generalize (e :: elems) as l.
    intros l IH. induction IH as [|x l Hx _ IHl]; intros Hv; [done|].
    simpl in Hv. apply andb_true_iff in Hv as [??]. constructor; auto.
  - rewrite print_object. destruct members as [|m members]; [simpl; lia|].
    rewrite !length_app_s.
    pose proof (concat_weight
                  (fun m => quote (fst m) +:+ ": " +:+ pr (S d) (snd m))
                  (fun m => weight (snd m)) ("," +:+ nl (S d)) (m :: members))
      as Hw.
    change (weight (JObject (m :: members)))
      with (S (list_sum (map (fun x => S (weight (snd x))) (m :: members)))).
    cut (Forall (fun x => weight (snd x)
                          <= String.length (quote (fst x) +:+ ": "
                                            +:+ pr (S d) (snd x)))
                (m :: members)).
    { intros HF. specialize (Hw ltac:(simpl; lia) HF).
      change (String.length "[") with 1. change (String.length "]") with 1.
      change (String.length "{") with 1. change (String.length "}") with 1.
      lia. }
    clear Hw. revert IH Hv.
    change (numbers_valid (JObject (m :: members)))
      with (forallb (fun m => numbers_valid (snd m)) (m :: members)).
    generalize (m :: members) as l.
    intros l IH. induction IH as [|x l Hx _ IHl]; intros Hv; [done|].
    simpl in Hv. apply andb_true_iff in Hv as [??]. constructor; [|auto].
    rewrite !length_app_s. specialize (Hx ltac:(done) (S d)). lia.
Qed.

(** The decoder reads the encoder's text back. *)
Lemma parse_print j :
  numbers_valid j = true -> parse (pr 0 j +:+ str LF) = Some (reread j).
Proof.
  intros Hv. unfold parse.
  rewrite (print_parses j Hv 0 _ (str LF)); [done| |by right].
  rewrite length_app_s. pose proof (weight_print j Hv 0). lia.
Qed.

Lemma coerce_ascii s : ascii_string s = true -> coerce 0 s = s.
Proof.
  induction s as [|a s IH]; [done|]. simpl.
  intros [Ha Hs]%andb_true_iff. by rewrite Ha, IH.
Qed.

Lemma reread_ascii j : ascii_tree j = true -> reread j = j.
Proof.
  induction j as [|b|lit|s|elems IH|members IH] using tree_ind'; intros Hj;
    try done.
  - simpl in *. by rewrite coerce_ascii.
  - simpl in *. f_equal. revert Hj.
    induction IH as [|x l Hx _ IHl]; intros Hj; [done|].
    simpl in Hj. apply andb_true_iff in Hj as [??]. simpl. f_equal; auto.
  - simpl in *. f_equal. revert Hj.
    induction IH as [|[k x] l Hx _ IHl]; intros Hj; [done|].
    simpl in Hj. apply andb_true_iff in Hj as [[??]%andb_true_iff ?].
    simpl in *. rewrite coerce_ascii by done. f_equal; [f_equal|]; auto.
Qed.

Lemma MarshalIndent_ok_inv v prefix indent b :
  MarshalIndent v prefix indent = (b, None) ->
  exists j, encode v = inl j /\ b = print prefix indent 0 j.
Proof.
  unfold MarshalIndent. destruct (encode v) as [j|]; [|done].
  intros [= <-]. eauto.
Qed.

(** The record file after a successful [Write], and what the decoder makes
    of it. *)
Lemma Write_ok_parse d fs c r v fs' :
  Write d fs c r v = (fs', None) ->
  exists j,
    encode v = inl j
    /\ ReadFile fs' (fnlPath d c r) = (pr 0 j +:+ str LF, None)
    /\ parse (pr 0 j +:+ str LF) = Some (reread j).
Proof.
  intros (b & Eb & Hcwd & Hne & Ew & _)%Write_ok_effect.
  apply MarshalIndent_ok_inv in Eb as (j & Ej & ->).
  exists j. split; [done|]. split.
  - apply ReadFile_found; [done|]. by rewrite Hcwd.
  - apply parse_print. by eapply encode_numbers_valid.
Qed.

End whole.

Section statements.
Import json os.

(** X29: what [Write] stores is valid JSON that decodes to the value.
    After a successful [Write], the record file holds the indented text of
    the value's JSON tree and a line feed, and the decoder accepts that text:
    it reads back the same tree, in which every byte of a string that is not
    part of well-formed UTF-8 has become U+FFFD.  When all strings of the
    value are ASCII the tree read back is the tree written. *)
Theorem Write_stores_JSON_that_decodes d fs c r v fs' :
  Write d fs c r v = (fs', None) ->
  exists j,
    encode v = inl j
    /\ ReadFile fs' (fnlPath d c r)
       = (print "" (str TAB) 0 j +:+ str LF, None)
    /\ parse (print "" (str TAB) 0 j +:+ str LF) = Some (reread j)
    /\ (ascii_tree j = true ->
        parse (print "" (str TAB) 0 j +:+ str LF) = Some j).
Proof.
  intros (j & Ej & Er & Ep)%Write_ok_parse.
  exists j. repeat split; try done.
  intros Ha. by rewrite Ep, reread_ascii.
Qed.

Lemma Write_stores_JSON_that_decodes_witness :
  exists j,
    encode zoro = inl j
    /\ ReadFile fs_zoro (fnlPath db "users" "Zoro")
       = (print "" (str TAB) 0 j +:+ str LF, None)
    /\ parse (print "" (str TAB) 0 j +:+ str LF) = Some (reread j)
    /\ (ascii_tree j = true ->
        parse (print "" (str TAB) 0 j +:+ str LF) = Some j).
Proof.
  apply (Write_stores_JSON_that_decodes db fs_db "users" "Zoro" zoro fs_zoro).
  vm_compute; reflexivity.
Defined.

(** X30: [Read] of what [Write] stored.  For plain names, [Read] of a record
    that [Write] has just stored is decided by the JSON value the encoder
    made of the value written: [nil] when that is a string or [null], and an
    [UnmarshalTypeError] for the destination type [string] naming the kind
    when it is a boolean, a number, an array or an object.  It is never a
    syntax error and never a file error. *)
Theorem Read_after_Write d fs c r v fs' s :
  valid_name c -> valid_name r ->
  Write d fs c r v = (fs', None) ->
  exists j,
    encode v = inl j
    /\ Read d fs' c r s
       = match j with
         | JNull | JString _ => None
         | JBool _ => Some (UnmarshalTypeError "bool" "string")
         | JNumber _ => Some (UnmarshalTypeError "number" "string")
         | JArray _ => Some (UnmarshalTypeError "array" "string")
         | JObject _ => Some (UnmarshalTypeError "object" "string")
         end.
Proof.
  intros Hc Hr E.
  destruct (Write_ok_parse _ _ _ _ _ _ E) as (j & Ej & Ef & Ep).
  exists j. split; [done|]. apply ReadFile_ok_inv in Ef.
  rewrite (Read_found d fs' c r s _ Hc Hr Ef).
  unfold Unmarshal. rewrite Ep. by destruct j.
Qed.

Lemma Read_after_Write_witness :
  exists j,
    encode zoro = inl j
    /\ Read db fs_zoro "users" "Zoro" ""
       = match j with
         | JNull | JString _ => None
         | JBool _ => Some (UnmarshalTypeError "bool" "string")
         | JNumber _ => Some (UnmarshalTypeError "number" "string")
         | JArray _ => Some (UnmarshalTypeError "array" "string")
         | JObject _ => Some (UnmarshalTypeError "object" "string")
         end.
Proof.
  apply (Read_after_Write db fs_db "users" "Zoro" zoro fs_zoro "").
  - plain_name.
  - plain_name.
  - computes.
Defined.

End statements.
